(** * bird-tag-frontend: upload-and-notification engine

    A shallow embedding of the parts of the two front-end applications of
    the repository that the synchronization engine is made of:

    - [bird-tag/]  (English sources): [views/DashboardView.vue],
      [services/apiService.js], [services/authService.js],
      [services/websocketService.js];
    - [birdtag/]   (Chinese sources): [utils/api.js], [utils/auth.js],
      [services/websocket.js], the upload view.

    Objects are finite maps from property names to values, arrays are
    lists, [Map] registries are association lists in insertion order.
    Asynchronous code is a transition function over the events the event
    loop can deliver (a call, a socket event, a timer, a settled promise);
    every handler runs to completion on the shared service object. *)

From stdpp Require Import gmap strings list fin_maps.
From Stdlib Require Import ZArith NArith QArith Qround.

Local Open Scope Z_scope.
Local Open Scope string_scope.

(** ** JavaScript values as the handlers use them *)

Module Js.

(** The values a property of a parsed JSON message holds.  Object and
    array values are references: spreading an object copies them and
    [===] compares their identity, so they are represented by their
    address.  An absent property ([undefined]) is a failed lookup. *)
Inductive value : Type :=
  | Null
  | Bool (b : bool)
  | Num (n : Z)
  | Str (s : string)
  | Ref (addr : positive).

#[global] Instance value_eq_dec : EqDecision value.
Proof. solve_decision. Defined.

(** A plain object: own enumerable properties. *)
Abbreviation object := (gmap string value).

(** [a === b] on two property reads. *)
Definition strict_eq (a b : option value) : bool := bool_decide (a = b).

(** [{...a, ...b}]: the properties of [b] win. *)
Definition spread (a b : object) : object := b ∪ a.

(** JavaScript truthiness of a property read. *)
Definition truthy (v : option value) : bool :=
  match v with
  | None | Some Null => false
  | Some (Bool b) => b
  | Some (Num n) => negb (Z.eqb n 0)
  | Some (Str s) => negb (String.eqb s "")
  | Some (Ref _) => true
  end.

(** Truthiness of a string-or-null, as [localStorage.getItem] returns. *)
Definition truthy_str (v : option string) : bool :=
  match v with
  | None => false
  | Some s => negb (String.eqb s "")
  end.

(** A JavaScript number in the exact arithmetic the percentage
    computations stay in: a rational, [NaN], or [Infinity]. *)
Inductive number : Type :=
  | finite (q : Q)
  | NaN
  | Infinity.

(** [x / y] on byte counts; [y] is [None] when it is [undefined]. *)
Definition divide (x : N) (y : option N) : number :=
  match y with
  | None => NaN
  | Some 0%N => if N.eqb x 0 then NaN else Infinity
  | Some t => finite (inject_Z (Z.of_N x) / inject_Z (Z.of_N t))
  end.

Definition times (a : number) (k : Q) : number :=
  match a with finite q => finite (q * k) | NaN => NaN | Infinity => Infinity end.

(** [Math.round]: the nearest integer, halves up. *)
Definition Math_round (a : number) : number :=
  match a with
  | finite q => finite (inject_Z (Qfloor (q + (1 # 2))))
  | NaN => NaN
  | Infinity => Infinity
  end.

(** The interval [[0,100]]. *)
Definition is_percent (a : number) : Prop :=
  match a with
  | finite q => (0 <= q)%Q ∧ (q <= 100)%Q
  | NaN | Infinity => False
  end.

End Js.

(** ** StateMerger: [handleWebSocketMessage] of DashboardView.vue *)

Module Dashboard.
Import Js.

(** [files.value.findIndex(f => f.file_id === data.file_id)];
    [None] is the result [-1]. *)
Fixpoint findIndex (p : object → bool) (files : list object) : option nat :=
  match files with
  | [] => None
  | f :: rest => if p f then Some 0%nat else S <$> findIndex p rest
  end.

Definition same_file_id (data f : object) : bool :=
  strict_eq (f !! "file_id") (data !! "file_id").

(** The handler, on the array held by [files.value]. *)
Definition handleWebSocketMessage (files : list object) (data : object)
  : list object :=
  if strict_eq (data !! "type") (Some (Str "FILE_UPDATE")) then
    match findIndex (same_file_id data) files with
    | Some existingIndex =>
        match files !! existingIndex with
        | Some existing => <[existingIndex := spread existing data]> files
        | None => files
        end
    | None => data :: files
    end
  else files.

End Dashboard.


(** ** The upload view of birdtag: its [handleWebSocketMessage] *)

Module UploadView.
Import Js.

(** A value under [message.tags]: [null]; a number; an object, with
    what its [N] property reads (the DynamoDB number format); or some
    other primitive. *)
Inductive tag : Type :=
  | tag_null
  | tag_number (n : Z)
  | tag_object (N : option value)
  | tag_other.

(** The message as the handler reads it; [tags] is [None] when the
    property is absent or [null], and otherwise the entries of the
    object in their order. *)
Record message : Type := Message {
  type : option value;
  thumbnail_url : option value;
  tags : option (list (string * tag)) }.

(** [fileData.value] and [fileStatus.value]. *)
Record view : Type := View {
  fileData_thumbnail_url : option value;
  fileData_tags : gmap string number;
  thumbnail : bool;
  tagged : bool }.

Section handler.

Variable parseInt : value → number.

(** The loop over [Object.entries(message.tags)]; [None] when reading
    [value.N] of a [null] throws. *)
Fixpoint convert (entries : list (string * tag)) (acc : gmap string number)
  : option (gmap string number) :=
  match entries with
  | [] => Some acc
  | (key, value) :: rest =>
      match value with
      | tag_null => None
      | tag_number n => convert rest (<[key := finite (inject_Z n)]> acc)
      | tag_object N =>
          if truthy N
          then convert rest (<[key := parseInt (default Null N)]> acc)
          else convert rest acc
      | tag_other => convert rest acc
      end
  end.

Definition handleWebSocketMessage (v : view) (m : message) : view :=
  if strict_eq (type m) (Some (Str "FILE_UPDATE")) then
    let v :=
      if truthy (thumbnail_url m)
      then {| fileData_thumbnail_url := thumbnail_url m;
              fileData_tags := fileData_tags v;
              thumbnail := true; tagged := tagged v |}
      else v in
    match tags m with
    | Some (e :: es) =>
        match convert (e :: es) ∅ with
        | Some t =>
            {| fileData_thumbnail_url := fileData_thumbnail_url v;
               fileData_tags := t;
               thumbnail := thumbnail v; tagged := true |}
        | None => v
        end
    | _ => v
    end
  else v.

End handler.

End UploadView.

(** ** What the browser gives both socket services *)

Module Browser.

(** [WebSocket.readyState]. *)
Inductive readyState : Type := CONNECTING | OPEN | CLOSING | CLOSED.

#[global] Instance readyState_eq_dec : EqDecision readyState.
Proof. solve_decision. Defined.

(** The functions the page hands to a service ([onMessage], [onError],
    handlers passed to [onMessage(...)], ...) are opaque to the service:
    it only stores and calls them.  They are known by a name. *)
Definition callback := nat.

(** [ws.close(1000, ...)]: an open or connecting socket starts closing,
    a closing or closed one is left as it is. *)
Definition close_state (s : readyState) : readyState :=
  match s with
  | CONNECTING | OPEN => CLOSING
  | CLOSING | CLOSED => s
  end.

(** Removing the element at a position (a timer that has fired). *)
Fixpoint remove_nth {A} (i : nat) (l : list A) : list A :=
  match l, i with
  | [], _ => []
  | _ :: rest, O => rest
  | x :: rest, S j => x :: remove_nth j rest
  end.

End Browser.

(** ** birdtag/src/services/websocket.js *)

Module Websocket.
Import Browser.

Section service.

(** Parsed messages, [JSON.parse] ([None]: it throws), listeners that
    may throw on a message, the number [Date.now() + Math.random()] used
    as a [Map] key, and the configured endpoint. *)
Context {Data Key : Type} `{EqDecision Key}.
Variable JSON_parse : string → option Data.
Variable throws : callback → Data → bool.
Variable WEBSOCKET_API_URL : string.
Variable encodeURIComponent : string → string.

(** The three optional callbacks of one [connect] call; the socket
    handlers and the retry timer close over them. *)
Record callbacks : Type := Callbacks {
  onMessage : option callback;
  onError : option callback;
  onClose : option callback }.

Record socket : Type := Socket {
  url : string;
  state : readyState;
  closure : callbacks }.

Record timer : Type := Timer {
  delay : Z;
  retry : callbacks }.

(** The fields of the singleton [WebSocketService]. *)
Record service : Type := Service {
  ws : option nat;
  reconnectAttempts : Z;
  listeners : list (Key * callback);
  fileId : option string }.

Definition maxReconnectAttempts : Z := 5.
Definition reconnectDelay : Z := 1000.

(** What a run lets the outside see. *)
Inductive output : Type :=
  | console_log (msg : string)
  | console_warn (msg : string)
  | console_error (msg : string)
  | called (listener : callback) (data : Data)
  | called_onError (cb : callback)
  | called_onClose (cb : callback) (code : Z)
  | ws_send (s : nat) (data : Data)
  | ws_close (s : nat) (code : Z).

(** The service, every socket it ever built (a socket is named by its
    position), the pending timers, the stored token, and the effects so
    far (oldest first). *)
Record world : Type := World {
  this : service;
  sockets : list socket;
  timers : list timer;
  jwt_token : option string;
  out : list output }.

Definition constructor : service :=
  {| ws := None; reconnectAttempts := 0; listeners := []; fileId := None |}.

Definition start (token : option string) : world :=
  {| this := constructor; sockets := []; timers := [];
     jwt_token := token; out := [] |}.

Definition emit (o : output) (w : world) : world :=
  {| this := this w; sockets := sockets w; timers := timers w;
     jwt_token := jwt_token w; out := out w ++ [o] |}.

Definition with_this (t : service) (w : world) : world :=
  {| this := t; sockets := sockets w; timers := timers w;
     jwt_token := jwt_token w; out := out w |}.

Definition with_sockets (l : list socket) (w : world) : world :=
  {| this := this w; sockets := l; timers := timers w;
     jwt_token := jwt_token w; out := out w |}.

Definition with_timers (l : list timer) (w : world) : world :=
  {| this := this w; sockets := sockets w; timers := l;
     jwt_token := jwt_token w; out := out w |}.

Definition readyState_of (w : world) (s : nat) : option readyState :=
  state <$> sockets w !! s.

(** [this.ws && this.ws.readyState === WebSocket.OPEN]. *)
Definition isConnected (w : world) : bool :=
  match ws (this w) with
  | Some s => bool_decide (readyState_of w s = Some OPEN)
  | None => false
  end.

(** [encodeURIComponent(fileId)] where [fileId] may be [null]. *)
Definition encode_fileId (f : option string) : string :=
  encodeURIComponent (default "null" f).

(** [Map.prototype.set]: an existing key keeps its place. *)
Fixpoint map_set (id : Key) (l : callback) (m : list (Key * callback))
  : list (Key * callback) :=
  match m with
  | [] => [(id, l)]
  | (k, v) :: rest =>
      if decide (k = id) then (k, l) :: rest else (k, v) :: map_set id l rest
  end.

(** [addMessageListener(listener)], with the drawn key. *)
Definition addMessageListener (id : Key) (listener : callback) (w : world)
  : world :=
  let t := this w in
  with_this {| ws := ws t; reconnectAttempts := reconnectAttempts t;
               listeners := map_set id listener (listeners t);
               fileId := fileId t |} w.

(** [notifyListeners(data)]: each listener is called inside its own
    [try]; one that throws is reported and the loop goes on. *)
Fixpoint notify (data : Data) (ls : list (Key * callback)) (w : world) : world :=
  match ls with
  | [] => w
  | (_, listener) :: rest =>
      let w := emit (called listener data) w in
      let w := if throws listener data
               then emit (console_error "Error in WebSocket listener:") w
               else w in
      notify data rest w
  end.

Definition notifyListeners (data : Data) (w : world) : world :=
  notify data (listeners (this w)) w.

(** [connect(fileId, onMessage, onError, onClose)].  The [WebSocket]
    constructor throws only on a malformed URL, which the configured
    endpoint is not; the [catch] around it is not reached. *)
Definition connect (f : option string) (cbs : callbacks) (w : world) : world :=
  if isConnected w then emit (console_log "WebSocket already connected") w
  else
    let t := this w in
    let w := with_this {| ws := ws t; reconnectAttempts := reconnectAttempts t;
                          listeners := listeners t; fileId := f |} w in
    if negb (Js.truthy_str (jwt_token w)) then
      let w := emit (console_error "No token available for WebSocket connection") w in
      match onError cbs with Some cb => emit (called_onError cb) w | None => w end
    else
      let token := default "" (jwt_token w) in
      let u := WEBSOCKET_API_URL ++ "?token=" ++ encodeURIComponent token
               ++ "&file_id=" ++ encode_fileId f in
      let s := length (sockets w) in
      let w := with_sockets (sockets w ++ [Socket u CONNECTING cbs]) w in
      let t := this w in
      with_this {| ws := Some s; reconnectAttempts := reconnectAttempts t;
                   listeners := listeners t; fileId := fileId t |} w.

(** [this.ws.onopen]. *)
Definition onopen (cbs : callbacks) (id : Key) (w : world) : world :=
  let w := emit (console_log "WebSocket connected") w in
  let t := this w in
  let w := with_this {| ws := ws t; reconnectAttempts := 0;
                        listeners := listeners t; fileId := fileId t |} w in
  match onMessage cbs with
  | Some cb => addMessageListener id cb w
  | None => w
  end.

(** [this.ws.onmessage]. *)
Definition onmessage (payload : string) (w : world) : world :=
  match JSON_parse payload with
  | Some data => notifyListeners data w
  | None => emit (console_error "Failed to parse WebSocket message:") w
  end.

(** [this.ws.onerror]. *)
Definition onerror (cbs : callbacks) (w : world) : world :=
  let w := emit (console_error "WebSocket error:") w in
  match onError cbs with Some cb => emit (called_onError cb) w | None => w end.

(** [this.ws.onclose]. *)
Definition onclose (cbs : callbacks) (code : Z) (w : world) : world :=
  let w := emit (console_log "WebSocket closed") w in
  let t := this w in
  let w := with_this {| ws := None; reconnectAttempts := reconnectAttempts t;
                        listeners := listeners t; fileId := fileId t |} w in
  if negb (Z.eqb code 1000)
     && Z.ltb (reconnectAttempts (this w)) maxReconnectAttempts then
    let t := this w in
    let n := reconnectAttempts t + 1 in
    let w := with_this {| ws := ws t; reconnectAttempts := n;
                          listeners := listeners t; fileId := fileId t |} w in
    with_timers (timers w ++ [Timer (reconnectDelay * n) cbs]) w
  else
    match onClose cbs with Some cb => emit (called_onClose cb code) w | None => w end.

(** The body of the retry timer. *)
Definition ontimeout (cbs : callbacks) (w : world) : world :=
  let w := emit (console_log "Attempting to reconnect") w in
  connect (fileId (this w)) cbs w.

(** [send(data)]. *)
Definition send (data : Data) (w : world) : world :=
  match ws (this w) with
  | Some s =>
      if bool_decide (readyState_of w s = Some OPEN) then emit (ws_send s data) w
      else emit (console_warn "WebSocket is not connected") w
  | None => emit (console_warn "WebSocket is not connected") w
  end.

Definition set_state (s : nat) (st : readyState) (w : world) : world :=
  match sockets w !! s with
  | Some k => with_sockets (<[s := Socket (url k) st (closure k)]> (sockets w)) w
  | None => w
  end.

(** [disconnect()]. *)
Definition disconnect (w : world) : world :=
  let w :=
    match ws (this w) with
    | Some s =>
        let w := emit (ws_close s 1000) w in
        let w := set_state s (close_state (default CLOSED (readyState_of w s))) w in
        let t := this w in
        with_this {| ws := None; reconnectAttempts := reconnectAttempts t;
                     listeners := listeners t; fileId := fileId t |} w
    | None => w
    end in
  let t := this w in
  with_this {| ws := ws t; reconnectAttempts := reconnectAttempts t;
               listeners := []; fileId := None |} w.

(** What the event loop can run next: a call from the page, an event of
    one of the sockets, or a timer that is due. *)
Inductive event : Type :=
  | Connect (f : option string) (cbs : callbacks)
  | Disconnect
  | Send (data : Data)
  | Open (s : nat) (id : Key)
  | Message (s : nat) (payload : string)
  | Error (s : nat)
  | Close (s : nat) (code : Z)
  | Timeout (t : nat).

(** One turn of the event loop; [None] when the browser cannot deliver
    the event (no such socket or timer, or a socket in the wrong state). *)
Definition step (w : world) (e : event) : option world :=
  match e with
  | Connect f cbs => Some (connect f cbs w)
  | Disconnect => Some (disconnect w)
  | Send data => Some (send data w)
  | Open s id =>
      k ← sockets w !! s;
      if bool_decide (state k = CONNECTING)
      then Some (onopen (closure k) id (set_state s OPEN w)) else None
  | Message s payload =>
      k ← sockets w !! s;
      if bool_decide (state k = OPEN) then Some (onmessage payload w) else None
  | Error s =>
      k ← sockets w !! s;
      if bool_decide (state k = CLOSED) then None
      else Some (onerror (closure k) w)
  | Close s code =>
      k ← sockets w !! s;
      if bool_decide (state k = CLOSED) then None
      else Some (onclose (closure k) code (set_state s CLOSED w))
  | Timeout t =>
      tm ← timers w !! t;
      Some (ontimeout (retry tm) (with_timers (remove_nth t (timers w)) w))
  end.

Fixpoint run (w : world) (es : list event) : option world :=
  match es with
  | [] => Some w
  | e :: rest => w' ← step w e; run w' rest
  end.

(** The listener calls among the effects, in order. *)
Definition calls (os : list output) : list (callback * Data) :=
  omap (λ o, match o with called l d => Some (l, d) | _ => None end) os.

(** Automatic reconnects: socket [s] closes with a code, the retry
    timer (the only one pending) fires, and the socket it builds opens,
    drawing a listener key. *)
Fixpoint reconnects (s : nat) (cycles : list (Z * Key)) : list event :=
  match cycles with
  | [] => []
  | (code, id) :: rest =>
      Close s code :: Timeout 0 :: Open (S s) id :: reconnects (S s) rest
  end.

(** One session: a [connect] call, the first open, then the reconnects. *)
Definition session (f : option string) (cbs : callbacks) (id0 : Key)
    (cycles : list (Z * Key)) : list event :=
  Connect f cbs :: Open 0 id0 :: reconnects 0 cycles.

(** The service at rest between reconnects of such a session: socket
    [s], the last one built, is open and current, no timer is pending,
    and the registry holds the callback once per key drawn so far. *)
Definition stable (token : option string) (cbs : callbacks) (cb : callback)
    (f : option string) (s : nat) (ids : list Key) (w : world) : Prop :=
  ∃ pre u, sockets w = (pre ++ [Socket u OPEN cbs])%list ∧ length pre = s ∧
    ws (this w) = Some s ∧ timers w = [] ∧ reconnectAttempts (this w) = 0 ∧
    listeners (this w) = (λ i, (i, cb)) <$> ids ∧ fileId (this w) = f ∧
    jwt_token w = token ∧ calls (out w) = [].

End service.

(** The record updates compute on a world that is given by its fields. *)
Arguments emit {Data Key} o !w /.
Arguments with_this {Data Key} t !w /.
Arguments with_sockets {Data Key} l !w /.
Arguments with_timers {Data Key} l !w /.
Arguments set_state {Data Key} s st !w /.
Arguments isConnected {Data Key} !w /.
Arguments readyState_of {Data Key} !w s /.
Arguments addMessageListener {Data Key _} id listener !w /.
Arguments connect {Data Key} WEBSOCKET_API_URL encodeURIComponent f cbs !w /.
Arguments onopen {Data Key _} cbs id !w /.
Arguments onerror {Data Key} cbs !w /.
Arguments onclose {Data Key} cbs code !w /.
Arguments ontimeout {Data Key} WEBSOCKET_API_URL encodeURIComponent cbs !w /.
Arguments disconnect {Data Key} !w /.

End Websocket.

(** ** bird-tag/src/services/websocketService.js *)

Module WebsocketService.
Import Browser.

Section service.

Context {Data : Type}.
Variable JSON_parse : string → option Data.
Variable throws : callback → Data → bool.
Variable status_throws : callback → string → bool.
Variable websocketApiUrl : string.
Variable encodeURIComponent : string → string.

(** A socket and a retry timer close over the [fileId] argument of the
    [connect] call that made them. *)
Record socket : Type := Socket {
  url : string;
  state : readyState;
  closure : string }.

Record timer : Type := Timer {
  delay : Z;
  retry : string }.

Record service : Type := Service {
  ws : option nat;
  reconnectAttempts : Z;
  messageHandlers : list callback;
  connectionHandlers : list callback;
  isConnecting : bool }.

Definition maxReconnectAttempts : Z := 5.
Definition reconnectDelay : Z := 3000.

Inductive output : Type :=
  | console_log (msg : string)
  | console_error (msg : string)
  | called (handler : callback) (data : Data)
  | called_status (handler : callback) (status : string) (code : option Z)
  | rejected (msg : string)
  | ws_send (s : nat) (data : Data)
  | ws_close (s : nat) (code : Z).

(** [pending]: the [connect] calls suspended at
    [await authService.getUserSession()], each with its [fileId];
    [idToken]: what [authService.getStoredToken()] reads. *)
Record world : Type := World {
  this : service;
  sockets : list socket;
  timers : list timer;
  pending : list string;
  idToken : option string;
  out : list output }.

Definition constructor : service :=
  {| ws := None; reconnectAttempts := 0; messageHandlers := [];
     connectionHandlers := []; isConnecting := false |}.

Definition start (token : option string) : world :=
  {| this := constructor; sockets := []; timers := []; pending := [];
     idToken := token; out := [] |}.

Definition emit (o : output) (w : world) : world :=
  {| this := this w; sockets := sockets w; timers := timers w;
     pending := pending w; idToken := idToken w; out := out w ++ [o] |}.

Definition with_this (t : service) (w : world) : world :=
  {| this := t; sockets := sockets w; timers := timers w;
     pending := pending w; idToken := idToken w; out := out w |}.

Definition with_sockets (l : list socket) (w : world) : world :=
  {| this := this w; sockets := l; timers := timers w;
     pending := pending w; idToken := idToken w; out := out w |}.

Definition with_timers (l : list timer) (w : world) : world :=
  {| this := this w; sockets := sockets w; timers := l;
     pending := pending w; idToken := idToken w; out := out w |}.

Definition with_pending (l : list string) (w : world) : world :=
  {| this := this w; sockets := sockets w; timers := timers w;
     pending := l; idToken := idToken w; out := out w |}.

Definition set_ws (v : option nat) (t : service) : service :=
  {| ws := v; reconnectAttempts := reconnectAttempts t;
     messageHandlers := messageHandlers t;
     connectionHandlers := connectionHandlers t;
     isConnecting := isConnecting t |}.

Definition set_reconnectAttempts (n : Z) (t : service) : service :=
  {| ws := ws t; reconnectAttempts := n;
     messageHandlers := messageHandlers t;
     connectionHandlers := connectionHandlers t;
     isConnecting := isConnecting t |}.

Definition set_messageHandlers (l : list callback) (t : service) : service :=
  {| ws := ws t; reconnectAttempts := reconnectAttempts t;
     messageHandlers := l;
     connectionHandlers := connectionHandlers t;
     isConnecting := isConnecting t |}.

Definition set_connectionHandlers (l : list callback) (t : service) : service :=
  {| ws := ws t; reconnectAttempts := reconnectAttempts t;
     messageHandlers := messageHandlers t;
     connectionHandlers := l;
     isConnecting := isConnecting t |}.

Definition set_isConnecting (b : bool) (t : service) : service :=
  {| ws := ws t; reconnectAttempts := reconnectAttempts t;
     messageHandlers := messageHandlers t;
     connectionHandlers := connectionHandlers t;
     isConnecting := b |}.

Definition readyState_of (w : world) (s : nat) : option readyState :=
  state <$> sockets w !! s.

(** [this.ws?.readyState === WebSocket.OPEN]. *)
Definition ws_is_open (w : world) : bool :=
  match ws (this w) with
  | Some s => bool_decide (readyState_of w s = Some OPEN)
  | None => false
  end.

(** [getStatus()]. *)
Definition getStatus (w : world) : string :=
  match ws (this w) with
  | None => "disconnected"
  | Some s =>
      match readyState_of w s with
      | Some CONNECTING => "connecting"
      | Some OPEN => "connected"
      | Some CLOSING => "closing"
      | Some CLOSED => "disconnected"
      | None => "unknown"
      end
  end.

(** [baseUrl.replace(/\/$/, '')]. *)
Fixpoint strip_trailing_slash (s : string) : string :=
  match s with
  | "" => ""
  | String c rest =>
      if String.eqb rest "" then (if String.eqb s "/" then "" else s)
      else String c (strip_trailing_slash rest)
  end.

(** [notifyMessageHandlers(data)]. *)
Fixpoint notify (data : Data) (hs : list callback) (w : world) : world :=
  match hs with
  | [] => w
  | handler :: rest =>
      let w := emit (called handler data) w in
      let w := if throws handler data
               then emit (console_error "Message handler error:") w else w in
      notify data rest w
  end.

Definition notifyMessageHandlers (data : Data) (w : world) : world :=
  notify data (messageHandlers (this w)) w.

(** [notifyConnectionHandlers(status)]. *)
Fixpoint notify_status (status : string) (code : option Z)
    (hs : list callback) (w : world) : world :=
  match hs with
  | [] => w
  | handler :: rest =>
      let w := emit (called_status handler status code) w in
      let w := if status_throws handler status
               then emit (console_error "Connection handler error:") w else w in
      notify_status status code rest w
  end.

Definition notifyConnectionHandlers (status : string) (code : option Z)
    (w : world) : world :=
  notify_status status code (connectionHandlers (this w)) w.

(** [connect(fileId)] up to its first [await]: the two guards, the flag,
    and the suspension on the session lookup. *)
Definition connect (f : string) (w : world) : world :=
  if ws_is_open w then emit (console_log "WebSocket already connected") w
  else if isConnecting (this w)
  then emit (console_log "WebSocket connection in progress") w
  else
    let w := with_this (set_isConnecting true (this w)) w in
    with_pending (pending w ++ [f]) w.

(** The [catch] of [connect]: report, drop the flag, rethrow. *)
Definition connect_failed (msg : string) (w : world) : world :=
  let w := emit (console_error "Failed to connect WebSocket:") w in
  let w := with_this (set_isConnecting false (this w)) w in
  emit (rejected msg) w.

(** [connect(fileId)] from the [await] on: [session] is the [idToken] of
    the session [getUserSession()] resolved with, or [None] when it
    rejected. *)
Definition connect_resume (f : string) (session : option string) (w : world)
  : world :=
  let token := match session with
               | Some t => t
               | None => default "" (idToken w)
               end in
  if String.eqb token "" then connect_failed "No authentication token available" w
  else if String.eqb websocketApiUrl ""
  then connect_failed "WebSocket API URL is not configured" w
  else
    let cleanUrl := strip_trailing_slash websocketApiUrl in
    let wsUrl := cleanUrl ++ "?token=" ++ encodeURIComponent token
                 ++ (if String.eqb f "" then "" else "&file_id=" ++ f) in
    let w := emit (console_log "Connecting to WebSocket:") w in
    let w := emit (console_log "Token length:") w in
    let s := length (sockets w) in
    let w := with_sockets (sockets w ++ [Socket wsUrl CONNECTING f]) w in
    with_this (set_ws (Some s) (this w)) w.

(** [this.ws.onopen]. *)
Definition onopen (w : world) : world :=
  let w := emit (console_log "WebSocket connected successfully") w in
  let w := with_this (set_reconnectAttempts 0 (this w)) w in
  let w := with_this (set_isConnecting false (this w)) w in
  notifyConnectionHandlers "connected" None w.

(** [this.ws.onmessage]. *)
Definition onmessage (payload : string) (w : world) : world :=
  match JSON_parse payload with
  | Some data =>
      notifyMessageHandlers data (emit (console_log "WebSocket message received:") w)
  | None =>
      emit (console_error "Raw message:")
        (emit (console_error "Failed to parse WebSocket message:") w)
  end.

(** [this.ws.onerror]. *)
Definition onerror (w : world) : world :=
  let w := emit (console_error "WebSocket error:") w in
  let w := emit (console_error "WebSocket readyState:") w in
  let w := emit (console_error "WebSocket URL:") w in
  let w := with_this (set_isConnecting false (this w)) w in
  notifyConnectionHandlers "error" None w.

(** [this.ws.onclose]; [f] is the [fileId] the handler closes over. *)
Definition onclose (f : string) (code : Z) (w : world) : world :=
  let w := emit (console_log "WebSocket closed") w in
  let w := emit (console_log "Close code:") w in
  let w := emit (console_log "Close reason:") w in
  let w := emit (console_log "Was clean:") w in
  let w := with_this (set_isConnecting false (this w)) w in
  let w := notifyConnectionHandlers "closed" (Some code) w in
  if negb (Z.eqb code 1000)
     && Z.ltb (reconnectAttempts (this w)) maxReconnectAttempts then
    let w := with_this
               (set_reconnectAttempts (reconnectAttempts (this w) + 1) (this w)) w in
    let w := emit (console_log "Attempting to reconnect") w in
    with_timers (timers w ++ [Timer reconnectDelay f]) w
  else if Z.eqb code 1000
  then emit (console_log "WebSocket closed normally (no reconnect)") w
  else emit (console_log "Max reconnection attempts reached or connection closed intentionally") w.

(** [send(data)]. *)
Definition send (data : Data) (w : world) : world :=
  if ws_is_open w
  then match ws (this w) with
       | Some s => emit (ws_send s data) w
       | None => w
       end
  else emit (console_error "WebSocket is not connected") w.

Definition set_state (s : nat) (st : readyState) (w : world) : world :=
  match sockets w !! s with
  | Some k => with_sockets (<[s := Socket (url k) st (closure k)]> (sockets w)) w
  | None => w
  end.

(** [disconnect()]. *)
Definition disconnect (w : world) : world :=
  match ws (this w) with
  | Some s =>
      let w := with_this (set_reconnectAttempts maxReconnectAttempts (this w)) w in
      let w := emit (ws_close s 1000) w in
      let w := set_state s (close_state (default CLOSED (readyState_of w s))) w in
      with_this (set_ws None (this w)) w
  | None => w
  end.

(** [onMessage(handler)] and the unsubscribe function it returns. *)
Definition onMessage (handler : callback) (w : world) : world :=
  with_this (set_messageHandlers (messageHandlers (this w) ++ [handler]) (this w)) w.

Definition offMessage (handler : callback) (w : world) : world :=
  with_this (set_messageHandlers
               (filter (λ h, h ≠ handler) (messageHandlers (this w))) (this w)) w.

(** [onConnectionChange(handler)] and its unsubscribe function. *)
Definition onConnectionChange (handler : callback) (w : world) : world :=
  with_this (set_connectionHandlers
               (connectionHandlers (this w) ++ [handler]) (this w)) w.

Definition offConnectionChange (handler : callback) (w : world) : world :=
  with_this (set_connectionHandlers
               (filter (λ h, h ≠ handler) (connectionHandlers (this w))) (this w)) w.

Inductive event : Type :=
  | Connect (f : string)
  | Resume (i : nat) (session : option string)
  | Disconnect
  | Send (data : Data)
  | OnMessage (handler : callback)
  | OffMessage (handler : callback)
  | OnConnectionChange (handler : callback)
  | OffConnectionChange (handler : callback)
  | Open (s : nat)
  | Message (s : nat) (payload : string)
  | Error (s : nat)
  | Close (s : nat) (code : Z)
  | Timeout (t : nat).

(** One turn of the event loop; [None] when the event cannot occur. *)
Definition step (w : world) (e : event) : option world :=
  match e with
  | Connect f => Some (connect f w)
  | Resume i session =>
      f ← pending w !! i;
      Some (connect_resume f session (with_pending (remove_nth i (pending w)) w))
  | Disconnect => Some (disconnect w)
  | Send data => Some (send data w)
  | OnMessage h => Some (onMessage h w)
  | OffMessage h => Some (offMessage h w)
  | OnConnectionChange h => Some (onConnectionChange h w)
  | OffConnectionChange h => Some (offConnectionChange h w)
  | Open s =>
      k ← sockets w !! s;
      if bool_decide (state k = CONNECTING)
      then Some (onopen (set_state s OPEN w)) else None
  | Message s payload =>
      k ← sockets w !! s;
      if bool_decide (state k = OPEN) then Some (onmessage payload w) else None
  | Error s =>
      k ← sockets w !! s;
      if bool_decide (state k = CLOSED) then None else Some (onerror w)
  | Close s code =>
      k ← sockets w !! s;
      if bool_decide (state k = CLOSED) then None
      else Some (onclose (closure k) code (set_state s CLOSED w))
  | Timeout t =>
      tm ← timers w !! t;
      Some (connect (retry tm) (with_timers (remove_nth t (timers w)) w))
  end.

Fixpoint run (w : world) (es : list event) : option world :=
  match es with
  | [] => Some w
  | e :: rest => w' ← step w e; run w' rest
  end.

Definition calls (os : list output) : list (callback * Data) :=
  omap (λ o, match o with called l d => Some (l, d) | _ => None end) os.

End service.

(** The record updates compute on a world that is given by its fields. *)
Arguments emit {Data} o !w /.
Arguments with_this {Data} t !w /.
Arguments with_sockets {Data} l !w /.
Arguments with_timers {Data} l !w /.
Arguments with_pending {Data} l !w /.
Arguments set_ws v !t /.
Arguments set_reconnectAttempts n !t /.
Arguments set_messageHandlers l !t /.
Arguments set_connectionHandlers l !t /.
Arguments set_isConnecting b !t /.
Arguments set_state {Data} s st !w /.
Arguments ws_is_open {Data} !w /.
Arguments readyState_of {Data} !w s /.
Arguments connect {Data} f !w /.
Arguments connect_failed {Data} msg !w /.
Arguments connect_resume {Data} websocketApiUrl encodeURIComponent f session !w /.
Arguments notifyConnectionHandlers {Data} status_throws status code !w /.
Arguments onopen {Data} status_throws !w /.
Arguments onclose {Data} status_throws f code !w /.
Arguments disconnect {Data} !w /.

End WebsocketService.

(** ** bird-tag/src/services/authService.js: the credential sources *)

Module AuthService.
Import Js.

(** [localStorage]. *)
Abbreviation storage := (gmap string string).

(** The messages of the [Error]s the two lookups reject with. *)
Inductive error : Type :=
  | No_user_found
  | Invalid_token
  | Token_expired.

Record session : Type := Session {
  idToken : string;
  accessToken : string;
  refreshToken : string;
  user : object }.

Inductive promise (A : Type) : Type :=
  | resolved (a : A)
  | rejected (e : error).
Arguments resolved {A} a.
Arguments rejected {A} e.

(** What the Cognito SDK answers [getUserSession]: no current user; a
    [getSession] callback with [err]; or a session, valid or not, with
    its three tokens and the answer of [getUserAttributes] ([None]: its
    callback got [err]). *)
Inductive cognito : Type :=
  | no_current_user
  | getSession_err
  | got_session (isValid : bool) (id access refresh : string)
      (attributes : option (list (string * string))).

Section lookups.

(** [decodeJWT]: the payload object of a token, [None] where it returns
    [null]; and the number a non-number value converts to under [<]
    ([None]: [NaN]). *)
Variable decodeJWT : string → option object.
Variable ToNumber : value → option Z.

(** [a || b] on property reads. *)
Definition or_else (a b : option value) : option value :=
  if truthy a then a else b.

(** [v < now] for a property read [v] and a number [now]. *)
Definition less_than (v : option value) (now : Z) : bool :=
  match v with
  | None => false
  | Some (Num n) => Z.ltb n now
  | Some other =>
      match ToNumber other with Some n => Z.ltb n now | None => false end
  end.

(** An object literal [{k: v, ...rest}] where [v] may be [undefined]. *)
Definition with_property (k : string) (v : option value) (o : object) : object :=
  match v with Some x => <[k := x]> o | None => o end.

(** [getOAuthSession()], at the clock [now = floor(Date.now() / 1000)]. *)
Definition getOAuthSession (ls : storage) (now : Z) : promise session :=
  let idToken := ls !! "idToken" in
  let accessToken := ls !! "accessToken" in
  let refreshToken := ls !! "refreshToken" in
  if negb (truthy_str idToken) || negb (truthy_str accessToken)
  then rejected No_user_found
  else
    match decodeJWT (default "" idToken) with
    | None => rejected Invalid_token
    | Some tokenPayload =>
        if truthy (tokenPayload !! "exp") && less_than (tokenPayload !! "exp") now
        then rejected Token_expired
        else
          let userId := or_else (tokenPayload !! "sub")
                          (tokenPayload !! "cognito:username") in
          let email := or_else (tokenPayload !! "email") (tokenPayload !! "email") in
          let name := or_else (tokenPayload !! "name")
                        (or_else (tokenPayload !! "cognito:username")
                           (or_else (tokenPayload !! "email") (Some (Str "User")))) in
          resolved
            {| idToken := default "" idToken;
               accessToken := default "" accessToken;
               refreshToken := if truthy_str refreshToken
                               then default "" refreshToken else "";
               user := spread
                         (with_property "userId" userId
                            (with_property "email" email
                               (with_property "name" name ∅)))
                         tokenPayload |}
    end.

(** [attributes.forEach(attr => userAttributes[attr.Name] = attr.Value)]. *)
Definition userAttributes (attributes : list (string * string)) : object :=
  foldl (λ o attr, <[attr.1 := Str attr.2]> o) ∅ attributes.

(** [getUserSession()]. *)
Definition getUserSession (c : cognito) (ls : storage) (now : Z)
  : promise session :=
  match c with
  | no_current_user => getOAuthSession ls now
  | getSession_err => getOAuthSession ls now
  | got_session false _ _ _ _ => getOAuthSession ls now
  | got_session true _ _ _ None => getOAuthSession ls now
  | got_session true id access refresh (Some attributes) =>
      let attrs := userAttributes attributes in
      resolved
        {| idToken := id; accessToken := access; refreshToken := refresh;
           user := spread
                     (with_property "userId" (attrs !! "sub")
                        (with_property "email" (attrs !! "email")
                           (with_property "name"
                              (or_else (attrs !! "name") (attrs !! "email")) ∅)))
                     attrs |}
  end.

(** The primary source gave no credential. *)
Definition primary_miss (c : cognito) : bool :=
  match c with
  | got_session true _ _ _ (Some _) => false
  | _ => true
  end.

End lookups.

End AuthService.

(** ** birdtag/src/utils/api.js: [request] *)

Module Api.
Import Js.

Section request.

(** [JSON.parse] of a caller's string body ([None]: it throws) and
    [JSON.stringify].  [request] is private to the module and its
    callers pass no body or the text of an object, so what is parsed is
    an object. *)
Variable JSON_parse : string → option object.
Variable JSON_stringify : object → string.
Variable REST_API_BASE_URL : string.

Inductive body_init : Type :=
  | body_text (s : string)
  | body_object (o : object).

(** The [fetch] options the callers use. *)
Record options : Type := Options {
  method : option string;
  headers : gmap string string;
  body : option body_init }.

(** What is handed to [fetch(url, config)]. *)
Record fetch_call : Type := Fetch {
  fetch_url : string;
  fetch_method : option string;
  fetch_headers : gmap string string;
  fetch_body : string }.

(** Byte-uppercasing, as the Fetch standard normalizes method names. *)
Definition upper (c : Ascii.ascii) : Ascii.ascii :=
  let n := Ascii.N_of_ascii c in
  if (N.leb 97 n && N.leb n 122)%bool then Ascii.ascii_of_N (n - 32) else c.

Fixpoint uppercase (s : string) : string :=
  match s with
  | EmptyString => EmptyString
  | String c rest => String (upper c) (uppercase rest)
  end.

(** [fetch(url, config)] builds a [Request] before anything goes out,
    and that constructor throws a [TypeError] when a body comes with
    the method GET or HEAD, under any spelling of the two; a call
    without [method] is a GET.  The body of a [fetch_call] is a string,
    so it is never the [null] that would pass. *)
Definition fetch_throws (c : fetch_call) : bool :=
  match fetch_method c with
  | None => true
  | Some m => bool_decide (uppercase m = "GET" ∨ uppercase m = "HEAD")
  end.

(** The body that goes out to the server. *)
Definition sent_body (c : fetch_call) : option string :=
  if fetch_throws c then None else Some (fetch_body c).

(** The local [body] after the parsing block: [{}] without a body, on
    an empty string or on a parse error. *)
Definition parsed_body (o : options) : object :=
  match body o with
  | None => ∅
  | Some (body_text s) =>
      if String.eqb s "" then ∅ else default ∅ (JSON_parse s)
  | Some (body_object b) => b
  end.

(** The local [body] after [if (token && !body.token) body.token = token]. *)
Definition request_body (token : option string) (o : options) : object :=
  let body := parsed_body o in
  if truthy_str token && negb (truthy (body !! "token"))
  then <["token" := Str (default "" token)]> body
  else body.

(** [request(endpoint, options)] up to the [fetch] call; [token] is
    [getToken()]. *)
Definition request (token : option string) (endpoint : string) (o : options)
  : fetch_call :=
  {| fetch_url := REST_API_BASE_URL ++ endpoint;
     fetch_method := method o;
     fetch_headers := headers o ∪ {[ "Content-Type" := "application/json" ]};
     fetch_body := JSON_stringify (request_body token o) |}.

(** [requestUploadFile] and [getFileMetadata] up to their [fetch]. *)
Definition requestUploadFile (token : option string) (filename contentType : string)
  : fetch_call :=
  request token "/upload-file"
    {| method := Some "POST"; headers := ∅;
       body := Some (body_text
                 (JSON_stringify
                    {[ "filename" := Str filename;
                       "content_type" := Str contentType ]})) |}.

Definition getFileMetadata (token : option string) (fileId : string) : fetch_call :=
  request token ("/metadata/" ++ fileId)
    {| method := Some "GET"; headers := ∅; body := None |}.

End request.

End Api.

(** ** The byte transfer: [uploadToS3] of both applications *)

Module Transfer.
Import Js.

(** How the returned promise settles. *)
Inductive outcome : Type :=
  | fulfilled
  | failed (msg : string).

(** What a run of [uploadToS3] shows: the values [onProgress] was called
    with, oldest first, and the settlement ([None]: still pending). *)
Record run : Type := Run {
  reported : list number;
  settled : option outcome }.

Definition settle (o : outcome) (r : run) : run :=
  match settled r with
  | Some _ => r
  | None => {| reported := reported r; settled := Some o |}
  end.

Definition report (v : number) (r : run) : run :=
  {| reported := reported r ++ [v]; settled := settled r |}.

(** *** birdtag/src/utils/api.js, over [XMLHttpRequest] *)

(** The events of the request: [progress] on [xhr.upload], then [load]
    with the response status, or [error]. *)
Inductive xhr_event : Type :=
  | progress (lengthComputable : bool) (loaded total : N)
  | load (status : Z)
  | error.

(** The [progress] listener. *)
Definition xhr_onprogress (onProgress : bool) (lengthComputable : bool)
    (loaded total : N) (r : run) : run :=
  if lengthComputable && onProgress
  then report (times (divide loaded (Some total)) 100) r
  else r.

Definition xhr_handle (onProgress : bool) (r : run) (e : xhr_event) : run :=
  match e with
  | progress lc loaded total => xhr_onprogress onProgress lc loaded total r
  | load status =>
      if Z.eqb status 200 then settle fulfilled r
      else settle (failed "Upload failed with status") r
  | error => settle (failed "Upload failed") r
  end.

(** [uploadToS3(presignedUrl, file, onProgress)]; [onProgress] tells
    whether the caller passed a callback. *)
Definition uploadToS3_xhr (onProgress : bool) (es : list xhr_event) : run :=
  foldl (xhr_handle onProgress) {| reported := []; settled := None |} es.

(** *** bird-tag/src/services/apiService.js, over [axios.put] *)

(** The contract of [axios.put(url, data, {onUploadProgress})]: it calls
    [onUploadProgress] with events carrying [loaded] and [total]
    ([total] is [0] or [undefined] when the length is not known), and
    settles once: it resolves on a status in [200..299] and rejects on
    any other status and on a network error. *)
Inductive axios_event : Type :=
  | uploadProgress (loaded : N) (total : option N)
  | response (status : Z)
  | network_error.

(** The [onUploadProgress] callback. *)
Definition onUploadProgress (onProgress : bool) (loaded : N) (total : option N)
    (r : run) : run :=
  if onProgress
  then report (Math_round (divide (loaded * 100) total)) r
  else r.

Definition axios_handle (onProgress : bool) (r : run) (e : axios_event) : run :=
  match e with
  | uploadProgress loaded total => onUploadProgress onProgress loaded total r
  | response status =>
      if Z.leb 200 status && Z.ltb status 300 then settle fulfilled r
      else settle (failed "Request failed with status code") r
  | network_error => settle (failed "Network Error") r
  end.

(** [uploadToS3(presignUrl, file, onProgress)]: the rejection of
    [axios.put] is logged and thrown again. *)
Definition uploadToS3_axios (onProgress : bool) (es : list axios_event) : run :=
  foldl (axios_handle onProgress) {| reported := []; settled := None |} es.

(** The progress events of a list. *)
Definition xhr_progress_events (es : list xhr_event) : list (bool * N * N) :=
  omap (λ e, match e with progress lc l t => Some (lc, l, t) | _ => None end) es.

Definition axios_progress_events (es : list axios_event) : list (N * option N) :=
  omap (λ e, match e with uploadProgress l t => Some (l, t) | _ => None end) es.

(** A progress event as the XMLHttpRequest standard fires it: the length
    is computable exactly when it is not zero, and no more is loaded
    than there is. *)
Definition xhr_well_formed (e : xhr_event) : Prop :=
  match e with
  | progress lc loaded total =>
      (lc = true ↔ total ≠ 0%N) ∧ (loaded <= total)%N
  | _ => True
  end.

End Transfer.

(** ** The upload queue: [uploadFile] of DashboardView.vue *)

Module UploadQueue.
Import Js.

Section queue.

(** [Date.now() + Math.random()], the key of an upload. *)
Context {Key : Type} `{EqDecision Key}.

Record File : Type := MkFile {
  name : string;
  type : string;
  size : N }.

Record uploadItem : Type := UploadItem {
  id : Key;
  file : File;
  progress : number;
  status : string }.

(** Where one activation of [uploadFile] stands: suspended on
    [apiService.requestUpload], suspended on [apiService.uploadToS3],
    returned, left through [catch] from a rejected transfer ([caught]),
    or left through [catch] from a rejected request ([refused]), before
    [uploadToS3] was called and its progress callback made. *)
Inductive phase : Type := requesting | transferring | returned | caught | refused.

Record activation : Type := Activation {
  uploadId : Key;
  at_phase : phase }.

(** [uploadQueue.value], the activations of [uploadFile], and the
    two-second timers waiting to drop an item. *)
Record state : Type := State {
  uploadQueue : list uploadItem;
  activations : list activation;
  removals : list Key }.

Definition start : state :=
  {| uploadQueue := []; activations := []; removals := [] |}.

(** [uploadQueue.value.find(i => i.id === uploadId)] followed by a
    change of the item found. *)
Fixpoint update_found (k : Key) (f : uploadItem → uploadItem)
    (q : list uploadItem) : list uploadItem :=
  match q with
  | [] => []
  | i :: rest =>
      if decide (id i = k) then f i :: rest else i :: update_found k f rest
  end.

Fixpoint find (k : Key) (q : list uploadItem) : option uploadItem :=
  match q with
  | [] => None
  | i :: rest => if decide (id i = k) then Some i else find k rest
  end.

(** [item.progress = progress]. *)
Definition set_progress (v : number) (i : uploadItem) : uploadItem :=
  {| id := id i; file := file i; progress := v; status := status i |}.

(** [item.status = 'error'; item.progress = 0]. *)
Definition set_error (i : uploadItem) : uploadItem :=
  {| id := id i; file := file i; progress := finite 0; status := "error" |}.

Definition set_phase (n : nat) (p : phase) (st : state) : state :=
  match activations st !! n with
  | Some a =>
      {| uploadQueue := uploadQueue st;
         activations := <[n := Activation (uploadId a) p]> (activations st);
         removals := removals st |}
  | None => st
  end.

Definition with_queue (q : list uploadItem) (st : state) : state :=
  {| uploadQueue := q; activations := activations st; removals := removals st |}.

(** The start of [uploadFile(file)], down to the first [await]. *)
Definition uploadFile (f : File) (k : Key) (st : state) : state :=
  {| uploadQueue := uploadQueue st ++ [UploadItem k f (finite 0) "uploading"];
     activations := activations st ++ [Activation k requesting];
     removals := removals st |}.

(** The [catch] block, which leaves the activation at [p]. *)
Definition on_catch (n : nat) (k : Key) (p : phase) (st : state) : state :=
  set_phase n p (with_queue (update_found k set_error (uploadQueue st)) st).

Inductive event : Type :=
  | UploadFile (f : File) (k : Key)
  | RequestUploadResolved (n : nat)
  | RequestUploadRejected (n : nat)
  | OnProgress (n : nat) (v : number)
  | UploadToS3Resolved (n : nat)
  | UploadToS3Rejected (n : nat)
  | RemovalDue (t : nat).

(** One turn of the event loop.  An activation only takes the
    settlement of the promise it is suspended on.  The progress
    callback exists from the call of [uploadToS3] on and tests neither
    the status of the item nor whether the transfer has settled:
    whenever it is called, it writes the progress of the item [find]
    gives it. *)
Definition step (st : state) (e : event) : option state :=
  match e with
  | UploadFile f k => Some (uploadFile f k st)
  | RequestUploadResolved n =>
      a ← activations st !! n;
      match at_phase a with
      | requesting => Some (set_phase n transferring st)
      | _ => None
      end
  | RequestUploadRejected n =>
      a ← activations st !! n;
      match at_phase a with
      | requesting => Some (on_catch n (uploadId a) refused st)
      | _ => None
      end
  | OnProgress n v =>
      a ← activations st !! n;
      match at_phase a with
      | requesting | refused => None
      | transferring | returned | caught =>
          Some (with_queue
                  (update_found (uploadId a) (set_progress v) (uploadQueue st)) st)
      end
  | UploadToS3Resolved n =>
      a ← activations st !! n;
      match at_phase a with
      | transferring =>
          let st := set_phase n returned st in
          Some {| uploadQueue := uploadQueue st; activations := activations st;
                  removals := removals st ++ [uploadId a] |}
      | _ => None
      end
  | UploadToS3Rejected n =>
      a ← activations st !! n;
      match at_phase a with
      | transferring => Some (on_catch n (uploadId a) caught st)
      | _ => None
      end
  | RemovalDue t =>
      k ← removals st !! t;
      Some {| uploadQueue := filter (λ i, id i ≠ k) (uploadQueue st);
              activations := activations st;
              removals := Browser.remove_nth t (removals st) |}
  end.

Fixpoint run (st : state) (es : list event) : option state :=
  match es with
  | [] => Some st
  | e :: rest => st' ← step st e; run st' rest
  end.

(** The transfer reports progress only while it is pending: the
    progress events of an upload come before the event that settles
    its request. *)
Definition in_time (st : state) (e : event) : bool :=
  match e with
  | OnProgress n _ =>
      match activations st !! n with
      | Some a =>
          match at_phase a with transferring => true | _ => false end
      | None => false
      end
  | _ => true
  end.

Fixpoint timely (st : state) (es : list event) : bool :=
  match es with
  | [] => true
  | e :: rest =>
      in_time st e
      && match step st e with Some st' => timely st' rest | None => true end
  end.

(** The keys of the uploads started so far. *)
Definition ids (st : state) : list Key := uploadId <$> activations st.

(** What the queue holds for an activation, by where it stands. *)
Definition phase_ok (q : list uploadItem) (a : activation) : Prop :=
  match at_phase a with
  | requesting =>
      ∃ it, find (uploadId a) q = Some it ∧ status it = "uploading"
            ∧ progress it = finite 0
  | transferring =>
      ∃ it, find (uploadId a) q = Some it ∧ status it = "uploading"
  | returned =>
      ∀ it, find (uploadId a) q = Some it → status it = "uploading"
  | caught | refused =>
      ∃ it, find (uploadId a) q = Some it ∧ status it = "error"
            ∧ progress it = finite 0
  end.

Definition invariant (st : state) : Prop :=
  (∀ n a, activations st !! n = Some a → phase_ok (uploadQueue st) a) ∧
  (∀ it, it ∈ uploadQueue st → id it ∈ ids st) ∧
  (∀ k, k ∈ removals st →
        ∃ n, activations st !! n = Some (Activation k returned)).

(** An activation that has left [uploadFile]. *)
Definition terminal (a : activation) : Prop :=
  at_phase a = returned ∨ at_phase a = caught ∨ at_phase a = refused.

End queue.

End UploadQueue.

(** ** Concrete collaborators

    A page, tokens and payloads on which the properties below are
    exercised. *)

Module Scenario.
Import Js Browser.

(** Payloads are kept as text; the text ["{"] does not parse. *)
Definition parse (payload : string) : option string :=
  if String.eqb payload "{" then None else Some payload.

(** The callback named 1 throws on every message. *)
Definition throwing (c : callback) (data : string) : bool := Nat.eqb c 1.

Definition quiet (c : callback) (status : string) : bool := false.

Definition endpoint : string := "wss://example.invalid/dev/".

Definition encode (s : string) : string := s.

Definition page : Websocket.callbacks :=
  Websocket.Callbacks (Some 7%nat) (Some 8%nat) (Some 9%nat).

(** Three stored tokens and their payloads. *)
Definition decode (token : string) : option object :=
  if String.eqb token "fresh" then
    Some {[ "exp" := Num 2000000000; "sub" := Str "user-1" ]}
  else if String.eqb token "stale" then Some {[ "exp" := Num 1000 ]}
  else if String.eqb token "epoch" then Some {[ "exp" := Num 0 ]}
  else None.

Definition to_number (v : value) : option Z := None.

Definition stored (token : string) : gmap string string :=
  {[ "idToken" := token; "accessToken" := "access" ]}.

Definition clock : Z := 1700000000.

Definition stringify (o : object) : string :=
  match o !! "token" with
  | Some (Str t) => "{token:" ++ t ++ "}"
  | _ => "{}"
  end.

Definition unparsed (s : string) : option object := None.

Definition bird_jpg : UploadQueue.File :=
  UploadQueue.MkFile "bird.jpg" "image/jpeg" 2048.

(** An upload that is granted, reports half of its bytes and succeeds;
    and one whose transfer fails. *)
Definition upload_done : list (@UploadQueue.event nat) :=
  [UploadQueue.UploadFile bird_jpg 1%nat; UploadQueue.RequestUploadResolved 0;
   UploadQueue.OnProgress 0 (finite 50); UploadQueue.UploadToS3Resolved 0].

Definition upload_failed : list (@UploadQueue.event nat) :=
  [UploadQueue.UploadFile bird_jpg 1%nat; UploadQueue.RequestUploadResolved 0;
   UploadQueue.OnProgress 0 (finite 50); UploadQueue.UploadToS3Rejected 0].

Definition after (es : list (@UploadQueue.event nat)) : @UploadQueue.state nat :=
  default UploadQueue.start (UploadQueue.run UploadQueue.start es).

Definition owl_png : UploadQueue.File :=
  UploadQueue.MkFile "owl.png" "image/png" 4096.

(** Two files dropped in one turn whose keys coincide: the sums
    [Date.now() + Math.random()] of one millisecond take about four
    thousand values.  Both requests are granted and the transfer of
    the first file fails. *)
Definition same_key_uploads : list (@UploadQueue.event nat) :=
  [UploadQueue.UploadFile bird_jpg 1%nat; UploadQueue.UploadFile owl_png 1%nat;
   UploadQueue.RequestUploadResolved 0; UploadQueue.RequestUploadResolved 1;
   UploadQueue.UploadToS3Rejected 0].

(** The birdtag service of a page whose socket has opened; then after
    an abnormal close; and after a payload that does not parse. *)
Definition fresh_page : @Websocket.world string nat :=
  Websocket.start (Some "jwt").

Definition opened : @Websocket.world string nat :=
  default fresh_page
    (Websocket.run parse throwing endpoint encode fresh_page
       [Websocket.Connect (Some "f-001") page; Websocket.Open 0 11%nat]).

Definition closed : @Websocket.world string nat :=
  default opened
    (Websocket.step parse throwing endpoint encode opened (Websocket.Close 0 1006)).

Definition garbled : @Websocket.world string nat :=
  default opened
    (Websocket.step parse throwing endpoint encode opened (Websocket.Message 0 "{")).

End Scenario.

(** ** Observations on runs of the two socket services *)

Module WebsocketTrace.
Import Browser Websocket.

Section trace.

Context {Data Key : Type}.

Definition is_Open (e : @event Data Key) : bool :=
  match e with Open _ _ => true | _ => false end.

Definition is_Timeout (e : @event Data Key) : bool :=
  match e with Timeout _ => true | _ => false end.

(** The retry timers that fired in a list of events. *)
Definition fired (es : list (@event Data Key)) : nat :=
  length (filter (λ e, is_Timeout e = true) es).

(** The frames handed to [ws.send], in order. *)
Definition sent (os : list (@output Data)) : list (nat * Data) :=
  omap (λ o, match o with ws_send s d => Some (s, d) | _ => None end) os.

(** The calls of [onClose], in order. *)
Definition closes (os : list (@output Data)) : list (callback * Z) :=
  omap (λ o, match o with called_onClose cb c => Some (cb, c) | _ => None end) os.

(** The same service with other effects on record. *)
Definition with_out (l : list (@output Data)) (w : @world Data Key) : @world Data Key :=
  {| this := this w; sockets := sockets w; timers := timers w;
     jwt_token := jwt_token w; out := l |}.

(** The effects [l] put before those of [w]. *)
Definition relog (l : list (@output Data)) (w : @world Data Key) : @world Data Key :=
  with_out (l ++ out w) w.

End trace.

Arguments with_out {Data Key} l !w /.
Arguments relog {Data Key} l !w /.

End WebsocketTrace.

Module WebsocketServiceTrace.
Import Browser WebsocketService.

Section trace.

Context {Data : Type}.

Definition is_Open (e : @event Data) : bool :=
  match e with Open _ => true | _ => false end.

Definition is_Timeout (e : @event Data) : bool :=
  match e with Timeout _ => true | _ => false end.

(** The retry timers that fired in a list of events. *)
Definition fired (es : list (@event Data)) : nat :=
  length (filter (λ e, is_Timeout e = true) es).

(** The frames handed to [ws.send], in order. *)
Definition sent (os : list (@output Data)) : list (nat * Data) :=
  omap (λ o, match o with ws_send s d => Some (s, d) | _ => None end) os.

(** The status objects the connection handlers were called with. *)
Definition statuses (os : list (@output Data)) : list (callback * string * option Z) :=
  omap (λ o, match o with
             | called_status h status code => Some (h, status, code)
             | _ => None
             end) os.

Definition with_out (l : list (@output Data)) (w : @world Data) : @world Data :=
  {| this := this w; sockets := sockets w; timers := timers w;
     pending := pending w; idToken := idToken w; out := l |}.

Definition relog (l : list (@output Data)) (w : @world Data) : @world Data :=
  with_out (l ++ out w) w.

(** [this.ws], when set, is a socket the service built. *)
Definition ws_built (w : @world Data) : Prop :=
  ∀ s, ws (this w) = Some s → (s < length (sockets w))%nat.

End trace.

Arguments with_out {Data} l !w /.
Arguments relog {Data} l !w /.

End WebsocketServiceTrace.

(** ** The connection banner of DashboardView.vue *)

Module DashboardBanner.

(** [wsStatusText], on [wsStatus.value]. *)
Definition wsStatusText (wsStatus : string) : string :=
  if String.eqb wsStatus "connected" then "Connected - Real-time updates active"
  else if String.eqb wsStatus "connecting" then "Connecting..."
  else if String.eqb wsStatus "disconnected" then "Disconnected - Updates paused"
  else "Unknown".

(** [handleWebSocketConnection(status)]: the new [wsStatus.value], from
    the [status] property of the object the service passes. *)
Definition handleWebSocketConnection (status : string) : string := status.

End DashboardBanner.

(** ** Observations on the upload queue and on the byte transfer *)

Module UploadQueueTrace.
Import UploadQueue.

Section trace.

Context {Key : Type} `{EqDecision Key}.

(** The upload an event belongs to: the one it starts, the one whose
    activation it resumes, or the one whose removal timer is due. *)
Definition subject (st : @state Key) (e : @event Key) : option Key :=
  match e with
  | UploadFile _ k => Some k
  | RequestUploadResolved n | RequestUploadRejected n | OnProgress n _
  | UploadToS3Resolved n | UploadToS3Rejected n =>
      uploadId <$> activations st !! n
  | RemovalDue t => removals st !! t
  end.

End trace.

End UploadQueueTrace.

Module TransferTrace.
Import Js Transfer.

(** How an event of the request settles a promise that is pending. *)
Definition xhr_settles (e : xhr_event) : option outcome :=
  match e with
  | progress _ _ _ => None
  | load status =>
      Some (if Z.eqb status 200 then fulfilled else failed "Upload failed with status")
  | error => Some (failed "Upload failed")
  end.

Definition axios_settles (e : axios_event) : option outcome :=
  match e with
  | uploadProgress _ _ => None
  | response status =>
      Some (if Z.leb 200 status && Z.ltb status 300 then fulfilled
            else failed "Request failed with status code")
  | network_error => Some (failed "Network Error")
  end.

End TransferTrace.

(** ** The upload view of birdtag: [startUpload] and [resetUpload] *)

Module UploadPage.
Import Js.

Record File : Type := MkFile {
  name : string;
  type : string;
  size : N }.

(** What [requestUploadFile] resolves with: the body of the grant
    response, an object with these three string properties. *)
Record uploadInfo : Type := UploadInfo {
  file_id : string;
  presign_url : string;
  s3_key : string }.

(** The refs of the component.  [view] holds [fileData.value] and the
    [thumbnail] and [tagged] flags of [fileStatus.value], which
    [handleWebSocketMessage] writes; [uploaded] is the third flag. *)
Record page : Type := Page {
  currentFile : option File;
  uploading : bool;
  uploadProgress : number;
  fileId : option string;
  error : string;
  success : string;
  uploaded : bool;
  view : UploadView.view }.

(** [{ thumbnail_url: null, tags: {} }] and the two flags at [false]. *)
Definition blank : UploadView.view :=
  {| UploadView.fileData_thumbnail_url := Some Null;
     UploadView.fileData_tags := ∅;
     UploadView.thumbnail := false;
     UploadView.tagged := false |}.

(** The refs as [setup] creates them. *)
Definition initial : page :=
  {| currentFile := None; uploading := false; uploadProgress := finite 0;
     fileId := None; error := ""; success := ""; uploaded := false;
     view := blank |}.

(** Where one activation of [startUpload] stands: suspended on
    [requestUploadFile], suspended on [uploadToS3] with the grant it
    holds, returned, or left through [catch]. *)
Inductive phase : Type :=
  | requesting
  | transferring (info : uploadInfo)
  | returned
  | caught.

Record activation : Type := Activation {
  file : File;
  at_phase : phase }.

(** What the component asks of its collaborators. *)
Inductive output : Type :=
  | router_push (path : string)
  | requestUploadFile (filename contentType : string)
  | uploadToS3 (presignedUrl : string) (f : File)
  | websocket_connect (id : string)
  | websocket_disconnect.

(** The refs, the activations of [startUpload], what [getToken()]
    reads, and the requests made so far. *)
Record world : Type := World {
  refs : page;
  activations : list activation;
  jwt_token : option string;
  out : list output }.

Definition start (token : option string) : world :=
  {| refs := initial; activations := []; jwt_token := token; out := [] |}.

Definition with_refs (p : page) (w : world) : world :=
  {| refs := p; activations := activations w; jwt_token := jwt_token w;
     out := out w |}.

Definition emit (o : output) (w : world) : world :=
  {| refs := refs w; activations := activations w; jwt_token := jwt_token w;
     out := out w ++ [o] |}.

Definition set_phase (n : nat) (p : phase) (w : world) : world :=
  match activations w !! n with
  | Some a =>
      {| refs := refs w;
         activations := <[n := Activation (file a) p]> (activations w);
         jwt_token := jwt_token w; out := out w |}
  | None => w
  end.

(** [startUpload(file)] down to its first [await]. *)
Definition startUpload (f : File) (w : world) : world :=
  if negb (truthy_str (jwt_token w)) then
    let p := refs w in
    emit (router_push "/login")
      (with_refs {| currentFile := currentFile p; uploading := uploading p;
                    uploadProgress := uploadProgress p; fileId := fileId p;
                    error := "请先登录"; success := success p;
                    uploaded := uploaded p; view := view p |} w)
  else
    let w := with_refs {| currentFile := Some f; uploading := true;
                          uploadProgress := finite 0; fileId := None;
                          error := ""; success := ""; uploaded := false;
                          view := blank |} w in
    let w := emit (requestUploadFile (name f) (type f)) w in
    {| refs := refs w; activations := activations w ++ [Activation f requesting];
       jwt_token := jwt_token w; out := out w |}.

(** [requestUploadFile] resolved: [fileId.value = uploadInfo.file_id],
    then the call of [uploadToS3]. *)
Definition granted (n : nat) (f : File) (info : uploadInfo) (w : world) : world :=
  let p := refs w in
  let w := with_refs {| currentFile := currentFile p; uploading := uploading p;
                        uploadProgress := uploadProgress p;
                        fileId := Some (file_id info);
                        error := error p; success := success p;
                        uploaded := uploaded p; view := view p |} w in
  set_phase n (transferring info) (emit (uploadToS3 (presign_url info) f) w).

(** The progress callback: [uploadProgress.value = progress]. *)
Definition onProgress (v : number) (w : world) : world :=
  let p := refs w in
  with_refs {| currentFile := currentFile p; uploading := uploading p;
               uploadProgress := v; fileId := fileId p;
               error := error p; success := success p;
               uploaded := uploaded p; view := view p |} w.

(** [uploadToS3] resolved: the flag, the message, [connectWebSocket]. *)
Definition transferred (n : nat) (info : uploadInfo) (w : world) : world :=
  let p := refs w in
  let w := with_refs {| currentFile := currentFile p; uploading := uploading p;
                        uploadProgress := uploadProgress p; fileId := fileId p;
                        error := error p;
                        success := "文件上传成功，正在处理...";
                        uploaded := true; view := view p |} w in
  set_phase n returned (emit (websocket_connect (file_id info)) w).

(** The [catch] block; [msg] is [err.message]. *)
Definition on_catch (n : nat) (msg : string) (w : world) : world :=
  let p := refs w in
  let w := with_refs {| currentFile := currentFile p; uploading := false;
                        uploadProgress := uploadProgress p; fileId := fileId p;
                        error := if String.eqb msg "" then "上传失败" else msg;
                        success := success p;
                        uploaded := uploaded p; view := view p |} w in
  set_phase n caught w.

(** [resetUpload()]. *)
Definition resetUpload (w : world) : world :=
  emit websocket_disconnect (with_refs initial w).

(** [handleFileSelect(event)] and [handleDrop(event)]; the argument is
    [files[0]]. *)
Definition handleFileSelect (f : option File) (w : world) : world :=
  match f with Some f => startUpload f w | None => w end.

Definition handleDrop (f : option File) (w : world) : world :=
  match f with
  | Some f => if negb (uploading (refs w)) then startUpload f w else w
  | None => w
  end.

Section handler.

Variable parseInt : value → number.

(** The listener [connectWebSocket] registers. *)
Definition onMessage (m : UploadView.message) (w : world) : world :=
  let p := refs w in
  with_refs {| currentFile := currentFile p; uploading := uploading p;
               uploadProgress := uploadProgress p; fileId := fileId p;
               error := error p; success := success p;
               uploaded := uploaded p;
               view := UploadView.handleWebSocketMessage parseInt (view p) m |} w.

Inductive event : Type :=
  | HandleFileSelect (f : option File)
  | HandleDrop (f : option File)
  | ResetUpload
  | RequestResolved (n : nat) (info : uploadInfo)
  | RequestRejected (n : nat) (msg : string)
  | Progress (n : nat) (v : number)
  | TransferResolved (n : nat)
  | TransferRejected (n : nat) (msg : string)
  | Message (m : UploadView.message).

(** One turn of the event loop; an activation only takes the events of
    the promise it is suspended on. *)
Definition step (w : world) (e : event) : option world :=
  match e with
  | HandleFileSelect f => Some (handleFileSelect f w)
  | HandleDrop f => Some (handleDrop f w)
  | ResetUpload => Some (resetUpload w)
  | RequestResolved n info =>
      a ← activations w !! n;
      match at_phase a with
      | requesting => Some (granted n (file a) info w)
      | _ => None
      end
  | RequestRejected n msg =>
      a ← activations w !! n;
      match at_phase a with
      | requesting => Some (on_catch n msg w)
      | _ => None
      end
  | Progress n v =>
      a ← activations w !! n;
      match at_phase a with
      | transferring _ => Some (onProgress v w)
      | _ => None
      end
  | TransferResolved n =>
      a ← activations w !! n;
      match at_phase a with
      | transferring info => Some (transferred n info w)
      | _ => None
      end
  | TransferRejected n msg =>
      a ← activations w !! n;
      match at_phase a with
      | transferring _ => Some (on_catch n msg w)
      | _ => None
      end
  | Message m => Some (onMessage m w)
  end.

Fixpoint run (w : world) (es : list event) : option world :=
  match es with
  | [] => Some w
  | e :: rest => w' ← step w e; run w' rest
  end.

(** The file ids [websocketService.connect] was called with. *)
Definition connects (os : list output) : list string :=
  omap (λ o, match o with websocket_connect id => Some id | _ => None end) os.

(** The file ids granted in a list of events. *)
Definition grants (es : list event) : list string :=
  omap (λ e, match e with
             | RequestResolved _ info => Some (file_id info)
             | _ => None
             end) es.

Definition is_TransferResolved (e : event) : bool :=
  match e with TransferResolved _ => true | _ => false end.

(** The grants held by the transfers in flight. *)
Definition held (w : world) : list string :=
  omap (λ a, match at_phase a with
             | transferring info => Some (file_id info)
             | _ => None
             end) (activations w).

End handler.

Arguments with_refs p !w /.
Arguments emit o !w /.
Arguments set_phase n p !w /.

End UploadPage.

(** ** birdtag/src/utils/auth.js: the stored tokens *)

Module Auth.
Import Js.

(** [localStorage]. *)
Abbreviation storage := (gmap string string).

(** What [JSON.parse] gives, as the callers read it: [null], on which a
    property read throws; an object; or another value (a number, a
    string, a boolean, an array), on which the properties read here are
    [undefined]. *)
Inductive json : Type :=
  | json_null
  | json_object (o : object)
  | json_other.

Section tokens.

(** [parseJWT]: the decoded payload of a token, [json_null] where the
    decoding throws; and the integer a value that is not a number
    converts to in [exp * 1000] ([None]: [NaN]). *)
Variable parseJWT : string → json.
Variable ToNumber : value → option Z.

(** [Date.now() >= payload.exp * 1000]. *)
Definition exp_reached (now : Z) (exp : option value) : bool :=
  match exp with
  | None => false
  | Some (Num n) => Z.leb (n * 1000) now
  | Some other =>
      match ToNumber other with Some n => Z.leb (n * 1000) now | None => false end
  end.

(** [isTokenExpired(token)], at the clock [now = Date.now()]. *)
Definition isTokenExpired (token : string) (now : Z) : bool :=
  match parseJWT token with
  | json_object payload =>
      if negb (truthy (payload !! "exp")) then true
      else exp_reached now (payload !! "exp")
  | _ => true
  end.

(** [saveToken(idToken, accessToken = null, refreshToken = null)]. *)
Definition saveToken (idToken : string) (accessToken refreshToken : option string)
    (ls : storage) : storage :=
  let ls := <["jwt_token" := idToken]> ls in
  let ls := if truthy_str accessToken
            then <["access_token" := default "" accessToken]> ls else ls in
  if truthy_str refreshToken
  then <["refresh_token" := default "" refreshToken]> ls else ls.

Definition getToken (ls : storage) : option string := ls !! "jwt_token".
Definition getAccessToken (ls : storage) : option string := ls !! "access_token".
Definition getRefreshToken (ls : storage) : option string := ls !! "refresh_token".

(** [clearToken()]. *)
Definition clearToken (ls : storage) : storage :=
  delete "refresh_token" (delete "access_token" (delete "jwt_token" ls)).

(** [isAuthenticated()]. *)
Definition isAuthenticated (ls : storage) (now : Z) : bool :=
  if negb (truthy_str (getToken ls)) then false
  else negb (isTokenExpired (default "" (getToken ls)) now).

(** *** birdtag/src/services/auth.js *)

(** Whether [getCurrentUser()] resolves; [server] tells whether the
    [GetUserCommand] does.  Without an access token the payload of the
    id token is read, which throws on [null]. *)
Definition getCurrentUser_resolves (server : bool) (ls : storage) : bool :=
  if truthy_str (getAccessToken ls) then server
  else if truthy_str (getToken ls) then
    match parseJWT (default "" (getToken ls)) with
    | json_null => false
    | _ => true
    end
  else false.

(** [checkAuthStatus()]: its answer and the storage it leaves. *)
Definition checkAuthStatus (server : bool) (ls : storage) : bool * storage :=
  if negb (truthy_str (getToken ls)) then (false, ls)
  else if getCurrentUser_resolves server ls then (true, ls)
  else (false, clearToken ls).

(** [logout()]: whether the [GlobalSignOutCommand] is sent, and the
    storage it leaves, whatever the command answers. *)
Definition logout (ls : storage) : bool * storage :=
  (truthy_str (getAccessToken ls), clearToken ls).

(** *** birdtag/src/router/index.js *)

(** A route location as the guard receives it: the path that was asked
    for, and [meta.requiresAuth] of the record the router matched it
    to, falsy when it matched none.  The guard compares the text of
    the path, the router matches records by its own rules, so a
    location whose path is spelled otherwise than '/login' may still
    be that of the Login record. *)
Record location : Type := Location {
  path : string;
  requiresAuth : bool }.

(** What the guard hands to [next]: nothing, or a path. *)
Inductive next : Type :=
  | proceed
  | redirect (p : string).

(** [router.beforeEach]: what it hands to [next] and the storage it
    leaves.  [now] is [Date.now()] when the guard starts and [later]
    when it resumes after [await checkAuthStatus()].
    [checkAuthStatus] catches what it awaits, so the [catch] around
    its call is not reached. *)
Definition beforeEach (to : location) (server : bool) (ls : storage)
    (now later : Z) : next * storage :=
  if String.eqb (path to) "/auth/callback" then (proceed, ls)
  else
    let checked : option next * storage :=
      if requiresAuth to then
        if negb (isAuthenticated ls now) then (Some (redirect "/login"), ls)
        else
          let r := checkAuthStatus server ls in
          if negb r.1 then (Some (redirect "/login"), r.2) else (None, r.2)
      else (None, ls) in
    match checked with
    | (Some n, ls') => (n, ls')
    | (None, ls') =>
        if String.eqb (path to) "/login"
           && isAuthenticated ls' (if requiresAuth to then later else now)
        then (redirect "/upload", ls')
        else (proceed, ls')
    end.

(** The location of a redirect: the two paths the guard hands to
    [next] are the paths of the Login and Upload records as the table
    spells them. *)
Definition resolve (p : string) : option location :=
  if String.eqb p "/login" then Some (Location "/login" false)
  else if String.eqb p "/upload" then Some (Location "/upload" true)
  else None.

(** A navigation: the guard runs again on every redirect.  The [k]-th
    run of the guard starts at [clock (2 * k)] and resumes at
    [clock (2 * k + 1)], and [server k] is the answer of the server
    then.  The result is the location that is entered, with the
    storage then, or [None] when the redirects have not ended after
    [fuel] runs. *)
Fixpoint navigate (fuel k : nat) (to : location) (server : nat → bool)
    (ls : storage) (clock : nat → Z) : option (location * storage) :=
  match fuel with
  | O => None
  | S fuel =>
      match beforeEach to (server k) ls (clock (2 * k)%nat) (clock (2 * k + 1)%nat) with
      | (proceed, ls') => Some (to, ls')
      | (redirect p, ls') =>
          to' ← resolve p; navigate fuel (S k) to' server ls' clock
      end
  end.

End tokens.

End Auth.

(** ** birdtag/src/utils/api.js: what follows the [fetch] *)

Module ApiResponse.
Import Js Auth.

(** What [fetch] settles with: a rejection (the network failed, or
    the call was refused), or a response with its status and what
    [response.json()] resolves with ([None]: it rejects, the body is
    no JSON text). *)
Inductive fetched : Type :=
  | network_failure
  | responded (status : Z) (body : option json).

(** [response.ok]. *)
Definition ok (status : Z) : bool := Z.leb 200 status && Z.ltb status 300.

(** The storage and [window.location.pathname]. *)
Record browser : Type := Browser {
  localStorage : storage;
  pathname : string }.

(** [request(endpoint, options)] from the [await fetch] on: what it
    does to the page.  The response is returned whatever its status;
    the rejection of [fetch] is logged and thrown again. *)
Definition after_fetch (r : fetched) (b : browser) : browser :=
  match r with
  | responded status _ =>
      if Z.eqb status 401 then
        {| localStorage := clearToken (localStorage b);
           pathname := if negb (String.eqb (pathname b) "/login")
                       then "/login" else pathname b |}
      else b
  | network_failure => b
  end.

(** What an exported call rejects with: the rejection of [fetch], an
    [Error] made from a value (its message is the text of the value), a
    [TypeError] of a property read on [null], or the rejection of
    [response.json()]. *)
Inductive thrown : Type :=
  | fetch_rejection
  | Error (message : value)
  | TypeError
  | json_rejection.

Inductive settled : Type :=
  | resolves (data : json)
  | rejects (e : thrown).

(** [throw new Error(error.error || fallback)] after
    [const error = await response.json().catch(() => ({ error: caught }))]. *)
Definition failure (caught fallback : string) (body : option json) : thrown :=
  match body with
  | None => Error (Str caught)
  | Some json_null => TypeError
  | Some (json_object o) =>
      if truthy (o !! "error") then Error (default Null (o !! "error"))
      else Error (Str fallback)
  | Some json_other => Error (Str fallback)
  end.

(** The part of an exported call that follows [await request(...)]. *)
Definition answer (caught fallback : string) (r : fetched) : settled :=
  match r with
  | network_failure => rejects fetch_rejection
  | responded status body =>
      if negb (ok status) then rejects (failure caught fallback body)
      else match body with
           | Some data => resolves data
           | None => rejects json_rejection
           end
  end.

(** [requestUploadFile] and [getFileMetadata], from the [fetch] on. *)
Definition requestUploadFile (r : fetched) : settled :=
  answer "Upload request failed" "Failed to request upload" r.

Definition getFileMetadata (r : fetched) : settled :=
  answer "Failed to fetch metadata" "Failed to fetch metadata" r.

End ApiResponse.

(** ** bird-tag: who counts as signed in *)

Module AuthGate.
Import Js AuthService.

(** The body of the token response, as [handleOAuthCallback] reads it:
    three properties, each a string or absent. *)
Record tokens : Type := Tokens {
  id_token : option string;
  access_token : option string;
  refresh_token : option string }.

(** [localStorage.setItem(k, v)]: the value is stored as text, and the
    text of [undefined] is 'undefined'. *)
Definition setItem (k : string) (v : option string) (ls : storage) : storage :=
  <[k := default "undefined" v]> ls.

(** [handleOAuthCallback(code)] from [const tokens = await
    response.json()] on: the storage it leaves. *)
Definition storeTokens (t : tokens) (ls : storage) : storage :=
  let ls := setItem "idToken" (id_token t) ls in
  let ls := setItem "accessToken" (access_token t) ls in
  if truthy_str (refresh_token t) then setItem "refreshToken" (refresh_token t) ls
  else ls.

(** [getStoredToken()]. *)
Definition getStoredToken (ls : storage) : option string := ls !! "idToken".

Section sign_out.

(** The keys under which the Cognito SDK caches the session of its
    current user.  It keeps them in the same [localStorage], and
    [cognitoUser.signOut()] removes them, after which
    [getCurrentUser()] gives [null]. *)
Variable cached : string → bool.

(** [signOut()]: what the SDK answers from then on, and the storage it
    leaves.  Without a current user nothing is removed. *)
Definition signOut (c : cognito) (ls : storage) : cognito * storage :=
  match c with
  | no_current_user => (no_current_user, ls)
  | _ => (no_current_user, filter (λ kv, cached kv.1 = false) ls)
  end.

(** [globalSignOut()]: what the SDK answers from then on, and the
    storage it leaves; the page then leaves for the hosted logout
    URL. *)
Definition globalSignOut (c : cognito) (ls : storage) : cognito * storage :=
  signOut c (delete "refreshToken" (delete "accessToken" (delete "idToken" ls))).

(** The response interceptor of apiService.js; [status] is
    [error.response?.status]. *)
Definition response_interceptor (status : option Z) (c : cognito) (ls : storage)
  : cognito * storage :=
  match status with
  | Some s => if Z.eqb s 401 then globalSignOut c ls else (c, ls)
  | None => (c, ls)
  end.

End sign_out.

Section session_check.

Variable decodeJWT : string → option object.
Variable ToNumber : value → option Z.

(** [isAuthenticated()]. *)
Definition isAuthenticated (c : cognito) (ls : storage) (now : Z) : bool :=
  match getUserSession decodeJWT ToNumber c ls now with
  | resolved _ => true
  | rejected _ => truthy_str (getStoredToken ls)
  end.

(** The request interceptor of apiService.js: [config.headers] as it
    returns them. *)
Definition request_interceptor (c : cognito) (ls : storage) (now : Z)
    (headers : gmap string string) : gmap string string :=
  match getUserSession decodeJWT ToNumber c ls now with
  | resolved s => <["Authorization" := "Bearer " ++ idToken s]> headers
  | rejected _ =>
      if truthy_str (getStoredToken ls)
      then <["Authorization" := "Bearer " ++ default "" (getStoredToken ls)]> headers
      else headers
  end.

(** *** bird-tag/src/router/index.js *)

(** The routes a navigation can end on: ['/'] and every unmatched path
    redirect to the dashboard in the table. *)
Inductive route : Type :=
  | Login
  | AuthCallback
  | Dashboard.

Definition requiresAuth (to : route) : bool :=
  match to with Dashboard => true | _ => false end.

Definition requiresGuest (to : route) : bool :=
  match to with Login => true | _ => false end.

Inductive next : Type :=
  | proceed
  | redirect (to : route).

(** [router.beforeEach]; [isAuthenticated()] catches what it awaits, so
    the [catch] of the guard is not reached. *)
Definition beforeEach (to : route) (c : cognito) (ls : storage) (now : Z) : next :=
  let isAuthenticated := isAuthenticated c ls now in
  if requiresAuth to && negb isAuthenticated then redirect Login
  else if requiresGuest to && isAuthenticated then redirect Dashboard
  else proceed.

(** *** DashboardView.vue: [onMounted] up to the session *)

(** How [onMounted] goes on after [await authService.getUserSession()]:
    with the e-mail to show, to the login route, or nowhere. *)
Inductive mounted : Type :=
  | signed_in (userEmail : value)
  | to_login
  | stays (e : error).

(** [error.message?.includes('No user found') ||
    error.message?.includes('Session')], on the three messages
    [getUserSession] rejects with. *)
Definition asks_for_login (e : error) : bool :=
  match e with
  | No_user_found => true
  | Invalid_token | Token_expired => false
  end.

Definition onMounted (c : cognito) (ls : storage) (now : Z) : mounted :=
  match getUserSession decodeJWT ToNumber c ls now with
  | resolved s =>
      signed_in (if truthy (user s !! "email")
                 then default Null (user s !! "email") else Str "User")
  | rejected e => if asks_for_login e then to_login else stays e
  end.

End session_check.

End AuthGate.

(** ** Observations on the collection of the dashboard *)

Module DashboardTrace.
Import Js.

(** What [f.file_id] reads on every file of the collection, in order. *)
Definition file_ids (files : list object) : list (option value) :=
  (λ f, f !! "file_id") <$> files.

End DashboardTrace.

(** ** More concrete collaborators *)

Module Fixtures.
Import Js Browser Scenario.

(** The bird-tag service of a dashboard: a handler subscribed to
    messages and one to the connection, the socket built and open. *)
Definition dashboard_events : list (@WebsocketService.event string) :=
  [WebsocketService.Connect ""; WebsocketService.Resume 0 (Some "jwt");
   WebsocketService.OnMessage 7%nat; WebsocketService.OnConnectionChange 8%nat;
   WebsocketService.Open 0].

Definition service_run :=
  WebsocketService.run parse throwing quiet endpoint encode.

Definition dashboard : @WebsocketService.world string :=
  default (WebsocketService.start None)
    (service_run (WebsocketService.start None) dashboard_events).

(** The same after an abnormal close. *)
Definition dashboard_closed : @WebsocketService.world string :=
  default dashboard (service_run dashboard [WebsocketService.Close 0 1006]).

(** Payloads of three tokens, as [parseJWT] of birdtag gives them; the
    clock is in milliseconds. *)
Definition payload_of (token : string) : Auth.json :=
  if String.eqb token "fresh" then
    Auth.json_object {[ "exp" := Num 2000000000; "sub" := Str "user-1" ]}
  else if String.eqb token "stale" then Auth.json_object {[ "exp" := Num 1000 ]}
  else Auth.json_null.

Definition clock_ms : Z := 1700000000000.

Definition signed_in : gmap string string :=
  Auth.saveToken "fresh" (Some "access") None ∅.

(** A JSON text and its reading, for the grant request of [bird.jpg]. *)
Definition grant_request : object :=
  {[ "filename" := Str "bird.jpg"; "content_type" := Str "image/jpeg" ]}.

Definition written (o : object) : string := "{...}".

Definition read (s : string) : option object := Some grant_request.

(** The birdtag upload view with one transfer in flight. *)
Definition bird : UploadPage.File := UploadPage.MkFile "bird.jpg" "image/jpeg" 2048.

Definition grant : UploadPage.uploadInfo :=
  UploadPage.UploadInfo "f-001" "https://store/f-001" "uploads/f-001".

Definition to_int (v : value) : number := NaN.

Definition uploading_page : UploadPage.world :=
  default (UploadPage.start (Some "jwt"))
    (UploadPage.run to_int (UploadPage.start (Some "jwt"))
       [UploadPage.HandleFileSelect (Some bird); UploadPage.RequestResolved 0 grant]).

(** The keys of the Cognito SDK start with the name of its provider. *)
Definition sdk_key (k : string) : bool :=
  String.prefix "CognitoIdentityServiceProvider." k.

(** Two files of a dashboard and an update for the second. *)
Definition two_files : list object :=
  [ {[ "file_id" := Str "f-000"; "file_type" := Str "image" ]};
    {[ "file_id" := Str "f-001"; "file_type" := Str "image" ]} ].

Definition tagged : object :=
  {[ "type" := Str "FILE_UPDATE"; "file_id" := Str "f-001"; "tags" := Ref 1 ]}.

End Fixtures.

(** * Properties *)

Local Open Scope list_scope.
Local Open Scope Z_scope.

(** ** StateMerger *)

Section Dashboard_facts.
Import Js Dashboard.

Lemma spread_twice (a b : object) : spread (spread a b) b = spread a b.
Proof. unfold spread. by rewrite (assoc_L (∪)), (idemp_L (∪)). Qed.

Lemma findIndex_Some p (files : list object) i :
  findIndex p files = Some i →
  ∃ f, files !! i = Some f ∧ p f = true ∧
       ∀ j g, (j < i)%nat → files !! j = Some g → p g = false.
Proof.
  revert i. induction files as [|f rest IH]; intros i; simpl; [done|].
  destruct (p f) eqn:Hp.
  - intros [= <-]. exists f. split_and!; [done..|]. intros j g Hj. lia.
  - destruct (findIndex p rest) as [k|] eqn:Hk; simpl; [|done].
    intros [= <-]. destruct (IH k eq_refl) as (g & Hg & Hpg & Hlt).
    exists g. split_and!; [done..|].
    intros [|j] h Hj; simpl; [by intros [= <-]|].
    intros Hh. apply (Hlt j h); [lia|done].
Qed.

Lemma findIndex_intro p (files : list object) i f :
  files !! i = Some f → p f = true →
  (∀ j g, (j < i)%nat → files !! j = Some g → p g = false) →
  findIndex p files = Some i.
Proof.
  revert i. induction files as [|h rest IH]; intros i; [done|].
  destruct i as [|i]; simpl.
  - intros [= ->] -> _. done.
  - intros Hf Hp Hlt. rewrite (Hlt 0%nat h); [|lia|done].
    rewrite (IH i); [done..|]. intros j g Hj Hg. apply (Hlt (S j) g); [lia|done].
Qed.

Lemma same_file_id_spread data f :
  same_file_id data f = true → same_file_id data (spread f data) = true.
Proof.
  unfold same_file_id, strict_eq, spread. rewrite !bool_decide_eq_true.
  intros Hf. rewrite lookup_union. destruct (data !! "file_id") as [v|] eqn:Hd.
  - by rewrite union_Some_l.
  - by rewrite Hf.
Qed.

(** C1. Applying one FILE_UPDATE event twice gives the collection that
    applying it once gives, for every collection and every event: an
    unseen [file_id] is inserted at the front and then found there, a
    seen one is merged in place and merging is idempotent. *)
Theorem handleWebSocketMessage_idempotent (files : list object) (data : object) :
  handleWebSocketMessage (handleWebSocketMessage files data) data
  = handleWebSocketMessage files data.
Proof.
  unfold handleWebSocketMessage.
  destruct (strict_eq (data !! "type") _) eqn:Ht; rewrite ?Ht; [|done].
  destruct (findIndex (same_file_id data) files) as [i|] eqn:Hi.
  - destruct (findIndex_Some _ _ _ Hi) as (f & Hf & Hp & Hlt).
    rewrite Hf.
    assert (Hlen : (i < length files)%nat) by (by eapply lookup_lt_Some).
    rewrite (findIndex_intro _ _ i (spread f data)).
    + rewrite list_lookup_insert_eq by done.
      by rewrite list_insert_insert_eq, spread_twice.
    + by rewrite list_lookup_insert_eq.
    + by apply same_file_id_spread.
    + intros j g Hj. rewrite list_lookup_insert_ne by lia. by apply Hlt.
  - simpl.
    assert (same_file_id data data = true) as ->
      by (unfold same_file_id, strict_eq; by rewrite bool_decide_eq_true).
    simpl. unfold spread. by rewrite (idemp_L (∪)).
Qed.

(** The scenario of the specification: on an empty collection the
    event for [f-001] inserts the entity, and delivering it again
    leaves the collection as it is. *)
Example file_update_redelivered :
  let data : object :=
    {[ "type" := Str "FILE_UPDATE"; "file_id" := Str "f-001"; "tags" := Ref 1 ]} in
  handleWebSocketMessage [] data = [data] ∧
  handleWebSocketMessage (handleWebSocketMessage [] data) data = [data].
Proof. intros data. split; vm_compute; reflexivity. Qed.

(** The handler of the upload view writes what it reads from the
    message over the view, so a second delivery changes nothing. *)
Lemma upload_view_handler_idempotent parseInt (v : UploadView.view)
    (m : UploadView.message) :
  UploadView.handleWebSocketMessage parseInt
    (UploadView.handleWebSocketMessage parseInt v m) m
  = UploadView.handleWebSocketMessage parseInt v m.
Proof.
  unfold UploadView.handleWebSocketMessage.
  destruct (strict_eq (UploadView.type m) _); [|done].
  destruct (truthy (UploadView.thumbnail_url m)),
    (UploadView.tags m) as [[|e es]|]; try done;
    destruct (UploadView.convert parseInt (e :: es) ∅); done.
Qed.

End Dashboard_facts.

(** ** The socket service of birdtag *)

Section Websocket_facts.
Import Browser Websocket.

Context {Data Key : Type} `{EqDecision Key}.
Variable JSON_parse : string → option Data.
Variable throws : callback → Data → bool.
Variable WEBSOCKET_API_URL : string.
Variable encodeURIComponent : string → string.

Abbreviation step := (Websocket.step JSON_parse throws WEBSOCKET_API_URL encodeURIComponent).
Abbreviation run := (Websocket.run JSON_parse throws WEBSOCKET_API_URL encodeURIComponent).
Abbreviation connect := (Websocket.connect WEBSOCKET_API_URL encodeURIComponent).
Abbreviation world := (@Websocket.world Data Key).

Implicit Types (w : world) (ls : list (Key * callback)).

Lemma calls_app (a b : list (@output Data)) : calls (a ++ b) = calls a ++ calls b.
Proof. unfold calls. apply omap_app. Qed.

(** The loop of [notifyListeners] touches nothing but the effects, and
    calls every listener once, in order, whether or not one throws. *)
Lemma notify_frame data ls w :
  this (notify throws data ls w) = this w ∧
  sockets (notify throws data ls w) = sockets w ∧
  timers (notify throws data ls w) = timers w ∧
  jwt_token (notify throws data ls w) = jwt_token w.
Proof.
  revert w. induction ls as [|[k l] rest IH]; intros w; [done|].
  cbn [notify]. destruct (throws l data);
    destruct (IH (emit (console_error "Error in WebSocket listener:")
                    (emit (called l data) w))) as (Ha & Hb & Hc & Hd);
    destruct (IH (emit (called l data) w)) as (Ha' & Hb' & Hc' & Hd');
    destruct w; split_and!; assumption.
Qed.

Lemma notify_calls data ls w :
  calls (out (notify throws data ls w))
  = calls (out w) ++ ((λ kl, (kl.2, data)) <$> ls).
Proof.
  revert w. induction ls as [|[k l] rest IH]; intros w.
  - simpl. by rewrite app_nil_r.
  - cbn [notify fmap list_fmap]. destruct (throws l data); rewrite IH;
      destruct w; simpl; rewrite !calls_app; simpl;
      by rewrite <-?app_assoc, ?app_nil_r.
Qed.

(** While the socket is open, [connect] only logs. *)
Lemma connect_when_open f cbs w :
  isConnected w = true →
  connect f cbs w = emit (console_log "WebSocket already connected") w.
Proof. destruct w. unfold Websocket.connect. by intros ->. Qed.

Lemma run_app w es1 es2 :
  run w (es1 ++ es2) = w' ← run w es1; run w' es2.
Proof.
  revert w. induction es1 as [|e es1 IH]; intros w; simpl; [done|].
  destruct (step w e); simpl; [apply IH|done].
Qed.

Lemma map_set_fresh (id : Key) (cb : callback) (ids : list Key) :
  id ∉ ids →
  map_set id cb ((λ i, (i, cb)) <$> ids) = (λ i, (i, cb)) <$> (ids ++ [id]).
Proof.
  induction ids as [|k ids IH]; simpl; [done|].
  intros Hn. apply not_elem_of_cons in Hn as [Hne Hn].
  rewrite decide_False by done. f_equal. by apply IH.
Qed.

Lemma lookup_last {A} (pre : list A) (k : A) : (pre ++ [k]) !! length pre = Some k.
Proof. by apply list_lookup_middle. Qed.

Lemma insert_last {A} (pre : list A) (k k' : A) :
  <[length pre := k']> (pre ++ [k]) = pre ++ [k'].
Proof. rewrite insert_app_r_alt by lia. by rewrite Nat.sub_diag. Qed.

Lemma set_state_last pre k st (t : @service Key) tms tok (o : list (@output Data)) :
  set_state (length pre) st (World t (pre ++ [k]) tms tok o)
  = World t (pre ++ [Socket (url k) st (closure k)]) tms tok o.
Proof. simpl. by rewrite lookup_last, insert_last. Qed.

Lemma onclose_abnormal cbs code cur att ls fid socks tms tok (o : list (@output Data)) :
  code ≠ 1000 → att < maxReconnectAttempts →
  onclose cbs code (World (Service cur att ls fid) socks tms tok o)
  = World (Service None (att + 1) ls fid) socks
      (tms ++ [Timer (reconnectDelay * (att + 1)) cbs]) tok
      (o ++ [console_log "WebSocket closed"]).
Proof.
  intros Hc Ha. simpl.
  destruct (Z.eqb_spec code 1000) as [|_]; [done|].
  destruct (Z.ltb_spec att maxReconnectAttempts) as [_|]; [|lia].
  reflexivity.
Qed.

Local Arguments Websocket.set_state : simpl never.
Local Arguments Websocket.onclose : simpl never.

Lemma step_Close_last pre k (t : @service Key) tms tok (o : list (@output Data)) code :
  state k ≠ CLOSED →
  step (World t (pre ++ [k]) tms tok o) (Close (length pre) code)
  = Some (onclose (closure k) code
            (World t (pre ++ [Socket (url k) CLOSED (closure k)]) tms tok o)).
Proof.
  intros Hk. unfold Websocket.step. simpl. rewrite lookup_last. simpl.
  rewrite bool_decide_eq_false_2 by done. by rewrite set_state_last.
Qed.

Lemma step_Open_last pre k (t : @service Key) tms tok (o : list (@output Data)) id :
  state k = CONNECTING →
  step (World t (pre ++ [k]) tms tok o) (Open (length pre) id)
  = Some (onopen (closure k) id
            (World t (pre ++ [Socket (url k) OPEN (closure k)]) tms tok o)).
Proof.
  intros Hk. unfold Websocket.step. simpl. rewrite lookup_last. simpl.
  rewrite bool_decide_eq_true_2 by done. by rewrite set_state_last.
Qed.

Lemma run_cons w e es : run w (e :: es) = step w e ≫= λ w', run w' es.
Proof. done. Qed.

Lemma run_nil w : run w [] = Some w.
Proof. done. Qed.

Local Arguments Websocket.run : simpl never.
Local Arguments Websocket.step : simpl never.

Ltac turn := rewrite run_cons; unfold Websocket.step at 1; simpl.

Lemma reconnect_cycle token cbs cb f s ids w code id :
  Js.truthy_str token = true → onMessage cbs = Some cb →
  stable token cbs cb f s ids w → code ≠ 1000 → id ∉ ids →
  ∃ w', run w [Close s code; Timeout 0; Open (S s) id] = Some w' ∧
        stable token cbs cb f (S s) (ids ++ [id]) w'.
Proof.
  intros Htok Hcb (pre & u & Hs & Hlen & Hws & Htm & Hatt & Hls & Hf & Ht & Hc) Hcode Hid.
  destruct w as [[ws0 att ls fid] socks tms tok o].
  simpl in Hs, Hws, Htm, Hatt, Hls, Hf, Ht, Hc; subst.
  rewrite run_cons, step_Close_last by done. simpl.
  rewrite onclose_abnormal by (done || (unfold maxReconnectAttempts; lia)).
  simpl. turn. rewrite Htok. simpl.
  set (pre' := pre ++ [Socket u CLOSED cbs]).
  replace (S (length pre)) with (length pre')
    by (unfold pre'; rewrite length_app; simpl; lia).
  rewrite run_cons, step_Open_last by done. simpl. rewrite Hcb. simpl.
  rewrite map_set_fresh by done. rewrite run_nil.
  eexists. split; [reflexivity|].
  exists pre'. eexists. simpl. split_and!; try reflexivity.
  rewrite !calls_app, Hc. reflexivity.
Qed.

Lemma reconnects_run token cbs cb f cycles : ∀ s ids w,
  Js.truthy_str token = true → onMessage cbs = Some cb →
  stable token cbs cb f s ids w →
  Forall (λ c, c.1 ≠ 1000) cycles → NoDup (ids ++ cycles.*2) →
  ∃ w', run w (reconnects s cycles) = Some w' ∧
        stable token cbs cb f (s + length cycles) (ids ++ cycles.*2) w'.
Proof.
  induction cycles as [|[code id] rest IH]; intros s ids w Htok Hcb Hst Hcodes Hnd.
  - exists w. simpl. rewrite run_nil, Nat.add_0_r, app_nil_r. done.
  - apply Forall_cons in Hcodes as [Hcode Hrest]. simpl in Hcode, Hnd.
    assert (Hid : id ∉ ids).
    { apply NoDup_app in Hnd as (_ & Hdisj & _). intros Hin.
      apply (Hdisj id Hin). left. }
    destruct (reconnect_cycle token cbs cb f s ids w code id) as (w1 & Hrun1 & Hst1);
      [done..|].
    destruct (IH (S s) (ids ++ [id]) w1) as (w2 & Hrun2 & Hst2); [done..| |].
    { by rewrite <-app_assoc. }
    exists w2. split.
    + change (run w ([Close s code; Timeout 0; Open (S s) id]
                      ++ reconnects (S s) rest) = Some w2).
      rewrite run_app, Hrun1. exact Hrun2.
    + simpl. rewrite <-app_assoc in Hst2. simpl in Hst2.
      by replace (s + S (length rest))%nat with (S s + length rest)%nat by lia.
Qed.

Lemma session_first_open token f cbs cb id0 :
  Js.truthy_str token = true → onMessage cbs = Some cb →
  ∃ w, run (start token) [Connect f cbs; Open 0 id0] = Some w ∧
       stable token cbs cb f 0 [id0] w.
Proof.
  intros Htok Hcb. unfold start. turn. rewrite Htok. simpl.
  turn. unfold set_state. simpl. rewrite Hcb. simpl. rewrite run_nil.
  eexists. split; [reflexivity|].
  exists []. eexists. simpl. split_and!; reflexivity.
Qed.

Lemma stable_message token cbs cb f s ids w payload data :
  stable token cbs cb f s ids w → JSON_parse payload = Some data →
  ∃ w', step w (Message s payload) = Some w' ∧
        calls (out w') = replicate (length ids) (cb, data).
Proof.
  intros (pre & u & Hs & Hlen & Hws & Htm & Hatt & Hls & Hf & Ht & Hc) Hp.
  unfold Websocket.step. rewrite Hs, <-Hlen, lookup_last. simpl.
  unfold onmessage. rewrite Hp. eexists. split; [reflexivity|].
  unfold notifyListeners. rewrite notify_calls, Hc, Hls. simpl.
  clear. induction ids as [|i ids IH]; simpl; [done|]. by f_equal.
Qed.

(** C9. In the birdtag service every open adds the [onMessage]
    callback of the [connect] call under a new key and nothing removes
    the earlier entries: after [k] automatic reconnects (abnormal
    close, retry timer, open) the registry holds [k + 1] entries of the
    callback, and one inbound message calls it [k + 1] times.  The keys
    drawn by [Date.now() + Math.random()] are taken to be distinct. *)
Theorem reconnects_multiply_listener token f cbs cb id0 cycles payload data :
  Js.truthy_str token = true → onMessage cbs = Some cb →
  Forall (λ c, c.1 ≠ 1000) cycles → NoDup (id0 :: cycles.*2) →
  JSON_parse payload = Some data →
  ∃ w w', run (start token) (session f cbs id0 cycles) = Some w ∧
          listeners (this w) = (λ i, (i, cb)) <$> (id0 :: cycles.*2) ∧
          step w (Message (length cycles) payload) = Some w' ∧
          calls (out w') = replicate (S (length cycles)) (cb, data).
Proof.
  intros Htok Hcb Hcodes Hnd Hp.
  destruct (session_first_open token f cbs cb id0 Htok Hcb) as (w0 & Hrun0 & Hst0).
  destruct (reconnects_run token cbs cb f cycles 0 [id0] w0) as (w & Hrun & Hst);
    [done..|].
  destruct (stable_message _ _ _ _ _ _ _ payload data Hst Hp) as (w' & Hstep & Hcalls).
  exists w, w'. split_and!.
  - change (run (start token) ([Connect f cbs; Open 0 id0] ++ reconnects 0 cycles)
            = Some w).
    rewrite run_app, Hrun0. exact Hrun.
  - by destruct Hst as (? & ? & _ & _ & _ & _ & _ & -> & _).
  - exact Hstep.
  - rewrite Hcalls. simpl. by rewrite length_fmap.
Qed.

(** A second [connect] while the first socket is still connecting
    builds a second socket: the guard looks for [OPEN] only. *)
Lemma connect_while_connecting token f cbs f' cbs' :
  Js.truthy_str token = true →
  ∃ w, run (start token) [Connect f cbs; Connect f' cbs'] = Some w ∧
       length (sockets w) = 2%nat ∧
       readyState_of w 0 = Some CONNECTING ∧
       readyState_of w 1 = Some CONNECTING ∧
       ws (this w) = Some 1%nat.
Proof.
  intros Htok. unfold start. turn. rewrite Htok. simpl.
  turn. rewrite Htok. simpl. rewrite run_nil.
  eexists. split; [reflexivity|]. done.
Qed.

(** A retry scheduled by an abnormal close survives [disconnect()] and
    builds a socket when it fires. *)
Lemma retry_after_disconnect token f cbs id code :
  Js.truthy_str token = true → code ≠ 1000 →
  ∃ w0 w, run (start token) [Connect f cbs; Open 0 id; Close 0 code; Disconnect]
            = Some w0 ∧
          length (sockets w0) = 1%nat ∧ ws (this w0) = None ∧
          length (timers w0) = 1%nat ∧
          step w0 (Timeout 0) = Some w ∧
          length (sockets w) = 2%nat ∧ ws (this w) = Some 1%nat ∧
          readyState_of w 1 = Some CONNECTING.
Proof.
  intros Htok Hcode. destruct cbs as [[cb|] oe oc].
  all: unfold start; turn; rewrite Htok; simpl.
  all: turn; unfold set_state; simpl.
  all: turn; unfold set_state, onclose; simpl.
  all: destruct (Z.eqb_spec code 1000) as [|_]; [done|]; simpl.
  all: turn; rewrite run_nil.
  all: eexists _, _; split; [reflexivity|]; simpl.
  all: unfold Websocket.step; simpl; rewrite Htok; simpl.
  all: split_and!; reflexivity.
Qed.

End Websocket_facts.

(** ** The socket service of bird-tag *)

Section WebsocketService_facts.
Import Browser WebsocketService.

Context {Data : Type}.
Variable JSON_parse : string → option Data.
Variable throws : callback → Data → bool.
Variable status_throws : callback → string → bool.
Variable websocketApiUrl : string.
Variable encodeURIComponent : string → string.

Abbreviation step :=
  (WebsocketService.step JSON_parse throws status_throws websocketApiUrl
     encodeURIComponent).
Abbreviation run :=
  (WebsocketService.run JSON_parse throws status_throws websocketApiUrl
     encodeURIComponent).
Abbreviation world := (@WebsocketService.world Data).

Implicit Types (w : world) (hs : list callback).

Lemma service_calls_app (a b : list (@output Data)) :
  calls (a ++ b) = calls a ++ calls b.
Proof. unfold calls. apply omap_app. Qed.

Lemma service_notify_frame data hs w :
  this (notify throws data hs w) = this w ∧
  sockets (notify throws data hs w) = sockets w ∧
  timers (notify throws data hs w) = timers w ∧
  pending (notify throws data hs w) = pending w ∧
  idToken (notify throws data hs w) = idToken w.
Proof.
  revert w. induction hs as [|h rest IH]; intros w; [done|].
  cbn [notify]. destruct (throws h data);
    destruct (IH (emit (console_error "Message handler error:")
                    (emit (called h data) w))) as (Ha & Hb & Hc & Hd & He);
    destruct (IH (emit (called h data) w)) as (Ha' & Hb' & Hc' & Hd' & He');
    destruct w; split_and!; assumption.
Qed.

Lemma service_notify_calls data hs w :
  calls (out (notify throws data hs w))
  = calls (out w) ++ ((λ h, (h, data)) <$> hs).
Proof.
  revert w. induction hs as [|h rest IH]; intros w.
  - simpl. by rewrite app_nil_r.
  - cbn [notify fmap list_fmap]. destruct (throws h data); rewrite IH;
      destruct w; simpl; rewrite !service_calls_app; simpl;
      by rewrite <-?app_assoc, ?app_nil_r.
Qed.

Lemma notify_status_frame status code hs w :
  this (notify_status status_throws status code hs w) = this w ∧
  sockets (notify_status status_throws status code hs w) = sockets w ∧
  timers (notify_status status_throws status code hs w) = timers w ∧
  pending (notify_status status_throws status code hs w) = pending w ∧
  idToken (notify_status status_throws status code hs w) = idToken w ∧
  calls (out (notify_status status_throws status code hs w)) = calls (out w).
Proof.
  revert w. induction hs as [|h rest IH]; intros w; [done|].
  cbn [notify_status]. destruct (status_throws h status);
    destruct (IH (emit (console_error "Connection handler error:")
                    (emit (called_status h status code) w)))
      as (Ha & Hb & Hc & Hd & He & Hf);
    destruct (IH (emit (called_status h status code) w))
      as (Ha' & Hb' & Hc' & Hd' & He' & Hf');
    destruct w; simpl in *; rewrite ?service_calls_app in *; simpl in *;
    rewrite ?app_nil_r in *; split_and!; assumption.
Qed.

(** Both guards of [connect]: an open socket, or a connect in progress. *)
Lemma connect_guarded f w :
  ws_is_open w = true ∨ isConnecting (this w) = true →
  ∃ msg, connect f w = emit (console_log msg) w.
Proof.
  unfold connect. intros [->| ->]; [by eexists|].
  destruct (ws_is_open w); by eexists.
Qed.

(** An abnormal close below the attempt bound: one more attempt, one
    more timer, with the fixed delay. *)
Lemma service_onclose_abnormal f code w :
  code ≠ 1000 → reconnectAttempts (this w) < maxReconnectAttempts →
  reconnectAttempts (this (onclose status_throws f code w))
    = reconnectAttempts (this w) + 1 ∧
  timers (onclose status_throws f code w) = timers w ++ [Timer reconnectDelay f] ∧
  sockets (onclose status_throws f code w) = sockets w.
Proof.
  intros Hc Ha. unfold onclose, notifyConnectionHandlers.
  match goal with |- context [notify_status _ ?s ?c ?h ?x] =>
    destruct (notify_status_frame s c h x) as (Ht & Hs & Htm & _);
    set (w1 := notify_status status_throws s c h x) in *; clearbody w1 end.
  simpl in Ht, Hs, Htm. rewrite Ht. simpl.
  destruct (Z.eqb_spec code 1000) as [|_]; [done|].
  destruct (Z.ltb_spec (reconnectAttempts (this w)) maxReconnectAttempts) as [_|]; [|lia].
  simpl. rewrite ?Ht, ?Htm, ?Hs. done.
Qed.

Lemma service_run_cons w e es : run w (e :: es) = step w e ≫= λ w', run w' es.
Proof. done. Qed.

Lemma service_run_nil w : run w [] = Some w.
Proof. done. Qed.

Local Arguments WebsocketService.run : simpl never.
Local Arguments WebsocketService.step : simpl never.

Ltac service_turn :=
  rewrite service_run_cons; unfold WebsocketService.step at 1; simpl.

(** A retry scheduled by an abnormal close survives [disconnect()]:
    when it fires, [connect] passes both guards and, once the session
    lookup has answered, builds a socket. *)
Lemma service_retry_after_disconnect stored f tok code :
  tok ≠ "" → websocketApiUrl ≠ "" → code ≠ 1000 →
  ∃ w0 w, run (start stored)
            [Connect f; Resume 0 (Some tok); Open 0; Close 0 code; Disconnect]
            = Some w0 ∧
          length (sockets w0) = 1%nat ∧ ws (this w0) = None ∧
          length (timers w0) = 1%nat ∧
          reconnectAttempts (this w0) = maxReconnectAttempts ∧
          run w0 [Timeout 0; Resume 0 (Some tok)] = Some w ∧
          length (sockets w) = 2%nat ∧ ws (this w) = Some 1%nat ∧
          readyState_of w 1 = Some CONNECTING.
Proof.
  intros Htok Hurl Hcode.
  apply String.eqb_neq in Htok, Hurl.
  unfold start. do 2 service_turn. rewrite Htok, Hurl. simpl.
  do 2 service_turn.
  destruct (Z.eqb_spec code 1000) as [|_]; [done|]. simpl.
  service_turn. rewrite service_run_nil.
  eexists _, _. split; [reflexivity|]. simpl. split_and!; try reflexivity.
  all: simpl; rewrite Htok, Hurl; reflexivity.
Qed.

(** Two [connect] calls in a row start one session lookup and build
    one socket: the second call finds the flag set. *)
Lemma concurrent_connects_open_one stored f g tok :
  tok ≠ "" → websocketApiUrl ≠ "" →
  ∃ w, run (start stored) [Connect f; Connect g; Resume 0 (Some tok)] = Some w ∧
       length (sockets w) = 1%nat ∧ pending w = [] ∧
       readyState_of w 0 = Some CONNECTING.
Proof.
  intros Htok Hurl. apply String.eqb_neq in Htok, Hurl.
  unfold start. do 3 service_turn. rewrite Htok, Hurl. simpl.
  rewrite service_run_nil. eexists. split; [reflexivity|]. done.
Qed.

(** The flag is shared by every socket the service ever built: the
    close event of a socket torn down by [disconnect()] clears it while
    the next socket is still connecting, and a further [connect] then
    builds a third one. *)
Lemma stale_close_reopens stored f tok :
  tok ≠ "" → websocketApiUrl ≠ "" →
  ∃ w1 w, run (start stored)
            [Connect f; Resume 0 (Some tok); Open 0; Disconnect;
             Connect f; Resume 0 (Some tok); Close 0 1000] = Some w1 ∧
          getStatus w1 = "connecting" ∧ isConnecting (this w1) = false ∧
          length (sockets w1) = 2%nat ∧
          run w1 [Connect f; Resume 0 (Some tok)] = Some w ∧
          length (sockets w) = 3%nat ∧
          readyState_of w 1 = Some CONNECTING ∧
          readyState_of w 2 = Some CONNECTING.
Proof.
  intros Htok Hurl. apply String.eqb_neq in Htok, Hurl.
  unfold start. do 2 service_turn. rewrite Htok, Hurl. simpl.
  do 4 service_turn. rewrite Htok, Hurl. simpl.
  service_turn. rewrite service_run_nil.
  eexists _, _. split; [reflexivity|]. simpl. split_and!; try reflexivity.
  all: simpl; rewrite Htok, Hurl; reflexivity.
Qed.

End WebsocketService_facts.

(** ** The push channel: both services side by side *)

Section Channel_facts.
Import Browser.

Context {Data Key : Type} `{EqDecision Key}.
Variable JSON_parse : string → option Data.
Variable throws : callback → Data → bool.
Variable status_throws : callback → string → bool.
Variable WEBSOCKET_API_URL websocketApiUrl : string.
Variable encodeURIComponent : string → string.

Abbreviation step1 :=
  (Websocket.step (Key:=Key) JSON_parse throws WEBSOCKET_API_URL encodeURIComponent).
Abbreviation run1 :=
  (Websocket.run (Key:=Key) JSON_parse throws WEBSOCKET_API_URL encodeURIComponent).
Abbreviation step2 :=
  (WebsocketService.step JSON_parse throws status_throws websocketApiUrl
     encodeURIComponent).
Abbreviation run2 :=
  (WebsocketService.run JSON_parse throws status_throws websocketApiUrl
     encodeURIComponent).

(** C2. Single-flight connect does not hold.  In birdtag the guard
    tests for an open socket only, so a [connect] call made while the
    first socket is still connecting builds a second socket and leaves
    the first one connecting, orphaned.  In bird-tag the guard flag is
    cleared by the close event of a socket that [disconnect()] tore
    down, while the socket built after it is still connecting
    ([getStatus()] answers 'connecting'), and a [connect] call made
    then builds a third socket. *)
Theorem connect_is_not_single_flight token f cbs f' cbs' stored g tok :
  Js.truthy_str token = true → tok ≠ "" → websocketApiUrl ≠ "" →
  (∃ w, run1 (Websocket.start token)
          [Websocket.Connect f cbs; Websocket.Connect f' cbs'] = Some w ∧
        length (Websocket.sockets w) = 2%nat ∧
        Websocket.readyState_of w 0 = Some CONNECTING ∧
        Websocket.readyState_of w 1 = Some CONNECTING ∧
        Websocket.ws (Websocket.this w) = Some 1%nat) ∧
  (∃ v1 v,
     run2 (WebsocketService.start stored)
       [WebsocketService.Connect g; WebsocketService.Resume 0 (Some tok);
        WebsocketService.Open 0; WebsocketService.Disconnect;
        WebsocketService.Connect g; WebsocketService.Resume 0 (Some tok);
        WebsocketService.Close 0 1000] = Some v1 ∧
     WebsocketService.getStatus v1 = "connecting" ∧
     length (WebsocketService.sockets v1) = 2%nat ∧
     run2 v1 [WebsocketService.Connect g; WebsocketService.Resume 0 (Some tok)]
       = Some v ∧
     length (WebsocketService.sockets v) = 3%nat ∧
     WebsocketService.readyState_of v 1 = Some CONNECTING ∧
     WebsocketService.readyState_of v 2 = Some CONNECTING).
Proof.
  intros Htoken Htok Hurl. split.
  - by apply connect_while_connecting.
  - destruct (stale_close_reopens JSON_parse throws status_throws websocketApiUrl
                encodeURIComponent stored g tok Htok Hurl)
      as (v1 & v & ? & ? & ? & ? & ? & ? & ? & ?).
    exists v1, v. done.
Qed.

(** C3. [disconnect()] does not cancel a pending retry, in either
    service: a socket opens, closes abnormally (which schedules the
    retry), and the page calls [disconnect()].  The timer is still
    pending afterwards, and when it fires the service builds a new
    socket. *)
Theorem disconnect_keeps_pending_retry token f cbs id stored g tok code :
  Js.truthy_str token = true → tok ≠ "" → websocketApiUrl ≠ "" → code ≠ 1000 →
  (∃ w0 w,
     run1 (Websocket.start token)
       [Websocket.Connect f cbs; Websocket.Open 0 id; Websocket.Close 0 code;
        Websocket.Disconnect] = Some w0 ∧
     length (Websocket.timers w0) = 1%nat ∧
     length (Websocket.sockets w0) = 1%nat ∧
     step1 w0 (Websocket.Timeout 0) = Some w ∧
     length (Websocket.sockets w) = 2%nat ∧
     Websocket.readyState_of w 1 = Some CONNECTING) ∧
  (∃ v0 v,
     run2 (WebsocketService.start stored)
       [WebsocketService.Connect g; WebsocketService.Resume 0 (Some tok);
        WebsocketService.Open 0; WebsocketService.Close 0 code;
        WebsocketService.Disconnect] = Some v0 ∧
     length (WebsocketService.timers v0) = 1%nat ∧
     length (WebsocketService.sockets v0) = 1%nat ∧
     run2 v0 [WebsocketService.Timeout 0; WebsocketService.Resume 0 (Some tok)]
       = Some v ∧
     length (WebsocketService.sockets v) = 2%nat ∧
     WebsocketService.readyState_of v 1 = Some CONNECTING).
Proof.
  intros Htoken Htok Hurl Hcode. split.
  - destruct (retry_after_disconnect JSON_parse throws WEBSOCKET_API_URL
                encodeURIComponent token f cbs id code Htoken Hcode)
      as (w0 & w & ? & ? & ? & ? & ? & ? & ? & ?).
    exists w0, w. done.
  - destruct (service_retry_after_disconnect JSON_parse throws status_throws
                websocketApiUrl encodeURIComponent stored g tok code Htok Hurl Hcode)
      as (v0 & v & ? & ? & ? & ? & ? & ? & ? & ? & ?).
    exists v0, v. done.
Qed.

(** What both services do on an abnormal close (a code other than
    1000) below the attempt bound: they add one to [reconnectAttempts]
    and schedule one retry.  In birdtag the delay is [reconnectDelay]
    times the new attempt number, 1000 ms per attempt; in bird-tag it
    is the fixed [reconnectDelay] of 3000 ms. *)
Lemma abnormal_close_schedules_retry :
  (∀ (w w' : Websocket.world) s code,
     step1 w (Websocket.Close s code) = Some w' →
     code ≠ 1000 →
     Websocket.reconnectAttempts (Websocket.this w) < Websocket.maxReconnectAttempts →
     Websocket.reconnectAttempts (Websocket.this w')
       = Websocket.reconnectAttempts (Websocket.this w) + 1 ∧
     ∃ cbs, Websocket.timers w'
            = Websocket.timers w
              ++ [Websocket.Timer
                    (1000 * Websocket.reconnectAttempts (Websocket.this w')) cbs]) ∧
  (∀ (v v' : WebsocketService.world) s code,
     step2 v (WebsocketService.Close s code) = Some v' →
     code ≠ 1000 →
     WebsocketService.reconnectAttempts (WebsocketService.this v)
       < WebsocketService.maxReconnectAttempts →
     WebsocketService.reconnectAttempts (WebsocketService.this v')
       = WebsocketService.reconnectAttempts (WebsocketService.this v) + 1 ∧
     ∃ g, WebsocketService.timers v'
          = WebsocketService.timers v ++ [WebsocketService.Timer 3000 g]).
Proof.
  split.
  - intros w w' s code Hstep Hcode Hatt. unfold Websocket.step in Hstep.
    destruct (Websocket.sockets w !! s) as [k|] eqn:Hk; simpl in Hstep; [|done].
    destruct (bool_decide (Websocket.state k = CLOSED)); [done|].
    injection Hstep as <-.
    destruct w as [[cur att ls fid] socks tms tok o]. simpl in *. rewrite Hk. simpl.
    destruct (Z.eqb_spec code 1000) as [|_]; [done|].
    destruct (Z.ltb_spec att Websocket.maxReconnectAttempts) as [_|]; [|lia].
    simpl. split; [done|]. by eexists.
  - intros v v' s code Hstep Hcode Hatt. unfold WebsocketService.step in Hstep.
    destruct (WebsocketService.sockets v !! s) as [k|] eqn:Hk; simpl in Hstep; [|done].
    destruct (bool_decide (WebsocketService.state k = CLOSED)); [done|].
    injection Hstep as <-.
    destruct (service_onclose_abnormal status_throws (WebsocketService.closure k) code
                (WebsocketService.set_state s CLOSED v) Hcode) as (Ha & Ht & _).
    { unfold WebsocketService.set_state. rewrite Hk. exact Hatt. }
    rewrite Ha, Ht. unfold WebsocketService.set_state. rewrite Hk. simpl.
    split; [done|]. by eexists.
Qed.

(** C8. In both services a payload [JSON.parse] rejects is reported on
    the console and dropped: the service object, its sockets and its
    timers are as before and no handler is called.  A payload that
    parses reaches every registered handler, once each and in
    registration order, whichever of them throw; the connection is as
    before, too. *)
Theorem malformed_dropped_handlers_isolated :
  (∀ (w w' : Websocket.world) s payload,
     step1 w (Websocket.Message s payload) = Some w' →
     Websocket.this w' = Websocket.this w ∧
     Websocket.sockets w' = Websocket.sockets w ∧
     Websocket.timers w' = Websocket.timers w ∧
     match JSON_parse payload with
     | None =>
         Websocket.out w'
         = Websocket.out w
           ++ [Websocket.console_error "Failed to parse WebSocket message:"]
     | Some data =>
         Websocket.calls (Websocket.out w')
         = Websocket.calls (Websocket.out w)
           ++ ((λ kl, (kl.2, data)) <$> Websocket.listeners (Websocket.this w))
     end) ∧
  (∀ (v v' : WebsocketService.world) s payload,
     step2 v (WebsocketService.Message s payload) = Some v' →
     WebsocketService.this v' = WebsocketService.this v ∧
     WebsocketService.sockets v' = WebsocketService.sockets v ∧
     WebsocketService.timers v' = WebsocketService.timers v ∧
     match JSON_parse payload with
     | None =>
         WebsocketService.out v'
         = WebsocketService.out v
           ++ [WebsocketService.console_error "Failed to parse WebSocket message:";
               WebsocketService.console_error "Raw message:"]
     | Some data =>
         WebsocketService.calls (WebsocketService.out v')
         = WebsocketService.calls (WebsocketService.out v)
           ++ ((λ h, (h, data))
                 <$> WebsocketService.messageHandlers (WebsocketService.this v))
     end).
Proof.
  split.
  - intros w w' s payload Hstep. unfold Websocket.step in Hstep.
    destruct (Websocket.sockets w !! s) as [k|]; simpl in Hstep; [|done].
    destruct (bool_decide (Websocket.state k = OPEN)); [|done].
    injection Hstep as <-. unfold Websocket.onmessage.
    destruct (JSON_parse payload) as [data|]; [|done].
    unfold Websocket.notifyListeners.
    destruct (notify_frame throws data (Websocket.listeners (Websocket.this w)) w)
      as (-> & -> & -> & _).
    split_and!; [done..|]. apply notify_calls.
  - intros v v' s payload Hstep. unfold WebsocketService.step in Hstep.
    destruct (WebsocketService.sockets v !! s) as [k|]; simpl in Hstep; [|done].
    destruct (bool_decide (WebsocketService.state k = OPEN)); [|done].
    injection Hstep as <-. unfold WebsocketService.onmessage.
    destruct (JSON_parse payload) as [data|];
      [|destruct v; simpl; by rewrite <-app_assoc].
    unfold WebsocketService.notifyMessageHandlers.
    match goal with |- context [WebsocketService.notify _ _ ?h ?x] =>
      destruct (service_notify_frame throws data h x) as (-> & -> & -> & _);
      rewrite (service_notify_calls throws data h x) end.
    simpl. rewrite service_calls_app. simpl. by rewrite app_nil_r.
Qed.

End Channel_facts.

(** ** Credential resolution *)

Section AuthService_facts.
Import Js AuthService.

Variable decodeJWT : string → option object.
Variable ToNumber : value → option Z.

Abbreviation getOAuthSession := (AuthService.getOAuthSession decodeJWT ToNumber).
Abbreviation getUserSession := (AuthService.getUserSession decodeJWT ToNumber).

(** A miss of the primary source is not an error of the lookup: the
    answer is that of the stored tokens. *)
Lemma getUserSession_falls_back c (ls : storage) (now : Z) :
  primary_miss c = true → getUserSession c ls now = getOAuthSession ls now.
Proof.
  destruct c as [| |[] id access refresh [attributes|]]; simpl; intros Hm;
    try discriminate Hm; reflexivity.
Qed.

Lemma truthy_str_Some s : s ≠ "" → truthy_str (Some s) = true.
Proof. intros Hs. simpl. by apply String.eqb_neq in Hs as ->. Qed.

Lemma getOAuthSession_fresh (ls : storage) (now : Z) i a p :
  ls !! "idToken" = Some i → i ≠ "" →
  ls !! "accessToken" = Some a → a ≠ "" →
  decodeJWT i = Some p →
  (p !! "exp" = None ∨ ∃ e, p !! "exp" = Some (Num e) ∧ (now ≤ e)%Z) →
  ∃ s, getOAuthSession ls now = resolved s ∧ idToken s = i ∧ accessToken s = a.
Proof.
  intros Hi Hi' Ha Ha' Hp Hexp. unfold AuthService.getOAuthSession.
  rewrite Hi, Ha, !truthy_str_Some by done. simpl. rewrite Hp.
  assert (truthy (p !! "exp") && less_than ToNumber (p !! "exp") now = false) as ->.
  { destruct Hexp as [->|(e & -> & He)]; [done|]. simpl.
    apply andb_false_intro2. by apply Z.ltb_ge. }
  eexists. split; [reflexivity|]. done.
Qed.

Lemma getOAuthSession_none (ls : storage) (now : Z) :
  ls !! "idToken" = None ∨ ls !! "accessToken" = None →
  getOAuthSession ls now = rejected No_user_found.
Proof.
  unfold AuthService.getOAuthSession. intros [->| ->]; simpl; [done|].
  by rewrite orb_true_r.
Qed.

Lemma getOAuthSession_expired (ls : storage) (now : Z) i a p e :
  ls !! "idToken" = Some i → i ≠ "" →
  ls !! "accessToken" = Some a → a ≠ "" →
  decodeJWT i = Some p → p !! "exp" = Some (Num e) → e ≠ 0 → (e < now)%Z →
  getOAuthSession ls now = rejected Token_expired.
Proof.
  intros Hi Hi' Ha Ha' Hp Hexp He0 He. unfold AuthService.getOAuthSession.
  rewrite Hi, Ha, !truthy_str_Some by done. simpl. rewrite Hp, Hexp. simpl.
  apply Z.eqb_neq in He0 as ->. apply Z.ltb_lt in He as ->. done.
Qed.

Lemma getOAuthSession_missing (ls : storage) (now : Z) :
  truthy_str (ls !! "idToken") = false ∨ truthy_str (ls !! "accessToken") = false →
  getOAuthSession ls now = rejected No_user_found.
Proof.
  unfold AuthService.getOAuthSession. intros [->| ->]; simpl; [done|].
  by rewrite orb_true_r.
Qed.

Lemma getOAuthSession_invalid (ls : storage) (now : Z) i a :
  ls !! "idToken" = Some i → i ≠ "" →
  ls !! "accessToken" = Some a → a ≠ "" →
  decodeJWT i = None →
  getOAuthSession ls now = rejected Invalid_token.
Proof.
  intros Hi Hi' Ha Ha' Hp. unfold AuthService.getOAuthSession.
  rewrite Hi, Ha, !truthy_str_Some by done. simpl. by rewrite Hp.
Qed.

(** The order of the sources, and what the lookup answers wherever the
    expiry is not the epoch.  A valid Cognito session with its
    attributes is returned whatever is stored.  When the Cognito lookup
    misses (no user, an error, an invalid session, or attributes that
    cannot be read), the miss is not propagated: stored tokens whose
    payload has no [exp] or an [exp] not before the clock are
    returned; a missing or empty stored token rejects with 'No user
    found'; an id token that does not decode rejects with 'Invalid
    token'; and stored tokens whose [exp] is not zero and lies before
    the clock reject with 'Token expired'. *)
Theorem credential_resolution :
  (∀ id access refresh attributes (ls : storage) (now : Z),
     ∃ s, getUserSession (got_session true id access refresh (Some attributes)) ls now
          = resolved s ∧
          idToken s = id ∧ accessToken s = access ∧ refreshToken s = refresh) ∧
  (∀ c (ls : storage) (now : Z) i a p,
     primary_miss c = true →
     ls !! "idToken" = Some i → i ≠ "" →
     ls !! "accessToken" = Some a → a ≠ "" →
     decodeJWT i = Some p →
     (p !! "exp" = None ∨ ∃ e, p !! "exp" = Some (Num e) ∧ (now ≤ e)%Z) →
     ∃ s, getUserSession c ls now = resolved s ∧ idToken s = i ∧ accessToken s = a) ∧
  (∀ c (ls : storage) (now : Z),
     primary_miss c = true →
     truthy_str (ls !! "idToken") = false ∨ truthy_str (ls !! "accessToken") = false →
     getUserSession c ls now = rejected No_user_found) ∧
  (∀ c (ls : storage) (now : Z) i a,
     primary_miss c = true →
     ls !! "idToken" = Some i → i ≠ "" →
     ls !! "accessToken" = Some a → a ≠ "" →
     decodeJWT i = None →
     getUserSession c ls now = rejected Invalid_token) ∧
  (∀ c (ls : storage) (now : Z) i a p e,
     primary_miss c = true →
     ls !! "idToken" = Some i → i ≠ "" →
     ls !! "accessToken" = Some a → a ≠ "" →
     decodeJWT i = Some p → p !! "exp" = Some (Num e) → e ≠ 0 → (e < now)%Z →
     getUserSession c ls now = rejected Token_expired).
Proof.
  split_and!.
  - intros. eexists. split; [reflexivity|]. done.
  - intros c ls now i a p Hc. rewrite (getUserSession_falls_back _ _ _ Hc).
    apply getOAuthSession_fresh.
  - intros c ls now Hc. rewrite (getUserSession_falls_back _ _ _ Hc).
    apply getOAuthSession_missing.
  - intros c ls now i a Hc. rewrite (getUserSession_falls_back _ _ _ Hc).
    apply getOAuthSession_invalid.
  - intros c ls now i a p e Hc. rewrite (getUserSession_falls_back _ _ _ Hc).
    apply getOAuthSession_expired.
Qed.

End AuthService_facts.

(** ** The REST helper of birdtag *)

Section Api_facts.
Import Js Api.

Variable JSON_parse : string → option object.
Variable JSON_stringify : object → string.
Variable REST_API_BASE_URL : string.

Abbreviation request := (Api.request JSON_parse JSON_stringify REST_API_BASE_URL).

(** What [request] hands to [fetch].  Whatever the method, with a
    stored token and a caller's body without a [token] property, the
    body of the configuration is the JSON text of the caller's body
    with [token] set to the stored token; [request] adds no header but
    [Content-Type], so an [Authorization] header is there only if the
    caller supplied one. *)
Theorem request_sends_token_in_body t endpoint o :
  t ≠ "" → parsed_body JSON_parse o !! "token" = None →
  fetch_body (request (Some t) endpoint o)
    = JSON_stringify (<["token" := Str t]> (parsed_body JSON_parse o)) ∧
  (<["token" := Str t]> (parsed_body JSON_parse o)) !! "token" = Some (Str t) ∧
  fetch_method (request (Some t) endpoint o) = method o ∧
  fetch_headers (request (Some t) endpoint o) !! "Authorization"
    = headers o !! "Authorization".
Proof.
  intros Ht Hb. unfold Api.request, request_body. simpl.
  apply String.eqb_neq in Ht as ->. rewrite Hb. simpl.
  split_and!; [done|by rewrite lookup_insert_eq|done|].
  rewrite lookup_union_l; [done|]. by rewrite lookup_singleton_ne.
Qed.

(** The metadata fetch is a GET whose body is the token alone. *)
Lemma getFileMetadata_body t fileId :
  t ≠ "" →
  fetch_method (getFileMetadata JSON_parse JSON_stringify REST_API_BASE_URL
                  (Some t) fileId) = Some "GET" ∧
  fetch_body (getFileMetadata JSON_parse JSON_stringify REST_API_BASE_URL
                (Some t) fileId) = JSON_stringify {[ "token" := Str t ]}.
Proof.
  intros Ht. unfold getFileMetadata, Api.request, request_body. simpl.
  apply String.eqb_neq in Ht as ->. simpl. split; [done|].
  unfold parsed_body. cbn [body]. rewrite lookup_empty. cbn [truthy negb].
  by rewrite insert_empty.
Qed.

(** C10. [request] puts a body into the configuration of every call,
    and [fetch] throws on a GET or HEAD with a body before anything is
    sent: on such a call, and on one that names no method, no body and
    so no token goes out.  [getFileMetadata], the one GET of the
    module, is refused whatever the token and the file; the POST of
    [requestUploadFile] goes out with the body [request] built. *)
Theorem get_request_sends_nothing token endpoint o fileId filename contentType :
  (method o = None ∨ method o = Some "GET" ∨ method o = Some "HEAD" →
   fetch_throws (request token endpoint o) = true ∧
   sent_body (request token endpoint o) = None) ∧
  fetch_method (getFileMetadata JSON_parse JSON_stringify REST_API_BASE_URL
                  token fileId) = Some "GET" ∧
  sent_body (getFileMetadata JSON_parse JSON_stringify REST_API_BASE_URL
               token fileId) = None ∧
  sent_body (requestUploadFile JSON_parse JSON_stringify REST_API_BASE_URL
               token filename contentType)
  = Some (fetch_body (requestUploadFile JSON_parse JSON_stringify REST_API_BASE_URL
                        token filename contentType)).
Proof.
  split_and!.
  - unfold sent_body, fetch_throws. simpl. by intros [->|[->| ->]].
  - reflexivity.
  - reflexivity.
  - reflexivity.
Qed.

End Api_facts.

(** ** The byte transfer *)

Section Transfer_facts.
Import Js Transfer.

Lemma xhr_handle_settled_keeps op r e o :
  settled r = Some o → settled (xhr_handle op r e) = Some o.
Proof.
  intros Hr. destruct e as [lc l t|st|]; simpl.
  - unfold xhr_onprogress. by destruct (lc && op).
  - unfold settle. destruct (Z.eqb st 200); by rewrite Hr.
  - unfold settle. by rewrite Hr.
Qed.

Lemma xhr_foldl_settled_keeps op es r o :
  settled r = Some o → settled (foldl (xhr_handle op) r es) = Some o.
Proof.
  revert r. induction es as [|e es IH]; intros r Hr; simpl; [done|].
  apply IH. by apply xhr_handle_settled_keeps.
Qed.

Lemma axios_handle_settled_keeps op r e o :
  settled r = Some o → settled (axios_handle op r e) = Some o.
Proof.
  intros Hr. destruct e as [l t|st|]; simpl.
  - unfold onUploadProgress. by destruct op.
  - unfold settle. destruct (Z.leb 200 st && Z.ltb st 300); by rewrite Hr.
  - unfold settle. by rewrite Hr.
Qed.

Lemma axios_foldl_settled_keeps op es r o :
  settled r = Some o → settled (foldl (axios_handle op) r es) = Some o.
Proof.
  revert r. induction es as [|e es IH]; intros r Hr; simpl; [done|].
  apply IH. by apply axios_handle_settled_keeps.
Qed.

(** Progress events do not settle the promise. *)
Lemma xhr_progress_pending op es r :
  Forall (λ e, ∃ lc l t, e = progress lc l t) es →
  settled (foldl (xhr_handle op) r es) = settled r.
Proof.
  revert r. induction es as [|e es IH]; intros r Hes; simpl; [done|].
  apply Forall_cons in Hes as [(lc & l & t & ->) Hes]. rewrite IH by done.
  simpl. unfold xhr_onprogress. by destruct (lc && op).
Qed.

Lemma axios_progress_pending op es r :
  Forall (λ e, ∃ l t, e = uploadProgress l t) es →
  settled (foldl (axios_handle op) r es) = settled r.
Proof.
  revert r. induction es as [|e es IH]; intros r Hes; simpl; [done|].
  apply Forall_cons in Hes as [(l & t & ->) Hes]. rewrite IH by done.
  simpl. unfold onUploadProgress. by destruct op.
Qed.

(** A network failure or a status other than 200 rejects the promise of
    the birdtag transfer, whatever comes after. *)
Lemma uploadToS3_xhr_fails op es e rest :
  Forall (λ e, ∃ lc l t, e = progress lc l t) es →
  e = error ∨ (∃ st, e = load st ∧ st ≠ 200) →
  ∃ msg, settled (uploadToS3_xhr op (es ++ e :: rest)) = Some (failed msg).
Proof.
  intros Hes He. unfold uploadToS3_xhr. rewrite foldl_app. simpl.
  set (r := foldl (xhr_handle op) _ es).
  assert (Hr : settled r = None) by (unfold r; by rewrite xhr_progress_pending).
  destruct He as [->|(st & -> & Hst)]; simpl.
  - eexists. apply xhr_foldl_settled_keeps. unfold settle. by rewrite Hr.
  - apply Z.eqb_neq in Hst as ->. eexists.
    apply xhr_foldl_settled_keeps. unfold settle. by rewrite Hr.
Qed.

(** The same for the bird-tag transfer, with every status outside
    [200..299]. *)
Lemma uploadToS3_axios_fails op es e rest :
  Forall (λ e, ∃ l t, e = uploadProgress l t) es →
  e = network_error ∨ (∃ st, e = response st ∧ (st < 200 ∨ 300 ≤ st)) →
  ∃ msg, settled (uploadToS3_axios op (es ++ e :: rest)) = Some (failed msg).
Proof.
  intros Hes He. unfold uploadToS3_axios. rewrite foldl_app. simpl.
  set (r := foldl (axios_handle op) _ es).
  assert (Hr : settled r = None) by (unfold r; by rewrite axios_progress_pending).
  destruct He as [->|(st & -> & Hst)]; simpl.
  - eexists. apply axios_foldl_settled_keeps. unfold settle. by rewrite Hr.
  - assert (Z.leb 200 st && Z.ltb st 300 = false) as ->.
    { destruct Hst; [apply andb_false_intro1; by apply Z.leb_gt
                    |apply andb_false_intro2; by apply Z.ltb_ge]. }
    eexists. apply axios_foldl_settled_keeps. unfold settle. by rewrite Hr.
Qed.

(** One call of [onProgress] per progress event: per event of
    computable length in birdtag, per event in bird-tag. *)
Lemma xhr_reported_length es r :
  length (reported (foldl (xhr_handle true) r es))
  = (length (reported r)
     + length (filter (λ p, p.1.1 = true) (xhr_progress_events es)))%nat.
Proof.
  revert r. induction es as [|e es IH]; intros r; simpl; [lia|].
  rewrite IH. destruct e as [[] l t|st|]; simpl.
  - unfold xhr_progress_events. simpl. rewrite length_app. simpl. lia.
  - unfold xhr_progress_events, xhr_onprogress. simpl.
    rewrite filter_cons_False by (simpl; congruence). lia.
  - unfold xhr_progress_events, settle. simpl.
    destruct (Z.eqb st 200), (settled r); simpl; lia.
  - unfold xhr_progress_events, settle. simpl. destruct (settled r); simpl; lia.
Qed.

Lemma axios_reported_length es r :
  length (reported (foldl (axios_handle true) r es))
  = (length (reported r) + length (axios_progress_events es))%nat.
Proof.
  revert r. induction es as [|e es IH]; intros r; simpl; [lia|].
  rewrite IH. destruct e as [l t|st|]; simpl.
  - unfold axios_progress_events. simpl. rewrite length_app. simpl. lia.
  - unfold axios_progress_events, settle. simpl.
    destruct (Z.leb 200 st && Z.ltb st 300), (settled r); simpl; lia.
  - unfold axios_progress_events, settle. simpl. destruct (settled r); simpl; lia.
Qed.

(** The percentage of a progress event with a positive total that is
    not exceeded. *)
Lemma ratio_percent (l t : N) :
  t ≠ 0%N → (l <= t)%N → is_percent (times (divide l (Some t)) 100).
Proof.
  intros Ht Hl. destruct t as [|p]; [done|]. simpl.
  unfold Qle, Qdiv, Qmult, Qinv. simpl. split; lia.
Qed.

Lemma rounded_percent (l t : N) :
  t ≠ 0%N → (l <= t)%N → is_percent (Math_round (divide (l * 100) (Some t))).
Proof.
  intros Ht Hl. destruct t as [|p]; [done|]. simpl.
  set (q := (inject_Z (Z.of_N (l * 100)) / inject_Z (Z.pos p))%Q).
  assert (Hq : (0 <= q)%Q ∧ (q <= 100)%Q).
  { unfold q, Qle, Qdiv, Qmult, Qinv. simpl. split; lia. }
  destruct Hq as [Hq0 Hq100]. split.
  - change (inject_Z 0 <= inject_Z (Qfloor (q + (1 # 2))))%Q. rewrite <-Zle_Qle.
    change 0%Z with (Qfloor (0 + (1 # 2))).
    apply Qfloor_resp_le. by apply Qplus_le_l.
  - change (inject_Z (Qfloor (q + (1 # 2))) <= inject_Z 100)%Q. rewrite <-Zle_Qle.
    change 100%Z with (Qfloor (100 + (1 # 2))).
    apply Qfloor_resp_le. by apply Qplus_le_l.
Qed.

Lemma Forall_snoc_intro {A} (P : A → Prop) (l : list A) (x : A) :
  Forall P l → P x → Forall P (l ++ [x]).
Proof. intros Hl Hx. apply Forall_app. split; [done|]. by constructor. Qed.

(** In birdtag every reported value is in [[0,100]] on events as the
    browser fires them: the handler skips events of unknown length. *)
Lemma uploadToS3_xhr_range op es :
  Forall xhr_well_formed es → Forall is_percent (reported (uploadToS3_xhr op es)).
Proof.
  unfold uploadToS3_xhr.
  assert (Hgen : ∀ r, Forall is_percent (reported r) →
            Forall xhr_well_formed es →
            Forall is_percent (reported (foldl (xhr_handle op) r es))).
  { induction es as [|e es IH]; intros r Hr Hes; simpl; [done|].
    apply Forall_cons in Hes as [He Hes]. apply IH; [|done].
    destruct e as [lc l t|st|]; simpl.
    - unfold xhr_onprogress. destruct lc, op; simpl; try done.
      destruct He as [Hlc Hl]. apply Forall_snoc_intro; [done|].
      apply ratio_percent; [by apply Hlc|done].
    - unfold settle. destruct (Z.eqb st 200), (settled r); done.
    - unfold settle. destruct (settled r); done. }
  intros Hes. apply Hgen; [constructor|done].
Qed.

(** In bird-tag the same holds on events that carry a positive total. *)
Lemma uploadToS3_axios_range op es :
  Forall (λ e, ∀ l t, e = uploadProgress l t →
                ∃ n, t = Some n ∧ n ≠ 0%N ∧ (l <= n)%N) es →
  Forall is_percent (reported (uploadToS3_axios op es)).
Proof.
  unfold uploadToS3_axios.
  assert (Hgen : ∀ r, Forall is_percent (reported r) →
            Forall (λ e, ∀ l t, e = uploadProgress l t →
                          ∃ n, t = Some n ∧ n ≠ 0%N ∧ (l <= n)%N) es →
            Forall is_percent (reported (foldl (axios_handle op) r es))).
  { induction es as [|e es IH]; intros r Hr Hes; simpl; [done|].
    apply Forall_cons in Hes as [He Hes]. apply IH; [|done].
    destruct e as [l t|st|]; simpl.
    - unfold onUploadProgress. destruct op; [|done].
      destruct (He l t eq_refl) as (n & -> & Hn & Hl).
      apply Forall_snoc_intro; [done|]. by apply rounded_percent.
    - unfold settle. destruct (Z.leb 200 st && Z.ltb st 300), (settled r); done.
    - unfold settle. destruct (settled r); done. }
  intros Hes. apply Hgen; [constructor|done].
Qed.

(** C7. The bird-tag transfer reports a value outside [[0,100]] for an
    empty body: its progress event has no computable length (both
    counts are 0, or the total is undefined), the callback divides by
    it without the [lengthComputable] test the birdtag handler has,
    and [onProgress] receives [NaN].  The birdtag handler reports
    nothing on the same event. *)
Theorem uploadToS3_reports_NaN_on_empty_body :
  reported (uploadToS3_axios true [uploadProgress 0 (Some 0%N); response 200])
    = [NaN] ∧
  reported (uploadToS3_axios true [uploadProgress 0 None; response 200]) = [NaN] ∧
  ¬ is_percent NaN ∧
  reported (uploadToS3_xhr true [progress false 0 0; load 200]) = [].
Proof. split_and!; [reflexivity..|by intros []|reflexivity]. Qed.

End Transfer_facts.

(** ** The upload queue *)

Section UploadQueue_facts.
Import Js UploadQueue.

Context {Key : Type} `{EqDecision Key}.

Implicit Types (k : Key) (q : list (@uploadItem Key)) (st : @state Key)
  (a : @activation Key) (f : @uploadItem Key → @uploadItem Key).

Lemma find_update_found k k' f q :
  (∀ i, id (f i) = id i) →
  find k' (update_found k f q)
  = if decide (k' = k) then f <$> find k q else find k' q.
Proof.
  intros Hf. induction q as [|i rest IH]; simpl; [by case_decide|].
  destruct (decide (id i = k)) as [Hi|Hi]; simpl; rewrite ?Hf;
    repeat case_decide; simplify_eq; done.
Qed.

Lemma find_filter k k' q :
  find k' (filter (λ i, id i ≠ k) q)
  = if decide (k' = k) then None else find k' q.
Proof.
  induction q as [|i rest IH]; simpl; [by case_decide|].
  destruct (decide (id i = k)) as [Hi|Hi].
  - rewrite filter_cons_False by (simpl; tauto). rewrite IH.
    repeat case_decide; simplify_eq; done.
  - rewrite filter_cons_True by done. simpl. rewrite IH.
    repeat case_decide; simplify_eq; done.
Qed.

Lemma find_snoc k' q (it : @uploadItem Key) :
  find k' (q ++ [it])
  = match find k' q with
    | Some i => Some i
    | None => if decide (id it = k') then Some it else None
    end.
Proof.
  induction q as [|i rest IH]; simpl; [done|].
  destruct (decide (id i = k')); [done|]. apply IH.
Qed.

Lemma find_None k q : (∀ it, it ∈ q → id it ≠ k) → find k q = None.
Proof.
  induction q as [|i rest IH]; intros Hq; simpl; [done|].
  rewrite decide_False by (apply Hq; set_solver). apply IH.
  intros it Hit. apply Hq. set_solver.
Qed.

Lemma update_found_ids k f q :
  (∀ i, id (f i) = id i) → id <$> update_found k f q = id <$> q.
Proof.
  intros Hf. induction q as [|i rest IH]; simpl; [done|].
  destruct (decide (id i = k)); simpl; [by rewrite Hf|f_equal; apply IH].
Qed.

Lemma elem_of_remove_nth {A} (x : A) (t : nat) (l : list A) :
  x ∈ Browser.remove_nth t l → x ∈ l.
Proof.
  revert t. induction l as [|y l IH]; intros [|t]; simpl; try done.
  - intros. set_solver.
  - intros [->|Hx]%elem_of_cons; [set_solver|]. apply elem_of_cons. right.
    by eapply IH.
Qed.

Lemma find_snoc_ne k' q (it : @uploadItem Key) :
  id it ≠ k' → find k' (q ++ [it]) = find k' q.
Proof.
  intros Hne. rewrite find_snoc. destruct (find k' q); [done|].
  by rewrite decide_False.
Qed.

Lemma find_elem_of k q it : find k q = Some it → it ∈ q ∧ id it = k.
Proof.
  induction q as [|i rest IH]; simpl; [done|].
  destruct (decide (id i = k)) as [Hi|Hi].
  - intros [= <-]. split; [apply elem_of_cons; by left|done].
  - intros Hf. destruct (IH Hf). split; [apply elem_of_cons; by right|done].
Qed.

Lemma phase_ok_ext q q' a :
  find (uploadId a) q' = find (uploadId a) q → phase_ok q a → phase_ok q' a.
Proof. unfold phase_ok. by intros ->. Qed.

Lemma ids_lookup st n a : activations st !! n = Some a → ids st !! n = Some (uploadId a).
Proof. intros Ha. unfold ids. by rewrite list_lookup_fmap, Ha. Qed.

Lemma ids_inj st n m a b :
  NoDup (ids st) → activations st !! n = Some a → activations st !! m = Some b →
  uploadId a = uploadId b → n = m.
Proof.
  intros Hnd Ha Hb Hab. eapply NoDup_lookup; [exact Hnd|by apply ids_lookup|].
  rewrite Hab. by apply ids_lookup.
Qed.

Lemma ids_elem_of st n a : activations st !! n = Some a → uploadId a ∈ ids st.
Proof. intros Ha. apply list_elem_of_lookup. exists n. by apply ids_lookup. Qed.

Lemma fmap_insert_same (acts : list (@activation Key)) n a p :
  acts !! n = Some a →
  uploadId <$> <[n := Activation (uploadId a) p]> acts = uploadId <$> acts.
Proof.
  intros Ha. rewrite list_fmap_insert. simpl. apply list_insert_id.
  by rewrite list_lookup_fmap, Ha.
Qed.

(** A transition of one activation that is not yet [returned], with a
    change of the queue confined to its own item. *)
Lemma invariant_set_phase st n0 a0 p q' rem' :
  invariant st → NoDup (ids st) → activations st !! n0 = Some a0 →
  at_phase a0 ≠ returned →
  (∀ k', k' ≠ uploadId a0 → find k' q' = find k' (uploadQueue st)) →
  (∀ it, it ∈ q' → id it ∈ ids st) →
  phase_ok q' (Activation (uploadId a0) p) →
  (∀ k, k ∈ rem' → k ∈ removals st ∨ (k = uploadId a0 ∧ p = returned)) →
  invariant (State q' (<[n0 := Activation (uploadId a0) p]> (activations st)) rem').
Proof.
  intros (Hph & Hq & Hrem) Hnd Ha0 Hnr Hfind Hq' Hok Hrem'.
  assert (Hlt : (n0 < length (activations st))%nat) by (by eapply lookup_lt_Some).
  split_and!; simpl.
  - intros n a Hn. destruct (decide (n = n0)) as [->|Hne].
    + rewrite list_lookup_insert_eq in Hn by done. by injection Hn as <-.
    + rewrite list_lookup_insert_ne in Hn by done.
      apply (phase_ok_ext (uploadQueue st)); [|by apply (Hph n)].
      apply Hfind. intros Heq. apply Hne. by eapply ids_inj.
  - intros it Hit. unfold ids. simpl. rewrite fmap_insert_same by done.
    by apply Hq'.
  - intros k Hk. destruct (Hrem' k Hk) as [Hin|[-> ->]].
    + destruct (Hrem k Hin) as (m & Hm). exists m.
      rewrite list_lookup_insert_ne; [done|]. intros <-.
      rewrite Ha0 in Hm. injection Hm as ->. by apply Hnr.
    + exists n0. by rewrite list_lookup_insert_eq.
Qed.

Lemma set_phase_eq st n a p :
  activations st !! n = Some a →
  set_phase n p st
  = State (uploadQueue st) (<[n := Activation (uploadId a) p]> (activations st))
      (removals st).
Proof. unfold set_phase. by intros ->. Qed.

Lemma set_id_preserved v (i : @uploadItem Key) :
  id (set_progress v i) = id i ∧ id (set_error i) = id i.
Proof. done. Qed.

Lemma update_found_elem_ids k f q st :
  (∀ i, id (f i) = id i) →
  (∀ it, it ∈ q → id it ∈ ids st) →
  ∀ it, it ∈ update_found k f q → id it ∈ ids st.
Proof.
  intros Hf Hq it Hit.
  assert (Hin : id it ∈ id <$> update_found k f q)
    by (apply list_elem_of_fmap; eauto).
  rewrite update_found_ids in Hin by done.
  apply list_elem_of_fmap in Hin as (it' & -> & Hit'). by apply Hq.
Qed.

(** What a step does to the keys. *)
Lemma step_ids st e st' :
  step st e = Some st' → ids st' = ids st ∨ ∃ k, ids st' = ids st ++ [k].
Proof.
  destruct e as [f k|n|n|n v|n|n|t]; simpl.
  - intros [= <-]. right. exists k. unfold ids, uploadFile. simpl.
    by rewrite fmap_app.
  - destruct (activations st !! n) as [a|] eqn:Ha; simpl; [|done].
    destruct (at_phase a); try done. intros [= <-]. left.
    rewrite (set_phase_eq _ _ a) by done. unfold ids. simpl.
    by apply fmap_insert_same.
  - destruct (activations st !! n) as [a|] eqn:Ha; simpl; [|done].
    destruct (at_phase a); try done. intros [= <-]. left.
    unfold on_catch. rewrite (set_phase_eq _ _ a) by done. unfold ids. simpl.
    by apply fmap_insert_same.
  - destruct (activations st !! n) as [a|] eqn:Ha; simpl; [|done].
    destruct (at_phase a); try done; intros [= <-]; by left.
  - destruct (activations st !! n) as [a|] eqn:Ha; simpl; [|done].
    destruct (at_phase a); try done. intros [= <-]. left.
    rewrite (set_phase_eq _ _ a) by done. unfold ids. simpl.
    by apply fmap_insert_same.
  - destruct (activations st !! n) as [a|] eqn:Ha; simpl; [|done].
    destruct (at_phase a); try done. intros [= <-]. left.
    unfold on_catch. rewrite (set_phase_eq _ _ a) by done. unfold ids. simpl.
    by apply fmap_insert_same.
  - destruct (removals st !! t) as [k|]; simpl; [|done].
    intros [= <-]. by left.
Qed.

Lemma step_NoDup st e st' :
  step st e = Some st' → NoDup (ids st') → NoDup (ids st).
Proof.
  intros Hs Hnd. destruct (step_ids _ _ _ Hs) as [Heq|(k & Heq)];
    rewrite Heq in Hnd; [done|]. by apply NoDup_app in Hnd as (? & _).
Qed.

Lemma step_invariant st e st' :
  step st e = Some st' → in_time st e = true → NoDup (ids st') →
  invariant st → invariant st'.
Proof.
  intros Hs Ht Hnd' Hinv. pose proof (step_NoDup _ _ _ Hs Hnd') as Hnd.
  pose proof Hinv as (Hph & Hq & Hrem).
  destruct e as [f k|n|n|n v|n|n|t]; simpl in Hs, Ht.
  - injection Hs as <-. unfold ids, uploadFile in Hnd'. simpl in Hnd'.
    rewrite fmap_app in Hnd'. apply NoDup_app in Hnd' as (_ & Hfresh & _).
    assert (Hk : k ∉ ids st).
    { intros Hin. apply (Hfresh k Hin). simpl. apply list_elem_of_singleton. done. }
    split_and!; simpl.
    + intros n a Hn. apply lookup_app_Some in Hn as [Hn|[_ Hn]].
      * apply (phase_ok_ext (uploadQueue st)); [|by apply (Hph n)].
        apply find_snoc_ne. simpl. intros Heq. apply Hk. rewrite Heq.
        by eapply ids_elem_of.
      * apply list_elem_of_lookup_2, list_elem_of_singleton in Hn as ->.
        unfold phase_ok. simpl.
        exists (UploadItem k f (finite 0) "uploading"). split; [|by split].
        rewrite find_snoc, find_None; [by rewrite decide_True|].
        intros it Hit Heq. apply Hk. rewrite <-Heq. by apply Hq.
    + intros it [Hit|Hit%list_elem_of_singleton]%elem_of_app;
        unfold ids; simpl; rewrite fmap_app; apply elem_of_app.
      * left. by apply Hq.
      * right. subst. simpl. by apply list_elem_of_singleton.
    + intros k' Hk'. destruct (Hrem k' Hk') as (m & Hm). exists m.
      by apply lookup_app_l_Some.
  - destruct (activations st !! n) as [a|] eqn:Ha; simpl in Hs; [|done].
    destruct (at_phase a) eqn:Hp; try done. injection Hs as <-.
    rewrite (set_phase_eq _ _ a) by done.
    apply invariant_set_phase; try done.
    + by rewrite Hp.
    + specialize (Hph n a Ha). unfold phase_ok in *. rewrite Hp in Hph. simpl.
      destruct Hph as (it & Hit & Hst & _). by exists it.
    + intros k Hk. by left.
  - destruct (activations st !! n) as [a|] eqn:Ha; simpl in Hs; [|done].
    destruct (at_phase a) eqn:Hp; try done. injection Hs as <-.
    unfold on_catch. rewrite (set_phase_eq _ _ a) by done. simpl.
    apply invariant_set_phase; try done.
    + by rewrite Hp.
    + intros k' Hk'. rewrite find_update_found by done. by rewrite decide_False.
    + by apply update_found_elem_ids.
    + specialize (Hph n a Ha). unfold phase_ok in *. rewrite Hp in Hph. simpl.
      destruct Hph as (it & Hit & _). rewrite find_update_found by done.
      rewrite decide_True by done. rewrite Hit. simpl. by eexists.
    + intros k Hk. by left.
  - destruct (activations st !! n) as [a|] eqn:Ha; simpl in Hs; [|done].
    destruct (at_phase a) eqn:Hp; try done. injection Hs as <-.
    unfold with_queue.
    rewrite <-(list_insert_id (activations st) n a Ha).
    replace a with (Activation (uploadId a) transferring) at 2
      by (destruct a; simpl in *; by subst).
    apply invariant_set_phase; try done.
    + by rewrite Hp.
    + intros k' Hk'. rewrite find_update_found by done. by rewrite decide_False.
    + by apply update_found_elem_ids.
    + specialize (Hph n a Ha). unfold phase_ok in *. rewrite Hp in Hph. simpl.
      destruct Hph as (it & Hit & Hst). rewrite find_update_found by done.
      rewrite decide_True by done. rewrite Hit. simpl. by eexists.
    + intros k Hk. by left.
  - destruct (activations st !! n) as [a|] eqn:Ha; simpl in Hs; [|done].
    destruct (at_phase a) eqn:Hp; try done. injection Hs as <-.
    rewrite (set_phase_eq _ _ a) by done. simpl.
    apply invariant_set_phase; try done.
    + by rewrite Hp.
    + specialize (Hph n a Ha). unfold phase_ok in *. rewrite Hp in Hph. simpl.
      destruct Hph as (it & Hit & Hst). intros it' Hit'. congruence.
    + intros k [Hk|Hk%list_elem_of_singleton]%elem_of_app; [by left|by right].
  - destruct (activations st !! n) as [a|] eqn:Ha; simpl in Hs; [|done].
    destruct (at_phase a) eqn:Hp; try done. injection Hs as <-.
    unfold on_catch. rewrite (set_phase_eq _ _ a) by done. simpl.
    apply invariant_set_phase; try done.
    + by rewrite Hp.
    + intros k' Hk'. rewrite find_update_found by done. by rewrite decide_False.
    + by apply update_found_elem_ids.
    + specialize (Hph n a Ha). unfold phase_ok in *. rewrite Hp in Hph. simpl.
      destruct Hph as (it & Hit & _). rewrite find_update_found by done.
      rewrite decide_True by done. rewrite Hit. simpl. by eexists.
    + intros k Hk. by left.
  - destruct (removals st !! t) as [k|] eqn:Hk; simpl in Hs; [|done].
    injection Hs as <-. split_and!; simpl.
    + intros n a Ha. specialize (Hph n a Ha).
      destruct (decide (uploadId a = k)) as [Heq|Hne].
      * assert (Hin : k ∈ removals st) by (apply list_elem_of_lookup; eauto).
        destruct (Hrem k Hin) as (m & Hm).
        assert (n = m) as -> by (by eapply ids_inj).
        rewrite Ha in Hm. injection Hm as ->. unfold phase_ok. simpl.
        intros it. rewrite find_filter. by rewrite decide_True.
      * apply (phase_ok_ext (uploadQueue st)); [|done].
        rewrite find_filter. by rewrite decide_False.
    + intros it [_ Hit]%list_elem_of_filter. by apply Hq.
    + intros k' Hk'%elem_of_remove_nth. by apply Hrem.
Qed.

(** Once an activation has returned or was caught, no turn of the
    event loop changes its item; a returned one loses it to the timer. *)
Lemma terminal_unchanged st e st' n a :
  step st e = Some st' → in_time st e = true → NoDup (ids st') → invariant st →
  activations st !! n = Some a → terminal a →
  activations st' !! n = Some a ∧
  (find (uploadId a) (uploadQueue st') = find (uploadId a) (uploadQueue st) ∨
   (at_phase a = returned ∧ find (uploadId a) (uploadQueue st') = None)).
Proof.
  intros Hs Ht Hnd' (Hph & Hq & Hrem) Ha Hterm.
  pose proof (step_NoDup _ _ _ Hs Hnd') as Hnd.
  assert (Hother : ∀ m b, activations st !! m = Some b →
            at_phase b = requesting ∨ at_phase b = transferring →
            m ≠ n ∧ uploadId a ≠ uploadId b).
  { intros m b Hb Hpb.
    assert (m ≠ n) by (intros ->; rewrite Ha in Hb; injection Hb as ->;
                       destruct Hterm as [|[|]], Hpb; congruence).
    split; [done|]. intros Heq.
    assert (n = m) by (by eapply (ids_inj st n m a b)). congruence. }
  destruct e as [f k|m|m|m v|m|m|t]; simpl in Hs, Ht.
  - injection Hs as <-. simpl. split; [by apply lookup_app_l_Some|]. left.
    apply find_snoc_ne. simpl. intros Heq.
    unfold ids, uploadFile in Hnd'. simpl in Hnd'. rewrite fmap_app in Hnd'.
    apply NoDup_app in Hnd' as (_ & Hfresh & _).
    apply (Hfresh k); [rewrite Heq; by eapply ids_elem_of|].
    simpl. by apply list_elem_of_singleton.
  - destruct (activations st !! m) as [b|] eqn:Hb; simpl in Hs; [|done].
    destruct (at_phase b) eqn:Hp; try done. injection Hs as <-.
    destruct (Hother m b Hb) as [Hne _]; [by left|].
    rewrite (set_phase_eq _ _ b) by done. simpl.
    split; [by rewrite list_lookup_insert_ne|by left].
  - destruct (activations st !! m) as [b|] eqn:Hb; simpl in Hs; [|done].
    destruct (at_phase b) eqn:Hp; try done. injection Hs as <-.
    destruct (Hother m b Hb) as [Hne Hid]; [by left|].
    unfold on_catch. rewrite (set_phase_eq _ _ b) by done. simpl.
    split; [by rewrite list_lookup_insert_ne|]. left.
    rewrite find_update_found by done. by rewrite decide_False.
  - destruct (activations st !! m) as [b|] eqn:Hb; simpl in Hs; [|done].
    destruct (at_phase b) eqn:Hp; try done. injection Hs as <-.
    destruct (Hother m b Hb) as [Hne Hid]; [by right|]. simpl.
    split; [done|]. left.
    rewrite find_update_found by done. by rewrite decide_False.
  - destruct (activations st !! m) as [b|] eqn:Hb; simpl in Hs; [|done].
    destruct (at_phase b) eqn:Hp; try done. injection Hs as <-.
    destruct (Hother m b Hb) as [Hne _]; [by right|].
    rewrite (set_phase_eq _ _ b) by done. simpl.
    split; [by rewrite list_lookup_insert_ne|by left].
  - destruct (activations st !! m) as [b|] eqn:Hb; simpl in Hs; [|done].
    destruct (at_phase b) eqn:Hp; try done. injection Hs as <-.
    destruct (Hother m b Hb) as [Hne Hid]; [by right|].
    unfold on_catch. rewrite (set_phase_eq _ _ b) by done. simpl.
    split; [by rewrite list_lookup_insert_ne|]. left.
    rewrite find_update_found by done. by rewrite decide_False.
  - destruct (removals st !! t) as [k|] eqn:Hk; simpl in Hs; [|done].
    injection Hs as <-. simpl. split; [done|]. rewrite find_filter.
    destruct (decide (uploadId a = k)) as [Heq|Hne]; [right|by left].
    split; [|done].
    assert (Hin : k ∈ removals st) by (apply list_elem_of_lookup; eauto).
    destruct (Hrem k Hin) as (m & Hm).
    assert (n = m) as -> by (by eapply ids_inj).
    rewrite Ha in Hm. by injection Hm as ->.
Qed.

Lemma start_invariant : invariant (@start Key).
Proof.
  split_and!; simpl.
  - intros n a Hn. done.
  - intros it Hit. by apply elem_of_nil in Hit.
  - intros k Hk. by apply elem_of_nil in Hk.
Qed.

Lemma run_NoDup es : ∀ st st',
  run st es = Some st' → NoDup (ids st') → NoDup (ids st).
Proof.
  induction es as [|e es IH]; intros st st'; simpl.
  - by intros [= <-].
  - destruct (step st e) as [st1|] eqn:Hs; simpl; [|done].
    intros Hrun Hnd. eapply step_NoDup; [exact Hs|]. by eapply IH.
Qed.

Lemma run_invariant es : ∀ st st',
  run st es = Some st' → timely st es = true → NoDup (ids st') →
  invariant st → invariant st'.
Proof.
  induction es as [|e es IH]; intros st st'; simpl.
  - by intros [= <-].
  - destruct (step st e) as [st1|] eqn:Hs; simpl; [|done].
    intros Hrun [Ht Hts]%andb_true_iff Hnd Hinv. eapply IH; [exact Hrun|done|done|].
    eapply step_invariant; [exact Hs|done| |done]. by eapply run_NoDup.
Qed.


End UploadQueue_facts.

(** ** Worked instances *)

Section Instances.
Import Js Browser Scenario.

Lemma connect_is_not_single_flight_instance :
  (∃ w, Websocket.run (Key:=nat) parse throwing endpoint encode
          (Websocket.start (Some "jwt"))
          [Websocket.Connect (Some "f-001") page;
           Websocket.Connect (Some "f-001") page] = Some w ∧
        length (Websocket.sockets w) = 2%nat ∧
        Websocket.readyState_of w 0 = Some CONNECTING ∧
        Websocket.readyState_of w 1 = Some CONNECTING ∧
        Websocket.ws (Websocket.this w) = Some 1%nat) ∧
  (∃ v1 v,
     WebsocketService.run parse throwing quiet endpoint encode
       (WebsocketService.start None)
       [WebsocketService.Connect ""; WebsocketService.Resume 0 (Some "jwt");
        WebsocketService.Open 0; WebsocketService.Disconnect;
        WebsocketService.Connect ""; WebsocketService.Resume 0 (Some "jwt");
        WebsocketService.Close 0 1000] = Some v1 ∧
     WebsocketService.getStatus v1 = "connecting" ∧
     length (WebsocketService.sockets v1) = 2%nat ∧
     WebsocketService.run parse throwing quiet endpoint encode v1
       [WebsocketService.Connect ""; WebsocketService.Resume 0 (Some "jwt")]
       = Some v ∧
     length (WebsocketService.sockets v) = 3%nat ∧
     WebsocketService.readyState_of v 1 = Some CONNECTING ∧
     WebsocketService.readyState_of v 2 = Some CONNECTING).
Proof.
  apply (connect_is_not_single_flight (Key:=nat) parse throwing quiet endpoint
           endpoint encode (Some "jwt") (Some "f-001") page (Some "f-001") page
           None "" "jwt").
  - reflexivity.
  - discriminate.
  - discriminate.
Defined.

Lemma disconnect_keeps_pending_retry_instance :
  (∃ w0 w,
     Websocket.run (Key:=nat) parse throwing endpoint encode
       (Websocket.start (Some "jwt"))
       [Websocket.Connect (Some "f-001") page; Websocket.Open 0 11%nat;
        Websocket.Close 0 1006; Websocket.Disconnect] = Some w0 ∧
     length (Websocket.timers w0) = 1%nat ∧
     length (Websocket.sockets w0) = 1%nat ∧
     Websocket.step parse throwing endpoint encode w0 (Websocket.Timeout 0)
       = Some w ∧
     length (Websocket.sockets w) = 2%nat ∧
     Websocket.readyState_of w 1 = Some CONNECTING) ∧
  (∃ v0 v,
     WebsocketService.run parse throwing quiet endpoint encode
       (WebsocketService.start None)
       [WebsocketService.Connect ""; WebsocketService.Resume 0 (Some "jwt");
        WebsocketService.Open 0; WebsocketService.Close 0 1006;
        WebsocketService.Disconnect] = Some v0 ∧
     length (WebsocketService.timers v0) = 1%nat ∧
     length (WebsocketService.sockets v0) = 1%nat ∧
     WebsocketService.run parse throwing quiet endpoint encode v0
       [WebsocketService.Timeout 0; WebsocketService.Resume 0 (Some "jwt")]
       = Some v ∧
     length (WebsocketService.sockets v) = 2%nat ∧
     WebsocketService.readyState_of v 1 = Some CONNECTING).
Proof.
  apply (disconnect_keeps_pending_retry (Key:=nat) parse throwing quiet endpoint
           endpoint encode (Some "jwt") (Some "f-001") page 11%nat None ""
           "jwt" 1006).
  - reflexivity.
  - discriminate.
  - discriminate.
  - discriminate.
Defined.

Lemma abnormal_close_schedules_retry_instance :
  Websocket.reconnectAttempts (Websocket.this closed)
    = Websocket.reconnectAttempts (Websocket.this opened) + 1 ∧
  ∃ cbs, Websocket.timers closed
         = Websocket.timers opened
           ++ [Websocket.Timer
                 (1000 * Websocket.reconnectAttempts (Websocket.this closed)) cbs].
Proof.
  destruct (abnormal_close_schedules_retry (Key:=nat) parse throwing quiet endpoint
              endpoint encode) as [Hbirdtag _].
  apply (Hbirdtag opened closed 0%nat 1006).
  - vm_compute. reflexivity.
  - discriminate.
  - reflexivity.
Defined.

(** C4. The retry delay of the bird-tag service does not grow: the
    first socket closes abnormally before it opens, the retry fires,
    and the second socket closes abnormally too.  Both closes are below
    the attempt bound and raise [reconnectAttempts], to 1 and to 2, and
    both schedule their retry after the same 3000 ms: the delay does
    not grow with the attempt. *)
Theorem reconnect_delay_does_not_grow :
  ∃ v1 v2 t1 t2,
    WebsocketService.run parse throwing quiet endpoint encode
      (WebsocketService.start (Some "jwt"))
      [WebsocketService.Connect ""; WebsocketService.Resume 0 None;
       WebsocketService.Close 0 1006] = Some v1 ∧
    WebsocketService.run parse throwing quiet endpoint encode v1
      [WebsocketService.Timeout 0; WebsocketService.Resume 0 None;
       WebsocketService.Close 1 1006] = Some v2 ∧
    last (WebsocketService.timers v1) = Some t1 ∧
    last (WebsocketService.timers v2) = Some t2 ∧
    WebsocketService.reconnectAttempts (WebsocketService.this v1)
      < WebsocketService.reconnectAttempts (WebsocketService.this v2) ∧
    ¬ (WebsocketService.delay t1 < WebsocketService.delay t2).
Proof.
  eexists _, _, _, _. split_and!.
  - vm_compute. reflexivity.
  - vm_compute. reflexivity.
  - reflexivity.
  - reflexivity.
  - vm_compute. reflexivity.
  - vm_compute. discriminate.
Qed.

Lemma malformed_dropped_handlers_isolated_instance :
  Websocket.this garbled = Websocket.this opened ∧
  Websocket.sockets garbled = Websocket.sockets opened ∧
  Websocket.timers garbled = Websocket.timers opened ∧
  Websocket.out garbled
  = Websocket.out opened
    ++ [Websocket.console_error "Failed to parse WebSocket message:"].
Proof.
  destruct (malformed_dropped_handlers_isolated (Key:=nat) parse throwing quiet
              endpoint endpoint encode) as [Hbirdtag _].
  apply (Hbirdtag opened garbled 0%nat "{"). vm_compute. reflexivity.
Defined.

Lemma reconnects_multiply_listener_instance :
  ∃ w w',
    Websocket.run parse throwing endpoint encode (Websocket.start (Some "jwt"))
      (Websocket.session (Some "f-001") page 11%nat [(1006, 12%nat); (1001, 13%nat)])
      = Some w ∧
    Websocket.listeners (Websocket.this w)
      = [(11%nat, 7%nat); (12%nat, 7%nat); (13%nat, 7%nat)] ∧
    Websocket.step parse throwing endpoint encode w (Websocket.Message 2 "update")
      = Some w' ∧
    Websocket.calls (Websocket.out w')
      = [(7%nat, "update"); (7%nat, "update"); (7%nat, "update")].
Proof.
  apply (reconnects_multiply_listener parse throwing endpoint encode (Some "jwt")
           (Some "f-001") page 7%nat 11%nat [(1006, 12%nat); (1001, 13%nat)]
           "update" "update").
  - reflexivity.
  - reflexivity.
  - repeat constructor; discriminate.
  - apply (NoDup_seq 11 3).
  - reflexivity.
Defined.

Lemma credential_resolution_instance :
  AuthService.getUserSession decode to_number AuthService.getSession_err
    (stored "stale") clock = AuthService.rejected AuthService.Token_expired.
Proof.
  destruct (credential_resolution decode to_number) as (_ & _ & _ & _ & Hexpired).
  apply (Hexpired AuthService.getSession_err (stored "stale") clock
           "stale" "access" {[ "exp" := Num 1000 ]} 1000).
  - reflexivity.
  - vm_compute. reflexivity.
  - discriminate.
  - vm_compute. reflexivity.
  - discriminate.
  - reflexivity.
  - vm_compute. reflexivity.
  - discriminate.
  - reflexivity.
Defined.

(** C5. The lookup misses the expiry where [exp] is the epoch itself:
    that expiry has passed at every later clock, yet [0] is falsy for
    the test [tokenPayload.exp && ...] under the comment 'Check if
    token is expired', and the stored credential is returned instead
    of the rejection 'Token expired'. *)
Lemma epoch_expiry_is_accepted :
  ∃ p s, decode "epoch" = Some p ∧ p !! "exp" = Some (Num 0) ∧ 0 < clock ∧
         AuthService.getUserSession decode to_number AuthService.no_current_user
           (stored "epoch") clock = AuthService.resolved s ∧
         AuthService.idToken s = "epoch" ∧
         AuthService.getUserSession decode to_number AuthService.no_current_user
           (stored "epoch") clock ≠ AuthService.rejected AuthService.Token_expired.
Proof.
  eexists _, _. split_and!.
  - reflexivity.
  - vm_compute. reflexivity.
  - reflexivity.
  - vm_compute. reflexivity.
  - reflexivity.
  - vm_compute. discriminate.
Qed.



(** The progress callback tests neither the status of its item nor
    whether the transfer has settled: called after the transfer was
    rejected, it writes the progress of the failed item.  The
    lifecycle above therefore takes progress to be reported in time. *)
Lemma late_progress_is_written :
  UploadQueue.in_time (after upload_failed) (UploadQueue.OnProgress 0 (finite 70))
    = false ∧
  UploadQueue.uploadQueue
    <$> UploadQueue.step (after upload_failed) (UploadQueue.OnProgress 0 (finite 70))
    = Some [UploadQueue.UploadItem 1%nat bird_jpg (finite 70) "error"].
Proof. split; reflexivity. Qed.

Lemma request_sends_token_in_body_instance :
  let o := {| Api.method := Some "POST"; Api.headers := ∅;
              Api.body := Some (Api.body_object {[ "filename" := Str "bird.jpg" ]}) |} in
  let sent := Api.request unparsed stringify "https://api.invalid/dev"
                (Some "jwt") "/upload-file" o in
  Api.fetch_body sent
    = stringify (<["token" := Str "jwt"]> (Api.parsed_body unparsed o)) ∧
  (<["token" := Str "jwt"]> (Api.parsed_body unparsed o)) !! "token"
    = Some (Str "jwt") ∧
  Api.fetch_method sent = Api.method o ∧
  Api.fetch_headers sent !! "Authorization" = Api.headers o !! "Authorization".
Proof.
  intros o sent.
  apply (request_sends_token_in_body unparsed stringify "https://api.invalid/dev"
           "jwt" "/upload-file" o).
  - discriminate.
  - reflexivity.
Defined.

End Instances.

Section WebsocketTrace_facts.
Import Browser Websocket WebsocketTrace.

Context {Data Key : Type} `{EqDecision Key}.
Variable JSON_parse : string → option Data.
Variable throws : callback → Data → bool.
Variable WEBSOCKET_API_URL : string.
Variable encodeURIComponent : string → string.

Local Abbreviation step := (Websocket.step JSON_parse throws WEBSOCKET_API_URL encodeURIComponent).
Local Abbreviation run := (Websocket.run JSON_parse throws WEBSOCKET_API_URL encodeURIComponent).
Local Abbreviation world := (@Websocket.world Data Key).

Implicit Types (w : world) (ls : list (Key * callback)).

Lemma notify_relog l data ls w :
  notify throws data ls (relog l w) = relog l (notify throws data ls w).
Proof.
  revert w. induction ls as [|[k c] rest IH]; intros w; [done|].
  cbn [notify]. destruct (throws c data).
  - rewrite <-IH. f_equal. destruct w. simpl. by rewrite !app_assoc.
  - rewrite <-IH. f_equal. destruct w. simpl. by rewrite !app_assoc.
Qed.

Lemma step_relog l w e : step (relog l w) e = relog l <$> step w e.
Proof.
  destruct w as [[cur att lst fid] socks tms tok o].
  destruct e as [f cbs| |data|s id|s payload|s|s code|t]; unfold Websocket.step.
  5: { simpl. destruct (socks !! s) as [k|] eqn:Hk; simpl; [|done].
       case_bool_decide; simpl; [|done]. unfold onmessage.
       destruct (JSON_parse payload) as [data|]; simpl.
       - unfold notifyListeners. simpl.
         by rewrite <-(notify_relog l data lst (World _ _ _ _ _)).
       - by rewrite app_assoc. }
  all: unfold send; simpl.
  all: try (destruct (socks !! s) as [k|] eqn:Hk; simpl; [|done]).
  all: try (destruct (tms !! t) as [tm|] eqn:Ht; simpl; [|done]).
  all: repeat (case_match; simpl in *; simplify_eq); simpl;
       rewrite ?app_assoc; try reflexivity.
Qed.

Lemma run_relog l es : ∀ w, run (relog l w) es = relog l <$> run w es.
Proof.
  induction es as [|e es IH]; intros w; simpl; [done|].
  rewrite step_relog. destruct (step w e) as [w1|]; simpl; [apply IH|done].
Qed.

Lemma sent_app (a b : list (@output Data)) : sent (a ++ b) = sent a ++ sent b.
Proof. unfold sent. apply omap_app. Qed.

Lemma length_remove_nth {A} (t : nat) (l : list A) :
  (t < length l)%nat → length (remove_nth t l) = (length l - 1)%nat.
Proof.
  revert t. induction l as [|x l IH]; intros [|t]; simpl; try lia.
  intros Ht. rewrite IH by lia. lia.
Qed.

(** A message handed to [send] while the current socket is not open is
    dropped for good: the rest of the run goes on as if [send] had not
    been called, the console warning apart.  Nothing is queued for a
    later open.  On an open socket the message is sent at once. *)
Theorem send_sends_now_or_never w data :
  (isConnected w = true →
   ∃ s, ws (this w) = Some s ∧ readyState_of w s = Some OPEN ∧
        send data w = emit (ws_send s data) w) ∧
  (isConnected w = false →
   ∀ es w', run (send data w) es = Some w' →
     ∃ w'', run w es = Some w'' ∧
            this w' = this w'' ∧ sockets w' = sockets w'' ∧ timers w' = timers w'' ∧
            sent (out w') = sent (out w'') ∧ calls (out w') = calls (out w'')).
Proof.
  split.
  - unfold isConnected, send. destruct (ws (this w)) as [s|]; [|done].
    intros Hs. rewrite Hs. exists s. by apply bool_decide_eq_true in Hs.
  - intros Hc es w' Hrun.
    assert (Hsend : send data w = emit (console_warn "WebSocket is not connected") w).
    { unfold isConnected in Hc. unfold send. destruct (ws (this w)); [|done].
      by rewrite Hc. }
    rewrite Hsend in Hrun.
    set (w0 := with_out [] w).
    assert (Hw : w = relog (out w) w0) by (destruct w; simpl; by rewrite app_nil_r).
    assert (He : emit (console_warn "WebSocket is not connected") w
                 = relog (out w ++ [console_warn "WebSocket is not connected"]) w0)
      by (destruct w; simpl; by rewrite app_nil_r).
    rewrite He, run_relog in Hrun.
    pose proof (run_relog (out w) es w0) as Hrw. rewrite <-Hw in Hrw. rewrite Hrw.
    destruct (run w0 es) as [w1|]; simpl in *; [|done].
    injection Hrun as <-. eexists. split; [reflexivity|].
    destruct w1. simpl. rewrite !sent_app, !calls_app. simpl.
    by rewrite !app_nil_r.
Qed.

Lemma step_budget w e w' :
  step w e = Some w' → is_Open e = false →
  0 ≤ reconnectAttempts (this w) ≤ maxReconnectAttempts →
  reconnectAttempts (this w) ≤ reconnectAttempts (this w') ≤ maxReconnectAttempts ∧
  Z.of_nat (length (timers w')) + (if is_Timeout e then 1 else 0)
  = Z.of_nat (length (timers w))
    + (reconnectAttempts (this w') - reconnectAttempts (this w)).
Proof.
  destruct w as [[cur att lst fid] socks tms tok o].
  destruct e as [f cbs| |data|s id|s payload|s|s code|t]; unfold Websocket.step;
    intros Hs Ho Hr; try discriminate Ho; simpl in Hr.
  4: { simpl in Hs. destruct (socks !! s) as [k|] eqn:Hk; simpl in Hs; [|done].
       case_bool_decide; simpl in Hs; [|done]. injection Hs as <-.
       unfold onmessage. destruct (JSON_parse payload) as [data|]; simpl; [|lia].
       unfold notifyListeners.
       destruct (notify_frame throws data lst
                   (World (Service cur att lst fid) socks tms tok o))
         as (Ht & _ & Htm & _).
       simpl in Ht, Htm |- *. rewrite Ht, Htm. simpl. lia. }
  all: unfold send in Hs; simpl in Hs.
  all: try (destruct (socks !! s) as [k|] eqn:Hk; simpl in Hs; [|done]).
  all: try (destruct (tms !! t) as [tm|] eqn:Ht; simpl in Hs; [|done]).
  all: try (apply lookup_lt_Some in Ht; pose proof (length_remove_nth t tms Ht)).
  all: repeat (case_match; simpl in *; simplify_eq); simpl;
       rewrite ?length_app; simpl; unfold maxReconnectAttempts in *;
       try lia.
Qed.

Lemma run_budget es : ∀ w w',
  run w es = Some w' → Forall (λ e, is_Open e = false) es →
  0 ≤ reconnectAttempts (this w) ≤ maxReconnectAttempts →
  reconnectAttempts (this w) ≤ reconnectAttempts (this w') ≤ maxReconnectAttempts ∧
  Z.of_nat (length (timers w') + fired es)
  = Z.of_nat (length (timers w))
    + (reconnectAttempts (this w') - reconnectAttempts (this w)).
Proof.
  induction es as [|e es IH]; intros w w'; simpl.
  - intros [= <-] _ Hr. unfold fired. simpl. lia.
  - destruct (step w e) as [w1|] eqn:Hs; simpl; [|done].
    intros Hrun [He Hes]%Forall_cons Hr.
    destruct (step_budget _ _ _ Hs He Hr) as [Hr1 Ht1].
    destruct (IH _ _ Hrun Hes) as [Hr2 Ht2]; [lia|].
    split; [lia|]. unfold fired in *. rewrite filter_cons.
    destruct (is_Timeout e); simpl in *; lia.
Qed.

Lemma step_attempts_range w e w' :
  step w e = Some w' →
  0 ≤ reconnectAttempts (this w) ≤ maxReconnectAttempts →
  0 ≤ reconnectAttempts (this w') ≤ maxReconnectAttempts.
Proof.
  destruct (is_Open e) eqn:Ho.
  - destruct e; try discriminate Ho. intros Hs _.
    unfold Websocket.step in Hs. destruct w as [[cur att lst fid] socks tms tok o].
    simpl in Hs. destruct (socks !! s) as [k|]; simpl in Hs; [|done].
    case_bool_decide; [|done]. injection Hs as <-.
    destruct (onMessage (closure k)); simpl; by unfold maxReconnectAttempts.
  - intros Hs Hr. destruct (step_budget _ _ _ Hs Ho Hr) as [? _]. lia.
Qed.

Lemma run_attempts_range es : ∀ w w',
  run w es = Some w' →
  0 ≤ reconnectAttempts (this w) ≤ maxReconnectAttempts →
  0 ≤ reconnectAttempts (this w') ≤ maxReconnectAttempts.
Proof.
  induction es as [|e es IH]; intros w w'; simpl.
  - by intros [= <-].
  - destruct (step w e) as [w1|] eqn:Hs; simpl; [|done].
    intros Hrun Hr. eapply IH; [exact Hrun|]. by eapply step_attempts_range.
Qed.

(** The retry budget of the birdtag service.  At any point of any run,
    in a stretch of events in which no socket opens (calls of
    [connect], [disconnect] and [send], errors, closes with any code,
    retry timers firing), the retries scheduled in the stretch, pending
    or fired, number exactly the growth of [reconnectAttempts], and
    that counter never leaves [0..5]: at most five retries are
    scheduled between two successful opens. *)
Theorem retries_are_bounded token es1 es2 w w' :
  run (start token) es1 = Some w → run w es2 = Some w' →
  Forall (λ e, is_Open e = false) es2 →
  0 ≤ reconnectAttempts (this w) ∧
  reconnectAttempts (this w') ≤ maxReconnectAttempts ∧
  Z.of_nat (length (timers w') + fired es2)
  = Z.of_nat (length (timers w))
    + (reconnectAttempts (this w') - reconnectAttempts (this w)).
Proof.
  intros Hrun1 Hrun2 Hes.
  assert (Hr : 0 ≤ reconnectAttempts (this w) ≤ maxReconnectAttempts).
  { eapply run_attempts_range; [exact Hrun1|]. simpl. by unfold maxReconnectAttempts. }
  destruct (run_budget _ _ _ Hrun2 Hes Hr) as [? ?]. split_and!; [lia..|done].
Qed.

(** What a close event does in birdtag, whichever socket it comes from:
    the reference to the current socket is dropped.  A retry is
    scheduled exactly when the code is not 1000 and fewer than five
    attempts were made; [onClose] is not called then.  Otherwise
    nothing is scheduled and [onClose], if the page gave one, is called
    once with the close code. *)
Theorem close_retries_or_reports w s code w' :
  step w (Close s code) = Some w' →
  ∃ k, sockets w !! s = Some k ∧
    ws (this w') = None ∧ readyState_of w' s = Some CLOSED ∧
    if bool_decide (code ≠ 1000 ∧ reconnectAttempts (this w) < maxReconnectAttempts)
    then reconnectAttempts (this w') = reconnectAttempts (this w) + 1 ∧
         timers w' = timers w
           ++ [Timer (reconnectDelay * (reconnectAttempts (this w) + 1)) (closure k)] ∧
         out w' = out w ++ [console_log "WebSocket closed"]
    else reconnectAttempts (this w') = reconnectAttempts (this w) ∧
         timers w' = timers w ∧
         out w' = out w ++ console_log "WebSocket closed"
                    :: match onClose (closure k) with
                       | Some cb => [called_onClose cb code]
                       | None => []
                       end.
Proof.
  destruct w as [[cur att lst fid] socks tms tok o]. unfold Websocket.step. simpl.
  destruct (socks !! s) as [k|] eqn:Hk; simpl; [|done].
  case_bool_decide; [done|]. intros [= <-]. exists k. split; [done|].
  assert (Hlen : (s < length socks)%nat) by (by eapply lookup_lt_Some).
  case_bool_decide as Hd.
  - destruct Hd as [Hc Ha].
    destruct (Z.eqb_spec code 1000) as [|_]; [done|].
    destruct (Z.ltb_spec att maxReconnectAttempts) as [_|]; [|lia].
    simpl. rewrite list_lookup_insert_eq by done. done.
  - assert (negb (code =? 1000) && (att <? maxReconnectAttempts) = false) as ->.
    { destruct (Z.eqb_spec code 1000) as [|Hc]; [done|].
      destruct (Z.ltb_spec att maxReconnectAttempts) as [Ha|]; [|done].
      by destruct Hd. }
    destruct (onClose (closure k)); simpl; rewrite list_lookup_insert_eq by done;
      split_and!; try done; by rewrite <-app_assoc.
Qed.

(** [disconnect()] in birdtag: a second call changes nothing, not even
    the console; afterwards the service is not connected, holds no
    listener, and a message arriving on whichever socket is still open
    calls nobody. *)
Theorem disconnect_is_idempotent_and_silences w :
  disconnect (disconnect w) = disconnect w ∧
  isConnected (disconnect w) = false ∧
  listeners (this (disconnect w)) = [] ∧
  fileId (this (disconnect w)) = None ∧
  ∀ s payload w', step (disconnect w) (Message s payload) = Some w' →
                  calls (out w') = calls (out (disconnect w)).
Proof.
  destruct w as [[cur att lst fid] socks tms tok o].
  split_and!.
  - simpl. destruct cur as [s|]; simpl; [|done].
    destruct (socks !! s); simpl; done.
  - simpl. destruct cur as [s|]; simpl; [|done].
    destruct (socks !! s); simpl; done.
  - simpl. destruct cur as [s|]; simpl; [|done].
    destruct (socks !! s); simpl; done.
  - simpl. destruct cur as [s|]; simpl; [|done].
    destruct (socks !! s); simpl; done.
  - intros s payload w'. unfold Websocket.step.
    set (w1 := disconnect _).
    assert (Hl : listeners (this w1) = []).
    { unfold w1. simpl. destruct cur as [c|]; simpl; [|done].
      destruct (socks !! c); simpl; done. }
    clearbody w1. destruct (sockets w1 !! s) as [k|]; simpl; [|done].
    case_bool_decide; [|done]. intros [= <-]. unfold onmessage.
    destruct (JSON_parse payload) as [data|].
    + unfold notifyListeners. rewrite Hl. done.
    + destruct w1. simpl. rewrite calls_app. simpl. by rewrite app_nil_r.
Qed.

End WebsocketTrace_facts.

Section WebsocketServiceTrace_facts.
Import Browser WebsocketService WebsocketServiceTrace.

Context {Data : Type}.
Variable JSON_parse : string → option Data.
Variable throws : callback → Data → bool.
Variable status_throws : callback → string → bool.
Variable websocketApiUrl : string.
Variable encodeURIComponent : string → string.

Local Abbreviation step :=
  (WebsocketService.step JSON_parse throws status_throws websocketApiUrl
     encodeURIComponent).
Local Abbreviation run :=
  (WebsocketService.run JSON_parse throws status_throws websocketApiUrl
     encodeURIComponent).
Local Abbreviation world := (@WebsocketService.world Data).

Implicit Types (w : world) (hs : list callback).

Lemma service_notify_relog l data hs w :
  notify throws data hs (relog l w) = relog l (notify throws data hs w).
Proof.
  revert w. induction hs as [|h rest IH]; intros w; [done|].
  cbn [notify]. destruct (throws h data); rewrite <-IH; f_equal;
    destruct w; simpl; by rewrite !app_assoc.
Qed.

Lemma notify_status_relog l status code hs w :
  notify_status status_throws status code hs (relog l w)
  = relog l (notify_status status_throws status code hs w).
Proof.
  revert w. induction hs as [|h rest IH]; intros w; [done|].
  cbn [notify_status]. destruct (status_throws h status); rewrite <-IH; f_equal;
    destruct w; simpl; by rewrite !app_assoc.
Qed.

Lemma service_step_relog l w e : step (relog l w) e = relog l <$> step w e.
Proof.
  destruct w as [[cur att mh ch flag] socks tms pend tok o].
  destruct e as [f|i session| |data|h|h|h|h|s|s payload|s|s code|t];
    unfold WebsocketService.step;
    unfold send, onMessage, offMessage, onConnectionChange, offConnectionChange,
      onmessage, onerror, notifyMessageHandlers; simpl;
    try (destruct (socks !! s) as [k|] eqn:Hk; simpl; [|done]);
    try (destruct (tms !! t) as [tm|] eqn:Ht; simpl; [|done]);
    try (destruct (pend !! i) as [f|] eqn:Hi; simpl; [|done]);
    try (destruct (JSON_parse payload) as [d|]; simpl);
    try case_bool_decide; simpl; try done;
    rewrite <-?app_assoc;
    repeat match goal with
    | |- context [notify_status _ ?st ?c ?hs (World ?t ?a ?b ?p ?k (l ++ ?o'))] =>
        change (World t a b p k (l ++ o')) with (relog l (World t a b p k o'));
        rewrite notify_status_relog;
        destruct (notify_status status_throws st c hs (World t a b p k o'))
          as [[? ? ? ? ?] ? ? ? ? ?]
    | |- context [notify _ ?d ?hs (World ?t ?a ?b ?p ?k (l ++ ?o'))] =>
        change (World t a b p k (l ++ o')) with (relog l (World t a b p k o'));
        rewrite service_notify_relog;
        destruct (notify throws d hs (World t a b p k o'))
          as [[? ? ? ? ?] ? ? ? ? ?]
    end;
    repeat (case_match; simpl in *; simplify_eq); simpl;
    rewrite <-?app_assoc; try reflexivity.
Qed.

Lemma service_run_relog l es : ∀ w, run (relog l w) es = relog l <$> run w es.
Proof.
  induction es as [|e es IH]; intros w; simpl; [done|].
  rewrite service_step_relog. destruct (step w e) as [w1|]; simpl; [apply IH|done].
Qed.

Lemma service_sent_app (a b : list (@output Data)) : sent (a ++ b) = sent a ++ sent b.
Proof. unfold sent. apply omap_app. Qed.

Lemma statuses_app (a b : list (@output Data)) :
  statuses (a ++ b) = statuses a ++ statuses b.
Proof. unfold statuses. apply omap_app. Qed.

(** What the two notification loops put on record. *)
Lemma notify_effects data hs w :
  statuses (out (notify throws data hs w)) = statuses (out w) ∧
  sent (out (notify throws data hs w)) = sent (out w).
Proof.
  revert w. induction hs as [|h rest IH]; intros w; [done|].
  cbn [notify]. destruct (throws h data);
    match goal with |- context [notify _ _ _ ?x] =>
      destruct (IH x) as [-> ->] end;
    destruct w; simpl; rewrite ?statuses_app, ?service_sent_app; simpl;
    by rewrite ?app_nil_r.
Qed.

Lemma notify_status_effects status code hs w :
  statuses (out (notify_status status_throws status code hs w))
  = statuses (out w) ++ ((λ h, (h, status, code)) <$> hs) ∧
  sent (out (notify_status status_throws status code hs w)) = sent (out w).
Proof.
  revert w. induction hs as [|h rest IH]; intros w.
  - simpl. by rewrite app_nil_r.
  - cbn [notify_status fmap list_fmap]. destruct (status_throws h status);
      match goal with |- context [notify_status _ _ _ _ ?x] =>
        destruct (IH x) as [-> ->] end;
      destruct w; simpl; rewrite ?statuses_app, ?service_sent_app; simpl;
      by rewrite <-?app_assoc, ?app_nil_r.
Qed.

(** Replaces the result of a notification loop by a world that is
    given by its fields, with what the loop is known to keep. *)
Ltac loops :=
  repeat match goal with
  | |- context [notify_status ?f ?st ?c ?hs ?x] =>
      let F := fresh "F" in
      let E := fresh "E" in
      pose proof (notify_status_frame f st c hs x) as F;
      pose proof (notify_status_effects st c hs x) as E;
      destruct (notify_status f st c hs x) as [[? ? ? ? ?] ? ? ? ? ?];
      simpl in F, E; destruct F as (? & ? & ? & ? & ? & ?); destruct E as [? ?];
      simplify_eq
  | |- context [notify ?f ?d ?hs ?x] =>
      let F := fresh "F" in
      let E := fresh "E" in
      let C := fresh "C" in
      pose proof (service_notify_frame f d hs x) as F;
      pose proof (notify_effects d hs x) as E;
      pose proof (service_notify_calls f d hs x) as C;
      destruct (notify f d hs x) as [[? ? ? ? ?] ? ? ? ? ?];
      simpl in F, E, C; destruct F as (? & ? & ? & ? & ?); destruct E as [? ?];
      simplify_eq
  end.

(** A message handed to [send] while the current socket is not open is
    dropped for good. *)
Theorem service_send_sends_now_or_never w data :
  (ws_is_open w = true →
   ∃ s, ws (this w) = Some s ∧ readyState_of w s = Some OPEN ∧
        send data w = emit (ws_send s data) w) ∧
  (ws_is_open w = false →
   ∀ es w', run (send data w) es = Some w' →
     ∃ w'', run w es = Some w'' ∧
            this w' = this w'' ∧ sockets w' = sockets w'' ∧ timers w' = timers w'' ∧
            pending w' = pending w'' ∧
            sent (out w') = sent (out w'') ∧ calls (out w') = calls (out w'')).
Proof.
  split.
  - unfold send. intros Hs. rewrite Hs. unfold ws_is_open in Hs.
    destruct (ws (this w)) as [s|]; [|done].
    exists s. by apply bool_decide_eq_true in Hs.
  - intros Hc es w' Hrun. unfold send in Hrun. rewrite Hc in Hrun.
    set (w0 := with_out [] w).
    assert (Hw : w = relog (out w) w0) by (destruct w; simpl; by rewrite app_nil_r).
    assert (He : emit (console_error "WebSocket is not connected") w
                 = relog (out w ++ [console_error "WebSocket is not connected"]) w0)
      by (destruct w; simpl; by rewrite app_nil_r).
    rewrite He, service_run_relog in Hrun.
    pose proof (service_run_relog (out w) es w0) as Hrw. rewrite <-Hw in Hrw.
    rewrite Hrw. destruct (run w0 es) as [w1|]; simpl in *; [|done].
    injection Hrun as <-. eexists. split; [reflexivity|].
    destruct w1. simpl. rewrite !service_sent_app, !service_calls_app. simpl.
    by rewrite !app_nil_r.
Qed.

Lemma service_step_budget w e w' :
  step w e = Some w' → is_Open e = false →
  0 ≤ reconnectAttempts (this w) ≤ maxReconnectAttempts →
  reconnectAttempts (this w) ≤ reconnectAttempts (this w') ≤ maxReconnectAttempts ∧
  Z.of_nat (length (timers w')) + (if is_Timeout e then 1 else 0)
  ≤ Z.of_nat (length (timers w))
    + (reconnectAttempts (this w') - reconnectAttempts (this w)).
Proof.
  destruct w as [[cur att mh ch flag] socks tms pend tok o].
  destruct e as [f|i session| |data|h|h|h|h|s|s payload|s|s code|t];
    unfold WebsocketService.step; intros Hs Ho Hr; try discriminate Ho;
    simpl in Hr;
    unfold send, onMessage, offMessage, onConnectionChange, offConnectionChange,
      onmessage, onerror, notifyMessageHandlers in Hs; simpl in Hs;
    try (destruct (socks !! s) as [k|] eqn:Hk; simpl in Hs; [|done]);
    try (destruct (tms !! t) as [tm|] eqn:Ht; simpl in Hs; [|done]);
    try (destruct (pend !! i) as [f|] eqn:Hi; simpl in Hs; [|done]);
    try (destruct (JSON_parse payload) as [d|]; simpl in Hs);
    try (case_bool_decide; simpl in Hs; try done);
    try (apply lookup_lt_Some in Ht; pose proof (length_remove_nth t tms Ht));
    revert Hs; loops; intros Hs;
    repeat (case_match; simpl in *; simplify_eq); simpl;
    rewrite ?length_app; simpl; unfold maxReconnectAttempts in *; try lia.
Qed.

Lemma service_run_budget es : ∀ w w',
  run w es = Some w' → Forall (λ e, is_Open e = false) es →
  0 ≤ reconnectAttempts (this w) ≤ maxReconnectAttempts →
  reconnectAttempts (this w) ≤ reconnectAttempts (this w') ≤ maxReconnectAttempts ∧
  Z.of_nat (length (timers w') + fired es)
  ≤ Z.of_nat (length (timers w))
    + (reconnectAttempts (this w') - reconnectAttempts (this w)).
Proof.
  induction es as [|e es IH]; intros w w'; simpl.
  - intros [= <-] _ Hr. unfold fired. simpl. lia.
  - destruct (step w e) as [w1|] eqn:Hs; simpl; [|done].
    intros Hrun [He Hes]%Forall_cons Hr.
    destruct (service_step_budget _ _ _ Hs He Hr) as [Hr1 Ht1].
    destruct (IH _ _ Hrun Hes) as [Hr2 Ht2]; [lia|].
    split; [lia|]. unfold fired in *. rewrite filter_cons.
    destruct (is_Timeout e); simpl in *; lia.
Qed.

Lemma service_step_attempts_range w e w' :
  step w e = Some w' →
  0 ≤ reconnectAttempts (this w) ≤ maxReconnectAttempts →
  0 ≤ reconnectAttempts (this w') ≤ maxReconnectAttempts.
Proof.
  destruct (is_Open e) eqn:Ho.
  - destruct e; try discriminate Ho. intros Hs _.
    unfold WebsocketService.step in Hs.
    destruct w as [[cur att mh ch flag] socks tms pend tok o].
    simpl in Hs. destruct (socks !! s) as [k|]; simpl in Hs; [|done].
    case_bool_decide; [|done]. injection Hs as <-.
    loops. simpl. by unfold maxReconnectAttempts.
  - intros Hs Hr. destruct (service_step_budget _ _ _ Hs Ho Hr) as [? _]. lia.
Qed.

Lemma service_run_attempts_range es : ∀ w w',
  run w es = Some w' →
  0 ≤ reconnectAttempts (this w) ≤ maxReconnectAttempts →
  0 ≤ reconnectAttempts (this w') ≤ maxReconnectAttempts.
Proof.
  induction es as [|e es IH]; intros w w'; simpl.
  - by intros [= <-].
  - destruct (step w e) as [w1|] eqn:Hs; simpl; [|done].
    intros Hrun Hr. eapply IH; [exact Hrun|]. by eapply service_step_attempts_range.
Qed.

(** The retry budget of the bird-tag service.  At any point of any
    run, in a stretch of events in which no socket opens, the retries
    scheduled in the stretch, pending or fired, are at most the growth
    of [reconnectAttempts], which never leaves [0..5]: at most five
    retries are scheduled between two successful opens. *)
Theorem service_retries_are_bounded token es1 es2 w w' :
  run (start token) es1 = Some w → run w es2 = Some w' →
  Forall (λ e, is_Open e = false) es2 →
  0 ≤ reconnectAttempts (this w) ≤ reconnectAttempts (this w') ∧
  reconnectAttempts (this w') ≤ maxReconnectAttempts ∧
  Z.of_nat (length (timers w') + fired es2)
  ≤ Z.of_nat (length (timers w))
    + (reconnectAttempts (this w') - reconnectAttempts (this w)).
Proof.
  intros Hrun1 Hrun2 Hes.
  assert (Hr : 0 ≤ reconnectAttempts (this w) ≤ maxReconnectAttempts).
  { eapply service_run_attempts_range; [exact Hrun1|].
    simpl. by unfold maxReconnectAttempts. }
  destruct (service_run_budget _ _ _ Hrun2 Hes Hr) as [? ?]. split_and!; [lia..|done].
Qed.

(** What [disconnect()] does prevent in bird-tag: it spends the whole
    retry budget, so from a [disconnect()] made while the service holds
    a socket until some socket opens, no close event, whatever its
    code, schedules a retry; the timers that fire in that stretch were
    all pending before the call. *)
Theorem disconnect_spends_the_retry_budget w s es w' :
  ws (this w) = Some s →
  run (disconnect w) es = Some w' → Forall (λ e, is_Open e = false) es →
  (length (timers w') + fired es ≤ length (timers w))%nat ∧
  reconnectAttempts (this w') = maxReconnectAttempts.
Proof.
  intros Hs Hrun Hes.
  assert (Hd : reconnectAttempts (this (disconnect w)) = maxReconnectAttempts ∧
               timers (disconnect w) = timers w).
  { destruct w as [[cur att mh ch flag] socks tms pend tok o]. simpl in *.
    subst cur. simpl. destruct (socks !! s); done. }
  destruct Hd as [Hatt Htm].
  destruct (service_run_budget _ _ _ Hrun Hes) as [? ?]; [rewrite Hatt; done|].
  rewrite Hatt, Htm in *. split; lia.
Qed.

(** What a close event does in bird-tag: every connection handler is
    told 'closed' with the close code, whatever the code; the flag
    [isConnecting] is dropped and [this.ws] is left as it is.  A retry
    is scheduled, after the fixed [reconnectDelay], exactly when the
    code is not 1000 and fewer than five attempts were made. *)
Theorem service_close_notifies_then_retries w s code w' :
  step w (Close s code) = Some w' →
  ∃ k, sockets w !! s = Some k ∧
    ws (this w') = ws (this w) ∧ isConnecting (this w') = false ∧
    readyState_of w' s = Some CLOSED ∧
    statuses (out w')
    = statuses (out w)
      ++ ((λ h, (h, "closed", Some code)) <$> connectionHandlers (this w)) ∧
    if bool_decide (code ≠ 1000 ∧ reconnectAttempts (this w) < maxReconnectAttempts)
    then reconnectAttempts (this w') = reconnectAttempts (this w) + 1 ∧
         timers w' = timers w ++ [Timer reconnectDelay (closure k)]
    else reconnectAttempts (this w') = reconnectAttempts (this w) ∧
         timers w' = timers w.
Proof.
  destruct w as [[cur att mh ch flag] socks tms pend tok o].
  unfold WebsocketService.step. simpl.
  destruct (socks !! s) as [k|] eqn:Hk; simpl; [|done].
  case_bool_decide; [done|]. intros [= <-]. exists k. split; [done|].
  assert (Hlen : (s < length socks)%nat) by (by eapply lookup_lt_Some).
  loops. simpl in *.
  rewrite !statuses_app in *. simpl in *. rewrite !app_nil_r in *.
  case_bool_decide as Hd.
  - destruct Hd as [Hc Ha].
    destruct (Z.eqb_spec code 1000) as [|_]; [done|].
    destruct (Z.ltb_spec att maxReconnectAttempts) as [_|]; [|lia].
    simpl. rewrite list_lookup_insert_eq by done.
    rewrite statuses_app. simpl. rewrite app_nil_r. done.
  - assert (negb (code =? 1000) && (att <? maxReconnectAttempts) = false) as ->.
    { destruct (Z.eqb_spec code 1000) as [|Hc]; [done|].
      destruct (Z.ltb_spec att maxReconnectAttempts) as [Ha|]; [|done].
      by destruct Hd. }
    destruct (Z.eqb code 1000); simpl; rewrite list_lookup_insert_eq by done;
      rewrite statuses_app; simpl; rewrite app_nil_r; done.
Qed.

Lemma step_ws_built w e w' : step w e = Some w' → ws_built w → ws_built w'.
Proof.
  destruct w as [[cur att mh ch flag] socks tms pend tok o].
  unfold ws_built.
  destruct e as [f|i session| |data|h|h|h|h|s|s payload|s|s code|t];
    unfold WebsocketService.step; intros Hs Hb;
    unfold send, onMessage, offMessage, onConnectionChange, offConnectionChange,
      onmessage, onerror, notifyMessageHandlers in Hs; simpl in Hs, Hb;
    try (destruct (socks !! s) as [k|] eqn:Hk; simpl in Hs; [|done]);
    try (destruct (tms !! t) as [tm|] eqn:Ht; simpl in Hs; [|done]);
    try (destruct (pend !! i) as [f|] eqn:Hi; simpl in Hs; [|done]);
    try (destruct (JSON_parse payload) as [d|]; simpl in Hs);
    try (case_bool_decide; simpl in Hs; try done);
    revert Hs; loops; intros Hs.
  all: repeat (case_match; simpl in *; simplify_eq); simpl.
  all: intros s' Hs'; simpl in *; simplify_eq.
  all: rewrite ?length_app, ?length_insert; simpl; try (by apply Hb); try lia.
  all: simpl in *; simplify_eq.
  all: rewrite ?length_app, ?length_insert; simpl; try (by apply Hb); try lia.
Qed.

Lemma run_ws_built es : ∀ w w', run w es = Some w' → ws_built w → ws_built w'.
Proof.
  induction es as [|e es IH]; intros w w'; simpl.
  - by intros [= <-].
  - destruct (step w e) as [w1|] eqn:Hs; simpl; [|done].
    intros Hrun Hb. eapply IH; [exact Hrun|]. by eapply step_ws_built.
Qed.

(** [getStatus()] never answers 'unknown': whatever the page and the
    network do, [this.ws] is null or a socket the service built, so the
    answer is one of the four named states; and it is 'connected'
    exactly when [send] would transmit. *)
Theorem getStatus_is_never_unknown token es w :
  run (start token) es = Some w →
  getStatus w ∈ ["disconnected"; "connecting"; "connected"; "closing"] ∧
  (getStatus w = "connected" ↔ ws_is_open w = true).
Proof.
  intros Hrun.
  assert (Hb : ws_built w).
  { eapply run_ws_built; [exact Hrun|]. intros s. simpl. done. }
  unfold getStatus, ws_is_open. destruct (ws (this w)) as [s|] eqn:Hs.
  - specialize (Hb s Hs). apply lookup_lt_is_Some in Hb as [k Hk].
    unfold readyState_of. rewrite Hk. simpl.
    destruct (state k); (split; [set_solver|]);
      split; intros Hx; try discriminate Hx; try done.
    all: by apply bool_decide_eq_true in Hx.
  - split; [set_solver|]. split; intros Hx; discriminate Hx.
Qed.

(** A turn of the event loop calls message handlers only when it
    delivers a message that parses: then every registered handler is
    called once. *)
Lemma step_calls w e w' :
  step w e = Some w' →
  calls (out w')
  = calls (out w)
    ++ match e with
       | Message _ payload =>
           match JSON_parse payload with
           | Some data => (λ h, (h, data)) <$> messageHandlers (this w)
           | None => []
           end
       | _ => []
       end.
Proof.
  destruct w as [[cur att mh ch flag] socks tms pend tok o].
  destruct e as [f|i session| |data|h|h|h|h|s|s payload|s|s code|t];
    unfold WebsocketService.step; intros Hs;
    unfold send, onMessage, offMessage, onConnectionChange, offConnectionChange,
      onmessage, onerror, notifyMessageHandlers in Hs; simpl in Hs;
    try (destruct (socks !! s) as [k|] eqn:Hk; simpl in Hs; [|done]);
    try (destruct (tms !! t) as [tm|] eqn:Ht; simpl in Hs; [|done]);
    try (destruct (pend !! i) as [f|] eqn:Hi; simpl in Hs; [|done]);
    try (destruct (JSON_parse payload) as [d|]; simpl in Hs);
    try (case_bool_decide; simpl in Hs; try done);
    revert Hs; loops; intros Hs.
  all: simplify_eq; simpl in *.
  all: repeat (case_match; simpl in *; simplify_eq); simpl in *.
  all: rewrite ?service_calls_app in *; simpl in *; rewrite ?app_nil_r in *;
       try congruence.
Qed.

Lemma step_messageHandlers w e w' :
  step w e = Some w' →
  messageHandlers (this w')
  = match e with
    | OnMessage h => messageHandlers (this w) ++ [h]
    | OffMessage h => filter (λ h', h' ≠ h) (messageHandlers (this w))
    | _ => messageHandlers (this w)
    end.
Proof.
  destruct w as [[cur att mh ch flag] socks tms pend tok o].
  destruct e as [f|i session| |data|h|h|h|h|s|s payload|s|s code|t];
    unfold WebsocketService.step; intros Hs;
    unfold send, onMessage, offMessage, onConnectionChange, offConnectionChange,
      onmessage, onerror, notifyMessageHandlers in Hs; simpl in Hs;
    try (destruct (socks !! s) as [k|] eqn:Hk; simpl in Hs; [|done]);
    try (destruct (tms !! t) as [tm|] eqn:Ht; simpl in Hs; [|done]);
    try (destruct (pend !! i) as [f|] eqn:Hi; simpl in Hs; [|done]);
    try (destruct (JSON_parse payload) as [d|]; simpl in Hs);
    try (case_bool_decide; simpl in Hs; try done);
    revert Hs; loops; intros Hs.
  all: simplify_eq; simpl in *.
  all: repeat (case_match; simpl in *; simplify_eq); simpl in *; try done.
Qed.

Lemma run_unsubscribed h es : ∀ w w',
  run w es = Some w' → Forall (λ e, e ≠ OnMessage h) es →
  h ∉ messageHandlers (this w) →
  filter (λ c, c.1 = h) (calls (out w')) = filter (λ c, c.1 = h) (calls (out w)).
Proof.
  induction es as [|e es IH]; intros w w'; simpl.
  - by intros [= <-].
  - destruct (step w e) as [w1|] eqn:Hs; simpl; [|done].
    intros Hrun [He Hes]%Forall_cons Hh.
    rewrite (IH w1 w' Hrun Hes).
    + rewrite (step_calls _ _ _ Hs), filter_app.
      assert (filter (λ c : callback * Data, c.1 = h)
                match e with
                | Message _ payload =>
                    match JSON_parse payload with
                    | Some data => (λ h, (h, data)) <$> messageHandlers (this w)
                    | None => []
                    end
                | _ => []
                end = []) as ->; [|by rewrite app_nil_r].
      destruct e; try done. destruct (JSON_parse payload) as [data|]; [|done].
      clear -Hh. induction (messageHandlers (this w)) as [|h' hs IHh]; [done|].
      apply not_elem_of_cons in Hh as [Hne Hh]. simpl.
      rewrite filter_cons_False by (simpl; congruence). by apply IHh.
    + rewrite (step_messageHandlers _ _ _ Hs). destruct e; try done.
      * apply not_elem_of_app. split; [done|].
        apply not_elem_of_cons. split; [congruence|apply not_elem_of_nil].
      * intros [_ ?]%list_elem_of_filter. done.
Qed.

(** The unsubscribe function [onMessage(handler)] returns removes every
    registration of the handler, also when it was registered more than
    once, and keeps the other handlers in their order.  From then on,
    until the handler is registered again, no event calls it: not a
    message on the current socket, not one on a socket opened by a
    later reconnect. *)
Theorem unsubscribed_handler_is_never_called h w es w' :
  run (offMessage h w) es = Some w' → Forall (λ e, e ≠ OnMessage h) es →
  messageHandlers (this (offMessage h w))
  = filter (λ h', h' ≠ h) (messageHandlers (this w)) ∧
  filter (λ c, c.1 = h) (calls (out w')) = filter (λ c, c.1 = h) (calls (out w)).
Proof.
  intros Hrun Hes. split; [by destruct w as [[]]|].
  rewrite (run_unsubscribed h es _ _ Hrun Hes); [by destruct w as [[]]|].
  destruct w as [[cur att mh ch flag] socks tms pend tok o]. simpl.
  intros [? _]%list_elem_of_filter. done.
Qed.

Lemma step_statuses w e w' :
  step w e = Some w' →
  ∃ new, statuses (out w') = statuses (out w) ++ new ∧
         Forall (λ x, (x.1.2 = "connected" ∧ x.2 = None) ∨
                      (x.1.2 = "error" ∧ x.2 = None) ∨
                      (x.1.2 = "closed" ∧ x.2 ≠ None)) new.
Proof.
  assert (Hall : ∀ (st : string) (c : option Z) (hs : list callback),
            (st = "connected" ∧ c = None) ∨ (st = "error" ∧ c = None) ∨
            (st = "closed" ∧ c ≠ None) →
            Forall (λ x : callback * string * option Z,
                      (x.1.2 = "connected" ∧ x.2 = None) ∨
                      (x.1.2 = "error" ∧ x.2 = None) ∨
                      (x.1.2 = "closed" ∧ x.2 ≠ None))
              ((λ h, (h, st, c)) <$> hs)).
  { intros st c hs Hst. induction hs; simpl; constructor; done. }
  destruct w as [[cur att mh ch flag] socks tms pend tok o].
  destruct e as [f|i session| |data|h|h|h|h|s|s payload|s|s code|t];
    unfold WebsocketService.step; intros Hs;
    unfold send, onMessage, offMessage, onConnectionChange, offConnectionChange,
      onmessage, onerror, notifyMessageHandlers in Hs; simpl in Hs;
    try (destruct (socks !! s) as [k|] eqn:Hk; simpl in Hs; [|done]);
    try (destruct (tms !! t) as [tm|] eqn:Ht; simpl in Hs; [|done]);
    try (destruct (pend !! i) as [f|] eqn:Hi; simpl in Hs; [|done]);
    try (destruct (JSON_parse payload) as [d|]; simpl in Hs);
    try (case_bool_decide; simpl in Hs; try done);
    revert Hs; loops; intros Hs.
  all: simplify_eq; simpl in *.
  all: repeat (case_match; simpl in *; simplify_eq); simpl in *.
  all: rewrite ?statuses_app in *; simpl in *; rewrite ?app_nil_r in *.
  all: try (exists []; split; [by rewrite ?app_nil_r|constructor]; fail).
  all: (eexists; split; [eassumption|]); apply Hall; auto.
Qed.

(** The status objects the service hands to its connection handlers
    carry 'connected', 'error' or 'closed', the last with the close
    code, and nothing else.  [handleWebSocketConnection] stores that
    status, and [wsStatusText] knows only 'connected', 'connecting' and
    'disconnected': after a notified close or error the banner of the
    dashboard reads 'Unknown', and no notification makes it read
    'Disconnected - Updates paused' or 'Connecting...'. *)
Theorem status_notifications_and_banner token es w h status code :
  run (start token) es = Some w → (h, status, code) ∈ statuses (out w) →
  status ∈ ["connected"; "error"; "closed"] ∧
  (status = "closed" ↔ code ≠ None) ∧
  DashboardBanner.wsStatusText (DashboardBanner.handleWebSocketConnection status)
  = if bool_decide (status = "connected")
    then "Connected - Real-time updates active" else "Unknown".
Proof.
  intros Hrun Hin.
  assert (Hinv : Forall (λ x : callback * string * option Z,
                      (x.1.2 = "connected" ∧ x.2 = None) ∨
                      (x.1.2 = "error" ∧ x.2 = None) ∨
                      (x.1.2 = "closed" ∧ x.2 ≠ None)) (statuses (out w))).
  { assert (Hgen : ∀ es w0 w1, run w0 es = Some w1 →
              Forall (λ x : callback * string * option Z,
                      (x.1.2 = "connected" ∧ x.2 = None) ∨
                      (x.1.2 = "error" ∧ x.2 = None) ∨
                      (x.1.2 = "closed" ∧ x.2 ≠ None)) (statuses (out w0)) →
              Forall (λ x : callback * string * option Z,
                      (x.1.2 = "connected" ∧ x.2 = None) ∨
                      (x.1.2 = "error" ∧ x.2 = None) ∨
                      (x.1.2 = "closed" ∧ x.2 ≠ None)) (statuses (out w1))).
    { clear. induction es as [|e es IH]; intros w0 w1; simpl.
      - by intros [= <-].
      - destruct (step w0 e) as [w2|] eqn:Hs; simpl; [|done].
        intros Hrun H0. eapply IH; [exact Hrun|].
        destruct (step_statuses _ _ _ Hs) as (new & -> & Hnew).
        by apply Forall_app. }
    eapply Hgen; [exact Hrun|]. constructor. }
  rewrite Forall_forall in Hinv. specialize (Hinv _ Hin). simpl in Hinv.
  unfold DashboardBanner.handleWebSocketConnection, DashboardBanner.wsStatusText.
  destruct Hinv as [[-> ->]|[[-> ->]|[-> Hc]]].
  - split; [set_solver|]. split; [|done]. split; [discriminate|done].
  - split; [set_solver|]. split; [|done]. split; [discriminate|done].
  - split; [set_solver|]. split; [|done]. split; done.
Qed.

End WebsocketServiceTrace_facts.

Section UploadQueueTrace_facts.
Import Js UploadQueue UploadQueueTrace.

Context {Key : Type} `{EqDecision Key}.

Implicit Types (k : Key) (q : list (@uploadItem Key)) (st : @state Key).


End UploadQueueTrace_facts.

Section TransferTrace_facts.
Import Js Transfer TransferTrace.

(** The promise of [uploadToS3] settles once, with the first [load] or
    [error] event of the request, and stays as it settled whatever the
    request fires afterwards; until then it is pending.  In birdtag
    only the status 200 fulfils it: any other status, 201 and 204
    included, rejects.  In bird-tag every status in [200..299] fulfils
    it. *)
Theorem uploadToS3_settles_once op :
  (∀ es, settled (uploadToS3_xhr op es) = head (omap xhr_settles es)) ∧
  (∀ es, settled (uploadToS3_axios op es) = head (omap axios_settles es)).
Proof.
  split.
  - intros es. unfold uploadToS3_xhr.
    assert (Hgen : ∀ r, settled (foldl (xhr_handle op) r es)
                        = match settled r with
                          | Some o => Some o
                          | None => head (omap xhr_settles es)
                          end); [|apply Hgen].
    induction es as [|e es IH]; intros r; simpl; [by destruct (settled r)|].
    rewrite IH. destruct e as [lc l t|st|]; simpl.
    + unfold xhr_onprogress. destruct (lc && op); simpl; reflexivity.
    + unfold settle. destruct (settled r) eqn:Hr; rewrite ?Hr;
        destruct (Z.eqb st 200); simpl; rewrite ?Hr; reflexivity.
    + unfold settle. destruct (settled r) eqn:Hr; rewrite ?Hr; simpl;
        rewrite ?Hr; reflexivity.
  - intros es. unfold uploadToS3_axios.
    assert (Hgen : ∀ r, settled (foldl (axios_handle op) r es)
                        = match settled r with
                          | Some o => Some o
                          | None => head (omap axios_settles es)
                          end); [|apply Hgen].
    induction es as [|e es IH]; intros r; simpl; [by destruct (settled r)|].
    rewrite IH. destruct e as [l t|st|]; simpl.
    + unfold onUploadProgress. destruct op; simpl; reflexivity.
    + unfold settle. destruct (settled r) eqn:Hr; rewrite ?Hr;
        destruct (Z.leb 200 st && Z.ltb st 300); simpl; rewrite ?Hr; reflexivity.
    + unfold settle. destruct (settled r) eqn:Hr; rewrite ?Hr; simpl;
        rewrite ?Hr; reflexivity.
Qed.

End TransferTrace_facts.

Section UploadPage_facts.
Import Js UploadPage.

Variable parseInt : value → number.

Local Abbreviation step := (UploadPage.step parseInt).
Local Abbreviation run := (UploadPage.run parseInt).

Implicit Types (w : world).

Lemma connects_app (a b : list output) : connects (a ++ b) = connects a ++ connects b.
Proof. unfold connects. apply omap_app. Qed.

Lemma held_insert_elem (acts : list activation) (n : nat) a p (id : string) :
  acts !! n = Some a →
  id ∈ omap (λ a, match at_phase a with
                  | transferring info => Some (file_id info)
                  | _ => None
                  end) (<[n := Activation (file a) p]> acts) →
  id ∈ omap (λ a, match at_phase a with
                  | transferring info => Some (file_id info)
                  | _ => None
                  end) acts
  ∨ ∃ info, p = transferring info ∧ id = file_id info.
Proof.
  revert n. induction acts as [|b acts IH]; intros [|n]; simpl; try done.
  - intros [= ->]. destruct p as [|info| |]; simpl.
    + destruct (at_phase a); [by left|..]; intros Hin; left; try done;
        by apply elem_of_cons; right.
    + intros [->|Hin]%elem_of_cons; [right; by eexists|].
      left. destruct (at_phase a); try done. by apply elem_of_cons; right.
    + destruct (at_phase a); [by left|..]; intros Hin; left; try done;
        by apply elem_of_cons; right.
    + destruct (at_phase a); [by left|..]; intros Hin; left; try done;
        by apply elem_of_cons; right.
  - intros Hn. destruct (at_phase b) as [|info0| |]; simpl; try (by apply IH).
    intros [->|Hin]%elem_of_cons.
    + left. apply elem_of_cons. by left.
    + destruct (IH n Hn Hin) as [?|?]; [left|by right].
      apply elem_of_cons. by right.
Qed.

Lemma held_lookup w n a info :
  activations w !! n = Some a → at_phase a = transferring info →
  file_id info ∈ held w.
Proof.
  unfold held. intros Ha Hp. apply list_elem_of_omap. exists a.
  split; [by eapply list_elem_of_lookup_2|]. by rewrite Hp.
Qed.

(** One turn: a connect is made exactly by a finished transfer, with
    the id of the grant the transfer held. *)
Lemma step_connects (G : list string) w e w' :
  step w e = Some w' →
  (∀ id, id ∈ held w → id ∈ G) → (∀ id, id ∈ connects (out w) → id ∈ G) →
  length (connects (out w'))
  = (length (connects (out w)) + if is_TransferResolved e then 1 else 0)%nat ∧
  (∀ id, id ∈ held w' → id ∈ G ++ grants [e]) ∧
  (∀ id, id ∈ connects (out w') → id ∈ G ++ grants [e]).
Proof.
  destruct w as [p acts tok o].
  assert (Hstart : ∀ f,
    length (connects (out (startUpload f (World p acts tok o))))
    = length (connects o) ∧
    held (startUpload f (World p acts tok o)) = held (World p acts tok o) ∧
    connects (out (startUpload f (World p acts tok o))) = connects o).
  { intros f. unfold startUpload. simpl. destruct (negb (truthy_str tok)); simpl.
    - rewrite connects_app. simpl. by rewrite app_nil_r.
    - rewrite connects_app. simpl. rewrite app_nil_r. split_and!; try done.
      unfold held. simpl. rewrite omap_app. simpl. by rewrite app_nil_r. }
  destruct e as [f|f| |n info|n msg|n v|n|n msg|m]; simpl; intros Hs HG Ho;
    rewrite ?app_nil_r.
  - injection Hs as <-. destruct f as [f|]; simpl; [|by rewrite Nat.add_0_r].
    destruct (Hstart f) as (-> & -> & ->). by rewrite Nat.add_0_r.
  - injection Hs as <-. destruct f as [f|]; simpl; [|by rewrite Nat.add_0_r].
    destruct (negb (uploading p)); simpl; [|by rewrite Nat.add_0_r].
    destruct (Hstart f) as (-> & -> & ->). by rewrite Nat.add_0_r.
  - injection Hs as <-. simpl. rewrite connects_app. simpl.
    rewrite app_nil_r, Nat.add_0_r. done.
  - destruct (acts !! n) as [a|] eqn:Ha; simpl in Hs; [|done].
    destruct (at_phase a) eqn:Hp; try done. injection Hs as <-.
    unfold granted. simpl. rewrite Ha. simpl.
    rewrite connects_app. simpl. rewrite app_nil_r, Nat.add_0_r.
    split_and!; [done| |].
    + intros id Hin. unfold held in Hin. simpl in Hin.
      apply (held_insert_elem _ _ _ _ _ Ha) in Hin as [Hin|(info' & [= <-] & ->)].
      * apply elem_of_app. left. by apply HG.
      * apply elem_of_app. right. by apply list_elem_of_singleton.
    + intros id Hin. apply elem_of_app. left. by apply Ho.
  - destruct (acts !! n) as [a|] eqn:Ha; simpl in Hs; [|done].
    destruct (at_phase a) eqn:Hp; try done. injection Hs as <-.
    unfold on_catch. simpl. rewrite Ha. simpl. rewrite Nat.add_0_r.
    split_and!; [done| |done].
    intros id Hin. unfold held in Hin. simpl in Hin.
    apply (held_insert_elem _ _ _ _ _ Ha) in Hin as [Hin|(info' & [=] & _)]. by apply HG.
  - destruct (acts !! n) as [a|] eqn:Ha; simpl in Hs; [|done].
    destruct (at_phase a) eqn:Hp; try done. injection Hs as <-.
    simpl. by rewrite Nat.add_0_r.
  - destruct (acts !! n) as [a|] eqn:Ha; simpl in Hs; [|done].
    destruct (at_phase a) as [|info| |] eqn:Hp; try done. injection Hs as <-.
    unfold transferred. simpl. rewrite Ha. simpl.
    rewrite connects_app. simpl. rewrite length_app. simpl.
    split_and!; [done| |].
    + intros id Hin. unfold held in Hin. simpl in Hin.
      apply (held_insert_elem _ _ _ _ _ Ha) in Hin as [Hin|(info' & [=] & _)]. by apply HG.
    + intros id [Hin|Hin%list_elem_of_singleton]%elem_of_app; [by apply Ho|].
      subst id. apply HG. by eapply (held_lookup (World p acts tok o)).
  - destruct (acts !! n) as [a|] eqn:Ha; simpl in Hs; [|done].
    destruct (at_phase a) eqn:Hp; try done. injection Hs as <-.
    unfold on_catch. simpl. rewrite Ha. simpl. rewrite Nat.add_0_r.
    split_and!; [done| |done].
    intros id Hin. unfold held in Hin. simpl in Hin.
    apply (held_insert_elem _ _ _ _ _ Ha) in Hin as [Hin|(info' & [=] & _)]. by apply HG.
  - injection Hs as <-. simpl. by rewrite Nat.add_0_r.
Qed.

Lemma run_connects es : ∀ (G : list string) w w',
  run w es = Some w' →
  (∀ id, id ∈ held w → id ∈ G) → (∀ id, id ∈ connects (out w) → id ∈ G) →
  length (connects (out w'))
  = (length (connects (out w))
     + length (filter (λ e, is_TransferResolved e = true) es))%nat ∧
  (∀ id, id ∈ connects (out w') → id ∈ G ++ grants es).
Proof.
  induction es as [|e es IH]; intros G w w'; simpl.
  - intros [= <-] _ Ho. rewrite Nat.add_0_r, app_nil_r. done.
  - destruct (step w e) as [w1|] eqn:Hs; simpl; [|done].
    intros Hrun HG Ho.
    destruct (step_connects G _ _ _ Hs HG Ho) as (Hlen & HG1 & Ho1).
    destruct (IH _ _ _ Hrun HG1 Ho1) as [Hlen' Hin'].
    split.
    + rewrite Hlen', Hlen, filter_cons. destruct (is_TransferResolved e); simpl; lia.
    + intros id Hid. specialize (Hin' id Hid).
      assert (Hg : grants (e :: es) = grants [e] ++ grants es)
        by (unfold grants; apply (omap_app _ [e] es)).
      change (id ∈ G ++ grants (e :: es)). rewrite Hg, app_assoc. done.
Qed.

(** [websocketService.connect] is called once for every transfer that
    finished and at no other time: not on a failed request or
    transfer, not by a message, not by [resetUpload]; and the file id
    it is called with is one a grant carried. *)
Theorem connects_follow_finished_transfers token es w :
  run (start token) es = Some w →
  length (connects (out w)) = length (filter (λ e, is_TransferResolved e = true) es) ∧
  ∀ id, id ∈ connects (out w) → id ∈ grants es.
Proof.
  intros Hrun.
  destruct (run_connects es [] _ _ Hrun) as [Hlen Hin].
  - intros id Hid. by apply elem_of_nil in Hid.
  - intros id Hid. by apply elem_of_nil in Hid.
  - split; [exact Hlen|]. intros id Hid. by apply Hin.
Qed.

Lemma run_progress n a v vs w :
  activations w !! n = Some a → (∃ info, at_phase a = transferring info) →
  run w (Progress n <$> (vs ++ [v]))
  = Some (onProgress v w).
Proof.
  intros Ha (info & Hp). revert w Ha.
  induction vs as [|u vs IH]; intros w Ha; simpl.
  - rewrite Ha. simpl. by rewrite Hp.
  - rewrite Ha. simpl. rewrite Hp. simpl.
    change (list_fmap number event (Progress n) (vs ++ [v]))
      with (Progress n <$> (vs ++ [v])).
    rewrite IH by (by destruct w). by destruct w.
Qed.

(** One upload of the birdtag view, from the choice of the file on.
    Without a stored token nothing is requested: the view shows the
    login message and goes to the login route.  With a token, a granted
    request followed by progress reports and a finished transfer leaves
    the view showing the last reported progress, the granted file id,
    the flag [uploaded] and the success message, connects the socket
    for that id, and leaves [uploading] set, so that a file dropped
    afterwards is ignored.  A rejected request or transfer clears
    [uploading], shows the message of the error, or the fallback text
    when the message is empty, and the socket is not connected. *)
Theorem startUpload_outcomes token f info vs v msg :
  (truthy_str token = false →
   run (start token) [HandleFileSelect (Some f)]
   = Some {| refs := {| currentFile := None; uploading := false;
                        uploadProgress := finite 0; fileId := None;
                        error := "请先登录"; success := "";
                        uploaded := false; view := blank |};
             activations := []; jwt_token := token;
             out := [router_push "/login"] |}) ∧
  (truthy_str token = true →
   ∃ w, run (start token)
          ([HandleFileSelect (Some f); RequestResolved 0 info]
           ++ (Progress 0 <$> (vs ++ [v])) ++ [TransferResolved 0]) = Some w ∧
        refs w = {| currentFile := Some f; uploading := true;
                    uploadProgress := v; fileId := Some (file_id info);
                    error := ""; success := "文件上传成功，正在处理...";
                    uploaded := true; view := blank |} ∧
        out w = [requestUploadFile (name f) (type f);
                 uploadToS3 (presign_url info) f;
                 websocket_connect (file_id info)] ∧
        ∀ g, step w (HandleDrop g) = Some w) ∧
  (truthy_str token = true →
   ∃ w, run (start token) [HandleFileSelect (Some f); RequestRejected 0 msg] = Some w ∧
        refs w = {| currentFile := Some f; uploading := false;
                    uploadProgress := finite 0; fileId := None;
                    error := if String.eqb msg "" then "上传失败" else msg;
                    success := ""; uploaded := false; view := blank |} ∧
        out w = [requestUploadFile (name f) (type f)]) ∧
  (truthy_str token = true →
   ∃ w, run (start token)
          [HandleFileSelect (Some f); RequestResolved 0 info; TransferRejected 0 msg]
        = Some w ∧
        refs w = {| currentFile := Some f; uploading := false;
                    uploadProgress := finite 0; fileId := Some (file_id info);
                    error := if String.eqb msg "" then "上传失败" else msg;
                    success := ""; uploaded := false; view := blank |} ∧
        out w = [requestUploadFile (name f) (type f);
                 uploadToS3 (presign_url info) f]).
Proof.
  split_and!; intros Htok.
  - simpl. unfold startUpload. simpl. by rewrite Htok.
  - change (?a :: ?b :: ?c) with ([a; b] ++ c).
    eexists. split.
    + simpl. unfold startUpload. simpl. rewrite Htok. simpl. unfold granted. simpl.
      set (w1 := World _ _ _ _).
      assert (Hrun : ∀ w es1 es2, run w (es1 ++ es2) = w' ← run w es1; run w' es2).
      { clear. intros w es1. revert w. induction es1 as [|e es1 IH]; intros w es2;
          simpl; [done|]. destruct (step w e); simpl; [apply IH|done]. }
      rewrite Hrun.
      rewrite (run_progress 0 (Activation f (transferring info)) v vs w1);
        [|done|by eexists]. simpl. reflexivity.
    + simpl. split_and!; try reflexivity.
      intros [g|]; reflexivity.
  - eexists. split.
    + simpl. unfold startUpload. simpl. rewrite Htok. simpl. reflexivity.
    + simpl. done.
  - eexists. split.
    + simpl. unfold startUpload. simpl. rewrite Htok. simpl. reflexivity.
    + simpl. done.
Qed.

(** [resetUpload()] puts every ref back to its initial value and
    disconnects the socket, at once.  It does not cancel an upload in
    flight: when the transfer of such an upload finishes afterwards,
    the view, which shows no file any more, is marked uploaded and the
    socket is connected for the file of that upload. *)
Theorem resetUpload_does_not_cancel w :
  refs (resetUpload w) = initial ∧
  out (resetUpload w) = out w ++ [websocket_disconnect] ∧
  activations (resetUpload w) = activations w ∧
  ∀ n a info,
    activations w !! n = Some a → at_phase a = transferring info →
    ∃ w', step (resetUpload w) (TransferResolved n) = Some w' ∧
          currentFile (refs w') = None ∧ uploaded (refs w') = true ∧
          connects (out w') = connects (out w) ++ [file_id info].
Proof.
  destruct w as [p acts tok o]. split_and!; try reflexivity.
  intros n a info Ha Hp. simpl in *. rewrite Ha. simpl. rewrite Hp.
  eexists. split; [reflexivity|]. unfold transferred. simpl. rewrite Ha. simpl.
  split_and!; try reflexivity.
  rewrite !connects_app. simpl. by rewrite app_nil_r.
Qed.

End UploadPage_facts.

Section Auth_facts.
Import Js Auth.

Variable parseJWT : string → json.
Variable ToNumber : value → option Z.

Local Abbreviation isTokenExpired := (Auth.isTokenExpired parseJWT ToNumber).
Local Abbreviation isAuthenticated := (Auth.isAuthenticated parseJWT ToNumber).
Local Abbreviation checkAuthStatus := (Auth.checkAuthStatus parseJWT).
Local Abbreviation beforeEach := (Auth.beforeEach parseJWT ToNumber).
Local Abbreviation navigate := (Auth.navigate parseJWT ToNumber).
Local Abbreviation exp_reached := (Auth.exp_reached ToNumber).

Implicit Types (ls : storage).

Lemma clearToken_lookups ls :
  getToken (clearToken ls) = None ∧ getAccessToken (clearToken ls) = None ∧
  getRefreshToken (clearToken ls) = None.
Proof.
  unfold getToken, getAccessToken, getRefreshToken, clearToken. split_and!.
  - rewrite !lookup_delete_ne by discriminate. by rewrite lookup_delete_eq.
  - rewrite lookup_delete_ne by discriminate. by rewrite lookup_delete_eq.
  - by rewrite lookup_delete_eq.
Qed.

Lemma isAuthenticated_cleared ls now : isAuthenticated (clearToken ls) now = false.
Proof.
  unfold Auth.isAuthenticated. destruct (clearToken_lookups ls) as (-> & _). done.
Qed.

Lemma isAuthenticated_without_token ls now :
  truthy_str (getToken ls) = false → isAuthenticated ls now = false.
Proof. unfold Auth.isAuthenticated. by intros ->. Qed.

Lemma checkAuthStatus_true server ls :
  (checkAuthStatus server ls).1 = true →
  truthy_str (getToken ls) = true ∧ (checkAuthStatus server ls).2 = ls.
Proof.
  unfold Auth.checkAuthStatus.
  destruct (truthy_str (getToken ls)); simpl; [|done].
  by destruct (getCurrentUser_resolves parseJWT server ls).
Qed.

Lemma checkAuthStatus_false server ls now :
  (checkAuthStatus server ls).1 = false →
  isAuthenticated (checkAuthStatus server ls).2 now = false ∧
  (truthy_str (getToken ls) = true →
   (checkAuthStatus server ls).2 = clearToken ls).
Proof.
  unfold Auth.checkAuthStatus.
  destruct (truthy_str (getToken ls)) eqn:Ht; simpl.
  - destruct (getCurrentUser_resolves parseJWT server ls); simpl; [done|].
    intros _. split; [|done]. apply isAuthenticated_cleared.
  - intros _. split; [|done]. by apply isAuthenticated_without_token.
Qed.

(** [saveToken] stores the id token; the access token and the refresh
    token are overwritten only when one is given, so saving a new id
    token alone leaves the access and refresh tokens of an earlier
    login in place.  [clearToken] removes the three tokens, whatever
    was saved, and no other entry of the storage. *)
Theorem saveToken_then_clearToken idToken accessToken refreshToken ls :
  getToken (saveToken idToken accessToken refreshToken ls) = Some idToken ∧
  getAccessToken (saveToken idToken accessToken refreshToken ls)
  = (if truthy_str accessToken then accessToken else getAccessToken ls) ∧
  getRefreshToken (saveToken idToken accessToken refreshToken ls)
  = (if truthy_str refreshToken then refreshToken else getRefreshToken ls) ∧
  clearToken (saveToken idToken accessToken refreshToken ls) = clearToken ls ∧
  getToken (clearToken ls) = None ∧
  getAccessToken (clearToken ls) = None ∧
  getRefreshToken (clearToken ls) = None ∧
  ∀ k, k ≠ "jwt_token" → k ≠ "access_token" → k ≠ "refresh_token" →
       clearToken ls !! k = ls !! k.
Proof.
  unfold getToken, getAccessToken, getRefreshToken, saveToken, clearToken.
  split_and!.
  - destruct (truthy_str accessToken), (truthy_str refreshToken);
      rewrite ?lookup_insert_ne by discriminate; by rewrite lookup_insert_eq.
  - destruct accessToken as [a|]; simpl; [destruct (String.eqb a ""); simpl|];
      destruct (truthy_str refreshToken);
      rewrite ?(lookup_insert_ne _ "refresh_token") by discriminate;
      rewrite ?lookup_insert_eq; rewrite ?lookup_insert_ne by discriminate; done.
  - destruct refreshToken as [r|]; simpl; [destruct (String.eqb r ""); simpl|];
      destruct (truthy_str accessToken);
      rewrite ?lookup_insert_eq; rewrite ?lookup_insert_ne by discriminate; done.
  - apply map_eq. intros k.
    destruct (decide (k = "refresh_token")) as [->|?];
      [by rewrite !lookup_delete_eq|rewrite !(lookup_delete_ne _ "refresh_token") by done].
    destruct (decide (k = "access_token")) as [->|?];
      [by rewrite !lookup_delete_eq|rewrite !(lookup_delete_ne _ "access_token") by done].
    destruct (decide (k = "jwt_token")) as [->|?];
      [by rewrite !lookup_delete_eq|rewrite !(lookup_delete_ne _ "jwt_token") by done].
    destruct (truthy_str accessToken), (truthy_str refreshToken);
      rewrite ?lookup_insert_ne by done; done.
  - rewrite !lookup_delete_ne by discriminate. by rewrite lookup_delete_eq.
  - rewrite lookup_delete_ne by discriminate. by rewrite lookup_delete_eq.
  - by rewrite lookup_delete_eq.
  - intros k ? ? ?. by rewrite !lookup_delete_ne.
Qed.

(** [isAuthenticated()] of birdtag: false without a stored token, with
    a token whose payload cannot be decoded, and with a payload that
    has no [exp]; with a numeric [exp] it is true exactly while the
    clock, in milliseconds, is before [exp] seconds, and an [exp] of
    zero counts as missing.  After [clearToken] it is false. *)
Theorem isAuthenticated_cases ls now :
  (truthy_str (getToken ls) = false → isAuthenticated ls now = false) ∧
  (∀ t, getToken ls = Some t → (∀ p, parseJWT t ≠ json_object p) →
        isAuthenticated ls now = false) ∧
  (∀ t p, getToken ls = Some t → parseJWT t = json_object p → p !! "exp" = None →
          isAuthenticated ls now = false) ∧
  (∀ t p e, getToken ls = Some t → t ≠ "" → parseJWT t = json_object p →
            p !! "exp" = Some (Num e) →
            (isAuthenticated ls now = true ↔ e ≠ 0 ∧ now < e * 1000)) ∧
  isAuthenticated (clearToken ls) now = false.
Proof.
  unfold Auth.isAuthenticated, Auth.isTokenExpired. split_and!.
  - by intros ->.
  - intros t Ht Hp. rewrite Ht. simpl. destruct (String.eqb t ""); simpl; [done|].
    destruct (parseJWT t) as [|p|]; try done. by destruct (Hp p).
  - intros t p Ht Hp He. rewrite Ht. simpl. destruct (String.eqb t ""); simpl; [done|].
    rewrite Hp, He. done.
  - intros t p e Ht Hne Hp He. rewrite Ht. simpl.
    apply String.eqb_neq in Hne as ->. simpl. rewrite Hp, He. simpl.
    destruct (Z.eqb_spec e 0) as [->|Hz]; simpl.
    + split; [done|]. by intros [? _].
    + rewrite negb_true_iff, Z.leb_gt. split; [by split|by intros [_ ?]].
  - destruct (clearToken_lookups ls) as (-> & _). done.
Qed.

Lemma isAuthenticated_later ls now now' :
  now ≤ now' → isAuthenticated ls now = false → isAuthenticated ls now' = false.
Proof.
  unfold Auth.isAuthenticated, Auth.isTokenExpired. intros Hle.
  destruct (negb (truthy_str (getToken ls))); [done|].
  destruct (parseJWT _) as [|p|]; try done.
  destruct (negb (truthy (p !! "exp"))); [done|].
  rewrite !negb_false_iff. unfold Auth.exp_reached.
  destruct (p !! "exp") as [[|b|n|s|a]|]; try done;
    try (destruct (ToNumber _) as [n|]; [|done]);
    rewrite !Z.leb_le; lia.
Qed.

(** [checkAuthStatus()] of birdtag answers [true] only with a stored
    token and leaves the storage alone then.  Whenever it answers
    [false], [isAuthenticated()] is false afterwards: either no token
    was stored, or the lookup of the user failed, for whatever reason,
    and the three tokens were removed.  [logout()] removes the tokens
    whatever the server answers, and asks the server only when an
    access token is stored. *)
Theorem checkAuthStatus_clears_on_failure server ls now :
  ((checkAuthStatus server ls).1 = true →
   truthy_str (getToken ls) = true ∧ (checkAuthStatus server ls).2 = ls) ∧
  ((checkAuthStatus server ls).1 = false →
   isAuthenticated (checkAuthStatus server ls).2 now = false ∧
   (truthy_str (getToken ls) = true →
    (checkAuthStatus server ls).2 = clearToken ls)) ∧
  (logout ls).2 = clearToken ls ∧
  (logout ls).1 = truthy_str (getAccessToken ls).
Proof.
  split_and!; try done.
  - apply checkAuthStatus_true.
  - apply checkAuthStatus_false.
Qed.

Lemma beforeEach_cases to server ls now later :
  now ≤ later →
  match beforeEach to server ls now later with
  | (proceed, ls') =>
      ls' = ls ∧
      (path to ≠ "/auth/callback" → requiresAuth to = true →
       isAuthenticated ls now = true) ∧
      (path to = "/login" →
       isAuthenticated ls now = false ∨ isAuthenticated ls later = false)
  | (redirect p, ls') =>
      path to ≠ "/auth/callback" ∧
      ((p = "/login" ∧ requiresAuth to = true ∧
        ∀ t, now ≤ t → isAuthenticated ls' t = false) ∨
       (p = "/upload" ∧ path to = "/login" ∧ ls' = ls))
  end.
Proof.
  intros Hle. unfold Auth.beforeEach.
  destruct (String.eqb (path to) "/auth/callback") eqn:Hcb.
  { apply String.eqb_eq in Hcb. split_and!; [done|done|].
    intros Hl. rewrite Hl in Hcb. discriminate Hcb. }
  apply String.eqb_neq in Hcb.
  destruct (requiresAuth to) eqn:Hreq.
  - destruct (isAuthenticated ls now) eqn:Ha; simpl.
    + pose proof (checkAuthStatus_true server ls) as Ht.
      destruct (checkAuthStatus server ls) as [[] ls'] eqn:Hc; simpl in *.
      * destruct Ht as [_ ->]; [done|].
        destruct (String.eqb (path to) "/login") eqn:Hl; simpl.
        -- apply String.eqb_eq in Hl.
           destruct (isAuthenticated ls later) eqn:Hb.
           ++ split; [done|]. right. done.
           ++ split_and!; try done. intros _. by right.
        -- apply String.eqb_neq in Hl. split_and!; done.
      * split; [done|]. left. split_and!; [done|done|]. intros t _.
        pose proof (checkAuthStatus_false server ls t) as Hf.
        rewrite Hc in Hf. by apply Hf.
    + split; [done|]. left. split_and!; [done|done|]. intros t Ht.
      by eapply isAuthenticated_later.
  - simpl. destruct (String.eqb (path to) "/login") eqn:Hl; simpl.
    + apply String.eqb_eq in Hl. destruct (isAuthenticated ls now) eqn:Ha.
      * split; [done|]. right. done.
      * split_and!; try done. intros _. by left.
    + apply String.eqb_neq in Hl. split_and!; done.
Qed.

(** The guard of the birdtag router ends every navigation within three
    runs, whatever the location asked for, the storage and the answers
    of the server, on a clock that does not go back.  A location that
    requires authentication is entered only when [isAuthenticated()]
    was true as the guard ran, and the storage is untouched then; only
    a location whose path is '/auth/callback' escapes that test.  A
    location whose path is '/login' is entered only when
    [isAuthenticated()] was false.  What the guard tests is the text
    of the path: a location that requires no authentication and whose
    path is not '/login' is entered as it is, signed in or not, also
    when the router matched it to the Login record under another
    spelling. *)
Theorem navigation_settles to server ls clock :
  (∀ i j, (i ≤ j)%nat → clock i ≤ clock j) →
  ∃ l ls', navigate 3 0 to server ls clock = Some (l, ls') ∧
    (requiresAuth l = true → path l ≠ "/auth/callback" →
     ls' = ls ∧ ∃ k, (k < 6)%nat ∧ isAuthenticated ls (clock k) = true) ∧
    (path l = "/login" →
     ∃ k, (k < 6)%nat ∧ isAuthenticated ls' (clock k) = false) ∧
    (path to = "/auth/callback" → l = to ∧ ls' = ls) ∧
    (requiresAuth to = false → path to ≠ "/login" → l = to ∧ ls' = ls).
Proof.
  intros Hmono. simpl.
  pose proof (beforeEach_cases to (server 0%nat) ls (clock 0%nat) (clock 1%nat)) as H0.
  destruct (beforeEach to (server 0%nat) ls (clock 0%nat) (clock 1%nat)) as [[|p0] ls0].
  { destruct H0 as (-> & Ha & Hl); [apply Hmono; lia|].
    exists to, ls. split; [done|]. split_and!.
    - intros Hr Hp. split; [done|]. exists 0%nat. split; [lia|by apply Ha].
    - intros Hp. destruct (Hl Hp) as [H|H]; [exists 0%nat|exists 1%nat]; (split; [lia|done]).
    - done.
    - done. }
  destruct H0 as (Hcb & [(-> & Hreq & Hexp)|(-> & Hp & ->)]); [apply Hmono; lia| |]; simpl.
  - (* redirected to '/login': not authenticated from now on *)
    unfold Auth.beforeEach at 1. simpl.
    rewrite (Hexp (clock 2%nat)) by (apply Hmono; lia). simpl.
    exists (Location "/login" false), ls0. split; [done|]. split_and!; try done.
    + intros _. exists 2%nat. split; [lia|]. apply Hexp, Hmono. lia.
    + intros Hn. congruence.
  - (* redirected from '/login' to '/upload' *)
    pose proof (beforeEach_cases (Location "/upload" true) (server 1%nat) ls
                  (clock 2%nat) (clock 3%nat)) as H1.
    destruct (beforeEach (Location "/upload" true) (server 1%nat) ls
                (clock 2%nat) (clock 3%nat)) as [[|p1] ls1].
    { destruct H1 as (-> & Ha & _); [apply Hmono; lia|].
      exists (Location "/upload" true), ls. split; [done|]. split_and!; try done.
      intros _ _. split; [done|]. exists 2%nat. split; [lia|]. by apply Ha. }
    destruct H1 as (_ & [(-> & _ & Hexp)|(_ & Hp' & _)]); [apply Hmono; lia| |done].
    simpl. unfold Auth.beforeEach at 1. simpl.
    rewrite (Hexp (clock 4%nat)) by (apply Hmono; lia). simpl.
    exists (Location "/login" false), ls1. split; [done|]. split_and!; try done.
    intros _. exists 4%nat. split; [lia|]. apply Hexp, Hmono. lia.
Qed.

End Auth_facts.

Section ApiResponse_facts.
Import Js Auth ApiResponse.

Variable parseJWT : string → json.
Variable ToNumber : value → option Z.

(** A response with status 401 signs the page out: the three tokens
    are removed, so [isAuthenticated()] is false from then on, and the
    page is sent to the login route unless it is there already.  No
    other response and no network failure touches the storage or the
    location. *)
Theorem unauthorized_response_signs_out r b now :
  match r with
  | responded 401 _ =>
      localStorage (after_fetch r b) = clearToken (localStorage b) ∧
      Auth.isAuthenticated parseJWT ToNumber (localStorage (after_fetch r b)) now
        = false ∧
      pathname (after_fetch r b) = "/login"
  | _ => after_fetch r b = b
  end.
Proof.
  destruct r as [|status body]; [done|]. simpl.
  destruct (Z.eqb_spec status 401) as [->|Hs].
  - simpl. split_and!; [done|apply isAuthenticated_cleared|].
    destruct (String.eqb_spec (pathname b) "/login"); done.
  - destruct status as [|p|p]; try done.
    repeat (destruct p as [p|p|]; try done).
Qed.


End ApiResponse_facts.

Section AuthGate_facts.
Import Js AuthService AuthGate.

Variable decodeJWT : string → option object.
Variable ToNumber : value → option Z.

Local Abbreviation getOAuthSession := (AuthService.getOAuthSession decodeJWT ToNumber).
Local Abbreviation getUserSession := (AuthService.getUserSession decodeJWT ToNumber).
Local Abbreviation isAuthenticated := (AuthGate.isAuthenticated decodeJWT ToNumber).
Local Abbreviation request_interceptor :=
  (AuthGate.request_interceptor decodeJWT ToNumber).
Local Abbreviation beforeEach := (AuthGate.beforeEach decodeJWT ToNumber).
Local Abbreviation onMounted := (AuthGate.onMounted decodeJWT ToNumber).

Implicit Types (ls : storage) (c : cognito).

Lemma getOAuthSession_resolved ls now s :
  getOAuthSession ls now = resolved s →
  truthy_str (ls !! "idToken") = true ∧ ls !! "idToken" = Some (idToken s).
Proof.
  unfold AuthService.getOAuthSession.
  destruct (ls !! "idToken") as [i|]; simpl; [|done].
  destruct (String.eqb i ""); simpl; [done|].
  destruct (negb (truthy_str (ls !! "accessToken"))); [done|].
  destruct (decodeJWT i) as [p|]; [|done].
  destruct (_ && _); [done|]. by intros [= <-].
Qed.

Lemma isAuthenticated_eq c ls now :
  isAuthenticated c ls now
  = negb (primary_miss c) || truthy_str (ls !! "idToken").
Proof.
  unfold AuthGate.isAuthenticated, getStoredToken.
  destruct (primary_miss c) eqn:Hc.
  - rewrite (getUserSession_falls_back _ _ _ _ _ Hc). simpl.
    destruct (getOAuthSession ls now) as [s|e] eqn:Hs; [|done].
    by destruct (getOAuthSession_resolved _ _ _ Hs) as [-> _].
  - destruct c as [| |[] id access refresh [attributes|]]; try discriminate Hc. done.
Qed.

(** [isAuthenticated()] of bird-tag does not look at the expiry: it is
    true exactly when the Cognito SDK has a valid session with
    readable attributes or some non-empty text is stored under
    'idToken', be it expired, undecodable, or stored without an access
    token. *)
Theorem isAuthenticated_ignores_expiry c ls now :
  isAuthenticated c ls now
  = negb (primary_miss c) || truthy_str (ls !! "idToken").
Proof.
  unfold AuthGate.isAuthenticated, getStoredToken.
  destruct (primary_miss c) eqn:Hc.
  - rewrite (getUserSession_falls_back _ _ _ _ _ Hc). simpl.
    destruct (getOAuthSession ls now) as [s|e] eqn:Hs; [|done].
    by destruct (getOAuthSession_resolved _ _ _ Hs) as [-> _].
  - destruct c as [| |[] id access refresh [attributes|]]; try discriminate Hc. done.
Qed.

(** The request interceptor sets the [Authorization] header exactly
    when [isAuthenticated()] holds, and touches no other header.  With
    a Cognito session the bearer is the id token of the session;
    without one it is the stored id token as it is, even when
    [getUserSession()] has just rejected it as expired or invalid. *)
Theorem request_interceptor_sends_stored_token c ls now headers :
  (∀ k, k ≠ "Authorization" →
        request_interceptor c ls now headers !! k = headers !! k) ∧
  (isAuthenticated c ls now = false →
   request_interceptor c ls now headers = headers) ∧
  (isAuthenticated c ls now = true →
   ∃ token, request_interceptor c ls now headers !! "Authorization"
            = Some ("Bearer " ++ token)%string ∧
            match getUserSession c ls now with
            | resolved s => token = idToken s
            | rejected _ => ls !! "idToken" = Some token
            end).
Proof.
  unfold AuthGate.request_interceptor, AuthGate.isAuthenticated, getStoredToken.
  split_and!.
  - intros k Hk. destruct (getUserSession c ls now); [by rewrite lookup_insert_ne|].
    destruct (truthy_str (ls !! "idToken")); [by rewrite lookup_insert_ne|done].
  - destruct (getUserSession c ls now); [done|]. by intros ->.
  - destruct (getUserSession c ls now) as [s|e].
    + intros _. exists (idToken s). by rewrite lookup_insert_eq.
    + intros Ht. rewrite Ht. destruct (ls !! "idToken") as [t|]; [|done].
      exists t. by rewrite lookup_insert_eq.
Qed.

(** The guard of the bird-tag router never redirects twice while the
    session state stays as it is: the route it redirects to is one it
    lets through.  The dashboard is entered exactly when
    [isAuthenticated()] holds, the login route exactly when it does
    not, and the callback route always. *)
Theorem guard_redirects_once to c ls now :
  match beforeEach to c ls now with
  | redirect r => beforeEach r c ls now = proceed
  | proceed =>
      match to with
      | Dashboard => isAuthenticated c ls now = true
      | Login => isAuthenticated c ls now = false
      | AuthCallback => True
      end
  end.
Proof.
  unfold AuthGate.beforeEach.
  destruct to; simpl; destruct (isAuthenticated c ls now) eqn:Ha; simpl;
    rewrite ?Ha; done.
Qed.

(** What [handleOAuthCallback] stores is what [getOAuthSession] gives
    back: with an id token and an access token in the response, and an
    id token that decodes and is not expired, the session carries
    exactly these two.  The refresh token is the one of the response
    when it has one and otherwise whatever an earlier login left in
    the storage.  A response without [id_token] stores the text
    'undefined', and [isAuthenticated()] then answers true. *)
Theorem storeTokens_round_trip t ls now :
  (∀ i a p,
     id_token t = Some i → i ≠ "" → access_token t = Some a → a ≠ "" →
     decodeJWT i = Some p →
     (p !! "exp" = None ∨ ∃ e, p !! "exp" = Some (Num e) ∧ now ≤ e) →
     ∃ s, getOAuthSession (storeTokens t ls) now = resolved s ∧
          idToken s = i ∧ accessToken s = a ∧
          refreshToken s
          = if truthy_str (refresh_token t) then default "" (refresh_token t)
            else if truthy_str (ls !! "refreshToken")
                 then default "" (ls !! "refreshToken") else "") ∧
  (id_token t = None →
   getStoredToken (storeTokens t ls) = Some "undefined" ∧
   ∀ c, isAuthenticated c (storeTokens t ls) now = true).
Proof.
  split.
  - intros i a p Hi Hi' Ha Ha' Hp Hexp.
    assert (Hid : storeTokens t ls !! "idToken" = Some i).
    { unfold storeTokens, setItem. rewrite Hi, Ha. simpl.
      destruct (truthy_str (refresh_token t));
        rewrite ?lookup_insert_ne by discriminate; by rewrite lookup_insert_eq. }
    assert (Hacc : storeTokens t ls !! "accessToken" = Some a).
    { unfold storeTokens, setItem. rewrite Hi, Ha. simpl.
      destruct (truthy_str (refresh_token t));
        rewrite ?(lookup_insert_ne _ "refreshToken") by discriminate;
        by rewrite lookup_insert_eq. }
    assert (Href : storeTokens t ls !! "refreshToken"
                   = if truthy_str (refresh_token t) then refresh_token t
                     else ls !! "refreshToken").
    { unfold storeTokens, setItem.
      destruct (refresh_token t) as [r|]; simpl;
        [destruct (String.eqb r ""); simpl|];
        rewrite ?lookup_insert_eq; rewrite ?lookup_insert_ne by discriminate; done. }
    unfold AuthService.getOAuthSession. rewrite Hid, Hacc.
    rewrite !truthy_str_Some by done. simpl. rewrite Hp.
    assert (truthy (p !! "exp") && less_than ToNumber (p !! "exp") now = false) as ->.
    { destruct Hexp as [->|(e & -> & He)]; [done|]. simpl.
      apply andb_false_intro2. by apply Z.ltb_ge. }
    eexists. split; [reflexivity|]. simpl. split_and!; [done..|].
    rewrite Href. destruct (truthy_str (refresh_token t)) eqn:Hr; [by rewrite Hr|].
    done.
  - intros Hi.
    assert (Hid : storeTokens t ls !! "idToken" = Some "undefined").
    { unfold storeTokens, setItem. rewrite Hi. simpl.
      destruct (truthy_str (refresh_token t));
        rewrite ?lookup_insert_ne by discriminate; by rewrite lookup_insert_eq. }
    split; [done|]. intros c. rewrite isAuthenticated_eq, Hid.
    simpl. by rewrite orb_true_r.
Qed.

Lemma signOut_lookup cached c (ls : storage) k :
  (signOut cached c ls).1 = no_current_user ∧
  ((signOut cached c ls).2 !! k = None ∨ (signOut cached c ls).2 !! k = ls !! k) ∧
  (cached k = false → (signOut cached c ls).2 !! k = ls !! k).
Proof.
  assert (Hf : filter (λ kv : string * string, cached kv.1 = false) ls !! k
               = if cached k then None else ls !! k).
  { rewrite map_lookup_filter. destruct (ls !! k) as [v|]; simpl.
    - destruct (cached k) eqn:Hk; case_guard; simpl in *; congruence.
    - by destruct (cached k). }
  destruct c as [| |valid id access refresh attributes]; simpl;
    try (split_and!; [done|by right|done]);
    rewrite Hf; (split_and!; [done| |by intros ->]);
    destruct (cached k); [by left|by right|by left|by right].
Qed.



End AuthGate_facts.

Section DashboardTrace_facts.
Import Js Dashboard DashboardTrace.

Lemma findIndex_None p (files : list object) :
  findIndex p files = None → ∀ f, f ∈ files → p f = false.
Proof.
  induction files as [|g rest IH]; simpl; [by intros _ f ?%elem_of_nil|].
  destruct (p g) eqn:Hg; [done|].
  destruct (findIndex p rest); [done|]. intros _ f [->|Hf]%elem_of_cons; [done|].
  by apply IH.
Qed.

Lemma spread_lookup (f data : object) k :
  spread f data !! k = match data !! k with Some v => Some v | None => f !! k end.
Proof. unfold spread. rewrite lookup_union. by destruct (data !! k), (f !! k). Qed.

(** The collection holds one file per [file_id], and stays so.  An
    update for an id that is there is merged into that file, which
    keeps its place: every property the update carries replaces the
    old one and every other property stays.  An update for a new id is
    put in front.  No file is dropped and no other file is changed. *)
Theorem handleWebSocketMessage_keeps_ids_unique (files : list object) (data : object) :
  NoDup (file_ids files) →
  NoDup (file_ids (handleWebSocketMessage files data)) ∧
  (file_ids (handleWebSocketMessage files data) = file_ids files ∨
   file_ids (handleWebSocketMessage files data) = data !! "file_id" :: file_ids files) ∧
  (∀ i f, files !! i = Some f →
     if bool_decide (f !! "file_id" = data !! "file_id"
                     ∧ data !! "type" = Some (Str "FILE_UPDATE"))
     then handleWebSocketMessage files data !! i = Some (spread f data)
     else f ∈ handleWebSocketMessage files data) ∧
  ∀ f k, spread f data !! k
         = match data !! k with Some v => Some v | None => f !! k end.
Proof.
  intros Hnd. split_and!; [| | |intros; apply spread_lookup];
    unfold handleWebSocketMessage.
  - destruct (strict_eq (data !! "type") _); [|done].
    destruct (findIndex (same_file_id data) files) as [i|] eqn:Hi.
    + destruct (findIndex_Some _ _ _ Hi) as (f & Hf & Hp & _). rewrite Hf.
      assert (Hids : file_ids (<[i := spread f data]> files) = file_ids files);
        [|by rewrite Hids].
      unfold file_ids. rewrite list_fmap_insert. apply list_insert_id.
      rewrite list_lookup_fmap, Hf. simpl. f_equal.
      unfold same_file_id, strict_eq in Hp. apply bool_decide_eq_true in Hp.
      rewrite spread_lookup, Hp. by destruct (data !! "file_id").
    + unfold file_ids. simpl. apply NoDup_cons. split; [|done].
      intros (f & Hid & Hf)%list_elem_of_fmap.
      pose proof (findIndex_None _ _ Hi f Hf) as Hp.
      unfold same_file_id, strict_eq in Hp. apply bool_decide_eq_false in Hp.
      by destruct Hp.
  - destruct (strict_eq (data !! "type") _); [|by left].
    destruct (findIndex (same_file_id data) files) as [i|] eqn:Hi; [|by right].
    destruct (findIndex_Some _ _ _ Hi) as (f & Hf & Hp & _). rewrite Hf. left.
    unfold file_ids. rewrite list_fmap_insert. apply list_insert_id.
    rewrite list_lookup_fmap, Hf. simpl. f_equal.
    unfold same_file_id, strict_eq in Hp. apply bool_decide_eq_true in Hp.
    rewrite spread_lookup, Hp. by destruct (data !! "file_id").
  - intros i f Hf. unfold strict_eq.
    destruct (decide (data !! "type" = Some (Str "FILE_UPDATE"))) as [Ht|Ht].
    2: { rewrite (bool_decide_eq_false_2 (data !! "type" = _)) by done.
         rewrite bool_decide_eq_false_2 by (by intros [_ ?]).
         by eapply list_elem_of_lookup_2. }
    rewrite (bool_decide_eq_true_2 (data !! "type" = _)) by done.
    destruct (findIndex (same_file_id data) files) as [j|] eqn:Hj.
    + destruct (findIndex_Some _ _ _ Hj) as (g & Hg & Hp & _). rewrite Hg.
      unfold same_file_id, strict_eq in Hp. apply bool_decide_eq_true in Hp.
      case_bool_decide as Hd.
      * destruct Hd as [Hid _].
        assert (i = j) as ->.
        { eapply NoDup_lookup; [exact Hnd| |].
          - unfold file_ids. rewrite list_lookup_fmap, Hf. reflexivity.
          - unfold file_ids. rewrite list_lookup_fmap, Hg. simpl. congruence. }
        rewrite Hf in Hg. injection Hg as <-.
        apply list_lookup_insert_eq. by eapply lookup_lt_Some.
      * apply list_elem_of_lookup. exists i.
        rewrite list_lookup_insert_ne; [done|]. intros ->.
        rewrite Hf in Hg. injection Hg as <-. by destruct Hd.
    + case_bool_decide as Hd.
      * destruct Hd as [Hid _].
        pose proof (findIndex_None _ _ Hj f (list_elem_of_lookup_2 _ _ _ Hf)) as Hp.
        unfold same_file_id, strict_eq in Hp. apply bool_decide_eq_false in Hp.
        by destruct Hp.
      * apply elem_of_cons. right. by eapply list_elem_of_lookup_2.
Qed.

End DashboardTrace_facts.

Section Api_body_facts.
Import Js Api.

Variable JSON_parse : string → option object.
Variable JSON_stringify : object → string.
Variable REST_API_BASE_URL : string.

(** The grant request as it goes out: a POST to [/upload-file] with the
    JSON content type, whose body is the JSON text of the file name,
    the content type and the stored token.  [JSON.parse] is taken to
    give back what [JSON.stringify] wrote. *)
Theorem requestUploadFile_sends_name_type_and_token t filename contentType :
  t ≠ "" →
  JSON_stringify {[ "filename" := Str filename; "content_type" := Str contentType ]}
    ≠ "" →
  JSON_parse
    (JSON_stringify {[ "filename" := Str filename; "content_type" := Str contentType ]})
  = Some {[ "filename" := Str filename; "content_type" := Str contentType ]} →
  requestUploadFile JSON_parse JSON_stringify REST_API_BASE_URL (Some t)
    filename contentType
  = {| fetch_url := (REST_API_BASE_URL ++ "/upload-file")%string;
       fetch_method := Some "POST";
       fetch_headers := {[ "Content-Type" := "application/json" ]};
       fetch_body :=
         JSON_stringify
           {[ "token" := Str t; "filename" := Str filename;
              "content_type" := Str contentType ]} |}.
Proof.
  intros Ht Hne Hrt. unfold requestUploadFile, request, request_body, parsed_body.
  cbn [body method headers]. apply String.eqb_neq in Hne as ->. rewrite Hrt.
  cbn [default truthy_str]. apply String.eqb_neq in Ht as ->.
  unfold id. rewrite lookup_insert_ne by discriminate.
  rewrite lookup_singleton_ne by discriminate. cbn [truthy negb andb].
  f_equal.
Qed.

(** What [request] makes of the caller's body.  A token the caller put
    in the body is kept and the stored one is not used.  A string body
    that does not parse is dropped without a word: the request goes out
    with the stored token as its whole body.  Without a stored token
    the body goes out as the caller gave it. *)
Theorem request_body_edge_cases token o :
  (truthy (parsed_body JSON_parse o !! "token") = true →
   request_body JSON_parse token o = parsed_body JSON_parse o) ∧
  (∀ s, body o = Some (body_text s) → JSON_parse s = None →
        request_body JSON_parse token o
        = if truthy_str token then {[ "token" := Str (default "" token) ]} else ∅) ∧
  (truthy_str token = false →
   request_body JSON_parse token o = parsed_body JSON_parse o).
Proof.
  unfold request_body. split_and!.
  - intros ->. by rewrite andb_false_r.
  - intros s Hb Hp. unfold parsed_body. rewrite Hb, Hp. simpl.
    destruct (String.eqb s ""); simpl; rewrite lookup_empty; simpl;
      rewrite andb_true_r; destruct (truthy_str token); by rewrite ?insert_empty.
  - by intros ->.
Qed.

End Api_body_facts.

Section More_instances.
Import Js Browser Scenario Fixtures.

Lemma retries_are_bounded_instance :
  0 ≤ Websocket.reconnectAttempts (Websocket.this opened) ∧
  Websocket.reconnectAttempts (Websocket.this closed) ≤ Websocket.maxReconnectAttempts ∧
  Z.of_nat (length (Websocket.timers closed)
            + WebsocketTrace.fired [Websocket.Close (Data:=string) (Key:=nat) 0 1006])
  = Z.of_nat (length (Websocket.timers opened))
    + (Websocket.reconnectAttempts (Websocket.this closed)
       - Websocket.reconnectAttempts (Websocket.this opened)).
Proof.
  apply (retries_are_bounded (Key:=nat) parse throwing endpoint encode (Some "jwt")
           [Websocket.Connect (Some "f-001") page; Websocket.Open 0 11%nat]
           [Websocket.Close 0 1006] opened closed).
  - vm_compute. reflexivity.
  - vm_compute. reflexivity.
  - repeat constructor.
Defined.

Lemma close_retries_or_reports_instance :
  ∃ k, Websocket.sockets opened !! 0%nat = Some k ∧
       Websocket.ws (Websocket.this closed) = None ∧
       Websocket.timers closed = [Websocket.Timer 1000 (Websocket.closure k)].
Proof.
  destruct (close_retries_or_reports (Key:=nat) parse throwing endpoint encode
              opened 0%nat 1006 closed) as (k & Hk & Hws & _ & Hif).
  - vm_compute. reflexivity.
  - exists k. split; [exact Hk|]. split; [exact Hws|].
    rewrite bool_decide_eq_true_2 in Hif by (split; [discriminate|reflexivity]).
    destruct Hif as (_ & Ht & _). exact Ht.
Defined.

Lemma send_sends_now_or_never_instance :
  ∃ w'', Websocket.run (Key:=nat) parse throwing endpoint encode fresh_page
           [Websocket.Connect (Some "f-001") page; Websocket.Open 0 11%nat]
         = Some w'' ∧
         WebsocketTrace.sent (Websocket.out w'') = [].
Proof.
  destruct (send_sends_now_or_never (Key:=nat) parse throwing endpoint encode
              fresh_page "hello") as [_ Hdrop].
  destruct (Hdrop eq_refl
              [Websocket.Connect (Some "f-001") page; Websocket.Open 0 11%nat]
              (default fresh_page
                 (Websocket.run (Key:=nat) parse throwing endpoint encode
                    (Websocket.send "hello" fresh_page)
                    [Websocket.Connect (Some "f-001") page; Websocket.Open 0 11%nat])))
    as (w'' & Hrun & _ & _ & _ & Hsent & _).
  - vm_compute. reflexivity.
  - exists w''. split; [exact Hrun|]. rewrite <-Hsent. vm_compute. reflexivity.
Defined.

Lemma service_retries_are_bounded_instance :
  0 ≤ WebsocketService.reconnectAttempts (WebsocketService.this dashboard)
    ≤ WebsocketService.reconnectAttempts (WebsocketService.this dashboard_closed) ∧
  WebsocketService.reconnectAttempts (WebsocketService.this dashboard_closed)
    ≤ WebsocketService.maxReconnectAttempts ∧
  Z.of_nat (length (WebsocketService.timers dashboard_closed)
            + WebsocketServiceTrace.fired
                [WebsocketService.Close (Data:=string) 0 1006])
  ≤ Z.of_nat (length (WebsocketService.timers dashboard))
    + (WebsocketService.reconnectAttempts (WebsocketService.this dashboard_closed)
       - WebsocketService.reconnectAttempts (WebsocketService.this dashboard)).
Proof.
  apply (service_retries_are_bounded parse throwing quiet endpoint encode None
           dashboard_events [WebsocketService.Close 0 1006]
           dashboard dashboard_closed).
  - vm_compute. reflexivity.
  - vm_compute. reflexivity.
  - repeat constructor.
Defined.

Lemma disconnect_spends_the_retry_budget_instance :
  (length (WebsocketService.timers
             (default dashboard
                (service_run (WebsocketService.disconnect dashboard)
                   [WebsocketService.Close 0 1006])))
   + WebsocketServiceTrace.fired [WebsocketService.Close (Data:=string) 0 1006]
   ≤ length (WebsocketService.timers dashboard))%nat ∧
  WebsocketService.reconnectAttempts
    (WebsocketService.this
       (default dashboard
          (service_run (WebsocketService.disconnect dashboard)
             [WebsocketService.Close 0 1006])))
  = WebsocketService.maxReconnectAttempts.
Proof.
  apply (disconnect_spends_the_retry_budget parse throwing quiet endpoint encode
           dashboard 0%nat [WebsocketService.Close 0 1006]).
  - vm_compute. reflexivity.
  - vm_compute. reflexivity.
  - repeat constructor.
Defined.

Lemma service_close_notifies_then_retries_instance :
  ∃ k, WebsocketService.sockets dashboard !! 0%nat = Some k ∧
       WebsocketServiceTrace.statuses (WebsocketService.out dashboard_closed)
       = [(8%nat, "connected", None); (8%nat, "closed", Some 1006)] ∧
       WebsocketService.timers dashboard_closed
       = [WebsocketService.Timer 3000 (WebsocketService.closure k)].
Proof.
  destruct (service_close_notifies_then_retries parse throwing quiet endpoint encode
              dashboard 0%nat 1006 dashboard_closed)
    as (k & Hk & _ & _ & _ & Hst & Hif).
  - vm_compute. reflexivity.
  - exists k. split; [exact Hk|]. split; [exact Hst|].
    rewrite bool_decide_eq_true_2 in Hif by (split; [discriminate|reflexivity]).
    destruct Hif as [_ Ht]. exact Ht.
Defined.

Lemma service_send_sends_now_or_never_instance :
  ∃ w'', service_run dashboard_closed [WebsocketService.Timeout 0] = Some w'' ∧
         WebsocketServiceTrace.sent (WebsocketService.out w'') = [].
Proof.
  destruct (service_send_sends_now_or_never parse throwing quiet endpoint encode
              dashboard_closed "hello") as [_ Hdrop].
  destruct (Hdrop eq_refl [WebsocketService.Timeout 0]
              (default dashboard
                 (service_run (WebsocketService.send "hello" dashboard_closed)
                    [WebsocketService.Timeout 0])))
    as (w'' & Hrun & _ & _ & _ & _ & Hsent & _).
  - vm_compute. reflexivity.
  - exists w''. split; [exact Hrun|]. rewrite <-Hsent. vm_compute. reflexivity.
Defined.

Lemma getStatus_is_never_unknown_instance :
  WebsocketService.getStatus dashboard_closed
    ∈ ["disconnected"; "connecting"; "connected"; "closing"] ∧
  (WebsocketService.getStatus dashboard_closed = "connected"
   ↔ WebsocketService.ws_is_open dashboard_closed = true).
Proof.
  apply (getStatus_is_never_unknown parse throwing quiet endpoint encode None
           (dashboard_events ++ [WebsocketService.Close 0 1006])).
  vm_compute. reflexivity.
Defined.

Lemma unsubscribed_handler_is_never_called_instance :
  WebsocketService.messageHandlers
    (WebsocketService.this (WebsocketService.offMessage 7%nat dashboard)) = [] ∧
  filter (λ c, c.1 = 7%nat)
    (WebsocketService.calls
       (WebsocketService.out
          (default dashboard
             (service_run (WebsocketService.offMessage 7%nat dashboard)
                [WebsocketService.Message 0 "update"]))))
  = filter (λ c, c.1 = 7%nat) (WebsocketService.calls (WebsocketService.out dashboard)).
Proof.
  apply (unsubscribed_handler_is_never_called parse throwing quiet endpoint encode
           7%nat dashboard [WebsocketService.Message 0 "update"]).
  - vm_compute. reflexivity.
  - repeat constructor; discriminate.
Defined.

Lemma status_notifications_and_banner_instance :
  "closed" ∈ ["connected"; "error"; "closed"] ∧
  ("closed" = "closed" ↔ Some 1006 ≠ None) ∧
  DashboardBanner.wsStatusText (DashboardBanner.handleWebSocketConnection "closed")
  = "Unknown".
Proof.
  apply (status_notifications_and_banner parse throwing quiet endpoint encode None
           (dashboard_events ++ [WebsocketService.Close 0 1006])
           dashboard_closed 8%nat "closed" (Some 1006)).
  - vm_compute. reflexivity.
  - vm_compute. apply elem_of_cons. right. apply elem_of_cons. by left.
Defined.

Lemma handleWebSocketMessage_keeps_ids_unique_instance :
  NoDup (DashboardTrace.file_ids (Dashboard.handleWebSocketMessage two_files tagged)) ∧
  Dashboard.handleWebSocketMessage two_files tagged !! 1%nat
  = Some (spread {[ "file_id" := Str "f-001"; "file_type" := Str "image" ]} tagged).
Proof.
  destruct (handleWebSocketMessage_keeps_ids_unique two_files tagged)
    as (Hnd & _ & Hmerge & _).
  - unfold DashboardTrace.file_ids, two_files. simpl.
    apply NoDup_cons. split; [|apply NoDup_singleton].
    intros Hin%list_elem_of_singleton. discriminate Hin.
  - split; [exact Hnd|].
    specialize (Hmerge 1%nat {[ "file_id" := Str "f-001"; "file_type" := Str "image" ]}
                  eq_refl).
    rewrite bool_decide_eq_true_2 in Hmerge by (split; vm_compute; reflexivity).
    exact Hmerge.
Defined.


Lemma connects_follow_finished_transfers_instance :
  length (UploadPage.connects
            (UploadPage.out
               (default uploading_page
                  (UploadPage.step to_int uploading_page (UploadPage.TransferResolved 0)))))
  = 1%nat ∧
  ∀ id, id ∈ UploadPage.connects
               (UploadPage.out
                  (default uploading_page
                     (UploadPage.step to_int uploading_page
                        (UploadPage.TransferResolved 0)))) →
        id ∈ ["f-001"].
Proof.
  apply (connects_follow_finished_transfers to_int (Some "jwt")
           [UploadPage.HandleFileSelect (Some bird); UploadPage.RequestResolved 0 grant;
            UploadPage.TransferResolved 0]).
  vm_compute. reflexivity.
Defined.

Lemma startUpload_outcomes_instance :
  UploadPage.run to_int (UploadPage.start None) [UploadPage.HandleFileSelect (Some bird)]
  = Some {| UploadPage.refs :=
              {| UploadPage.currentFile := None; UploadPage.uploading := false;
                 UploadPage.uploadProgress := finite 0; UploadPage.fileId := None;
                 UploadPage.error := "请先登录"; UploadPage.success := "";
                 UploadPage.uploaded := false; UploadPage.view := UploadPage.blank |};
            UploadPage.activations := []; UploadPage.jwt_token := None;
            UploadPage.out := [UploadPage.router_push "/login"] |}.
Proof.
  destruct (startUpload_outcomes to_int None bird grant [] (finite 100) "")
    as (Hnone & _).
  apply Hnone. reflexivity.
Defined.

Lemma resetUpload_does_not_cancel_instance :
  ∃ w', UploadPage.step to_int (UploadPage.resetUpload uploading_page)
          (UploadPage.TransferResolved 0) = Some w' ∧
        UploadPage.currentFile (UploadPage.refs w') = None ∧
        UploadPage.uploaded (UploadPage.refs w') = true ∧
        UploadPage.connects (UploadPage.out w')
        = UploadPage.connects (UploadPage.out uploading_page) ++ ["f-001"].
Proof.
  destruct (resetUpload_does_not_cancel to_int uploading_page) as (_ & _ & _ & Hlate).
  apply (Hlate 0%nat (UploadPage.Activation bird (UploadPage.transferring grant)) grant).
  - vm_compute. reflexivity.
  - reflexivity.
Defined.

Lemma uploadToS3_xhr_range_instance :
  Forall is_percent
    (Transfer.reported
       (Transfer.uploadToS3_xhr true
          [Transfer.progress true 1024 2048; Transfer.progress true 2048 2048;
           Transfer.load 200])).
Proof.
  apply (uploadToS3_xhr_range true).
  repeat constructor; try discriminate; try done.
Defined.

Lemma saveToken_then_clearToken_instance :
  Auth.clearToken signed_in !! "theme" = signed_in !! "theme".
Proof.
  destruct (saveToken_then_clearToken "fresh" (Some "access") None signed_in)
    as (_ & _ & _ & _ & _ & _ & _ & Hother).
  apply Hother; discriminate.
Defined.

Lemma isAuthenticated_cases_instance :
  Auth.isAuthenticated payload_of to_number signed_in clock_ms = true
  ↔ 2000000000 ≠ 0 ∧ clock_ms < 2000000000 * 1000.
Proof.
  destruct (isAuthenticated_cases payload_of to_number signed_in clock_ms)
    as (_ & _ & _ & Hnum & _).
  apply (Hnum "fresh" {[ "exp" := Num 2000000000; "sub" := Str "user-1" ]}).
  - vm_compute. reflexivity.
  - discriminate.
  - vm_compute. reflexivity.
  - vm_compute. reflexivity.
Defined.

Lemma checkAuthStatus_clears_on_failure_instance :
  Auth.isAuthenticated payload_of to_number
    (Auth.checkAuthStatus payload_of false signed_in).2 clock_ms = false ∧
  (truthy_str (Auth.getToken signed_in) = true →
   (Auth.checkAuthStatus payload_of false signed_in).2 = Auth.clearToken signed_in).
Proof.
  destruct (checkAuthStatus_clears_on_failure payload_of to_number false signed_in
              clock_ms) as (_ & Hfalse & _).
  apply Hfalse. vm_compute. reflexivity.
Defined.

Lemma navigation_settles_instance :
  ∃ l ls',
    Auth.navigate payload_of to_number 3 0 (Auth.Location "/login" false)
      (λ _, false) signed_in (λ _, clock_ms) = Some (l, ls') ∧
    (Auth.requiresAuth l = true → Auth.path l ≠ "/auth/callback" →
     ls' = signed_in ∧
     ∃ k, (k < 6)%nat ∧
          Auth.isAuthenticated payload_of to_number signed_in ((λ _, clock_ms) k) = true) ∧
    (Auth.path l = "/login" →
     ∃ k, (k < 6)%nat ∧
          Auth.isAuthenticated payload_of to_number ls' ((λ _, clock_ms) k) = false) ∧
    (Auth.path (Auth.Location "/login" false) = "/auth/callback" →
     l = Auth.Location "/login" false ∧ ls' = signed_in) ∧
    (Auth.requiresAuth (Auth.Location "/login" false) = false →
     Auth.path (Auth.Location "/login" false) ≠ "/login" →
     l = Auth.Location "/login" false ∧ ls' = signed_in).
Proof.
  apply (navigation_settles payload_of to_number (Auth.Location "/login" false)
           (λ _, false) signed_in (λ _, clock_ms)).
  intros i j _. reflexivity.
Defined.


Lemma requestUploadFile_sends_name_type_and_token_instance :
  Api.requestUploadFile read written "https://api.invalid/dev" (Some "jwt")
    "bird.jpg" "image/jpeg"
  = {| Api.fetch_url := "https://api.invalid/dev/upload-file";
       Api.fetch_method := Some "POST";
       Api.fetch_headers := {[ "Content-Type" := "application/json" ]};
       Api.fetch_body :=
         written {[ "token" := Str "jwt"; "filename" := Str "bird.jpg";
                    "content_type" := Str "image/jpeg" ]} |}.
Proof.
  apply (requestUploadFile_sends_name_type_and_token read written
           "https://api.invalid/dev" "jwt" "bird.jpg" "image/jpeg").
  - discriminate.
  - discriminate.
  - reflexivity.
Defined.

Lemma request_interceptor_sends_stored_token_instance :
  ∃ token,
    AuthGate.request_interceptor decode to_number AuthService.no_current_user
      (stored "stale") clock ∅ !! "Authorization" = Some ("Bearer " ++ token)%string ∧
    match AuthService.getUserSession decode to_number AuthService.no_current_user
            (stored "stale") clock with
    | AuthService.resolved s => token = AuthService.idToken s
    | AuthService.rejected _ => stored "stale" !! "idToken" = Some token
    end.
Proof.
  destruct (request_interceptor_sends_stored_token decode to_number
              AuthService.no_current_user (stored "stale") clock ∅)
    as (_ & _ & Hsent).
  apply Hsent. vm_compute. reflexivity.
Defined.

Lemma storeTokens_round_trip_instance :
  ∃ s, AuthService.getOAuthSession decode to_number
         (AuthGate.storeTokens (AuthGate.Tokens (Some "fresh") (Some "access") None)
            {[ "refreshToken" := "left-over" ]}) clock = AuthService.resolved s ∧
       AuthService.idToken s = "fresh" ∧ AuthService.accessToken s = "access" ∧
       AuthService.refreshToken s = "left-over".
Proof.
  destruct (storeTokens_round_trip decode to_number
              (AuthGate.Tokens (Some "fresh") (Some "access") None)
              {[ "refreshToken" := "left-over" ]} clock) as [Hok _].
  apply (Hok "fresh" "access" {[ "exp" := Num 2000000000; "sub" := Str "user-1" ]}).
  - reflexivity.
  - discriminate.
  - reflexivity.
  - discriminate.
  - vm_compute. reflexivity.
  - right. exists 2000000000. split; [vm_compute; reflexivity|]. vm_compute. discriminate.
Defined.



End More_instances.
